(** * kin-go client: submission and resolution engine

    A shallow embedding of [client/client.go] and [client/webhook.go]:
    the ledger-version router ([SubmitPayment], [SubmitEarnBatch]), the
    transaction assembly with its memo policy, the nonce retry loops
    ([signAndSubmitXDR], [signAndSubmitTx]), the cached token-account
    resolution ([resolveTokenAccounts]) and the signature check of the
    sign-transaction webhook.

    Everything the client reaches through [c.internal] (the RPC layer) and
    through other packages (hashing, signing, encodings) is a parameter: a
    type class of pure functions and a type class of request handlers over
    an abstract remote state.  The client itself is state-passing code over
    a [World]: the mutable fields of the client, the Go heap cell behind
    [EarnBatch.Earns], the remote state and a log of the calls made. *)

From Stdlib Require Import ZArith Lia.
From Stdlib Require Import Strings.Byte.
From stdpp Require Import base option list strings gmap.

Local Open Scope Z_scope.
Local Open Scope string_scope.

(** ** Bytes, keys and machine integers *)

Definition bytes := list byte.

#[global] Instance byte_eq_dec : EqDecision byte := Byte.byte_eq_dec.

(** [kin.PublicKey] and [kin.PrivateKey] are byte slices.  Variables of
    these types that the source compares with [nil] ([transferSender],
    [subsidizer], [Channel]) are [option]s here. *)
Definition PublicKey := bytes.
Definition PrivateKey := bytes.

(** int64 and uint64 arithmetic wraps around. *)
Definition wrap64 (z : Z) : Z := (z + 2 ^ 63) `mod` 2 ^ 64 - 2 ^ 63.
Definition to_uint64 (z : Z) : Z := z `mod` 2 ^ 64.
Definition to_uint32 (z : Z) : Z := z `mod` 2 ^ 32.

(** ** Errors

    Go's [error] is an interface value that may be [nil].  The sentinels of
    the package are compared with [==]; a wrapped or formatted error is a
    fresh value and never equal to a sentinel. *)

Inductive Code :=
| CodeOK | CodeUnknown | CodeInvalidArgument | CodeNotFound
| CodeFailedPrecondition | CodeInternal | CodeUnavailable.

Inductive Err :=
| ErrAccountExists
| ErrAccountDoesNotExist
| ErrTransactionNotFound
| ErrTransactionRejected
| ErrBadNonce
| ErrInsufficientBalance
| ErrInvalidSignature
| ErrPayerRequired
| ErrNoSubsidizer
| ErrAlreadySubmitted
| ErrAlreadyPaid
| ErrWrongDestination
| ErrSKUNotFound
| errNoTokenAccounts
| ErrNew (msg : string)                 (* errors.New, errors.Errorf *)
| ErrWrap (cause : Err) (msg : string)  (* errors.Wrap *)
| ErrStatus (code : Code) (msg : string). (* a gRPC status error *)

Definition error := option Err.

#[global] Instance Code_eq_dec : EqDecision Code.
Proof. solve_decision. Defined.

#[global] Instance Err_eq_dec : EqDecision Err.
Proof. solve_decision. Defined.

(** [err == sentinel] *)
Definition err_is (e : error) (sentinel : Err) : bool :=
  bool_decide (e = Some sentinel).

(** [status.Code(err)]: the code of a status error, [OK] for nil,
    [Unknown] for anything else (a wrapped status error included). *)
Definition status_Code (e : error) : Code :=
  match e with
  | None => CodeOK
  | Some (ErrStatus c _) => c
  | Some _ => CodeUnknown
  end.

(** ** Payments, earns, invoices *)

Inductive TransactionType :=
| TransactionTypeUnknown | TransactionTypeNone | TransactionTypeEarn
| TransactionTypeSpend | TransactionTypeP2P.

Record LineItem := {
  Title : string;
  Description : string;
  Amount : Z;
  Sku : bytes;
}.

Record Invoice := { Items : list LineItem }.

(** [commonpb.InvoiceList]: a list of invoice pointers. *)
Definition InvoiceList := list (option Invoice).

Record Payment := {
  Sender : PrivateKey;
  Destination : PublicKey;
  Type_ : TransactionType;
  Quarks : Z;
  PInvoice : option Invoice;
  Memo : string;
  Channel : option PrivateKey;
  DedupeID : bytes;
}.

Record Earn := {
  EDestination : PublicKey;
  EQuarks : Z;
  EInvoice : option Invoice;
}.

(** The address of a Go backing array. *)
Definition loc := nat.

(** [EarnBatch.Earns] is a slice: copying the struct copies the slice
    header, not the array behind it.  [Earns] is the address of that array
    in the heap of the [World]; its length is the slice's length. *)
Record EarnBatch := {
  BSender : PrivateKey;
  BChannel : option PrivateKey;
  BMemo : string;
  Earns : loc;
  BDedupeID : bytes;
}.

Inductive AccountResolution :=
| AccountResolutionExact | AccountResolutionPreferred.

#[global] Instance AccountResolution_eq_dec : EqDecision AccountResolution.
Proof. solve_decision. Defined.

Definition Commitment := N.

Record solanaOpts := {
  commitment : Commitment;
  accountResolution : AccountResolution;
  destResolution : AccountResolution;
  subsidizer : option PrivateKey;
}.

Definition SolanaOption := solanaOpts → solanaOpts.

Definition WithCommitment (cm : Commitment) : SolanaOption :=
  λ o, {| commitment := cm; accountResolution := accountResolution o;
          destResolution := destResolution o; subsidizer := subsidizer o |}.
Definition WithAccountResolution (r : AccountResolution) : SolanaOption :=
  λ o, {| commitment := commitment o; accountResolution := r;
          destResolution := destResolution o; subsidizer := subsidizer o |}.
Definition WithDestResolution (r : AccountResolution) : SolanaOption :=
  λ o, {| commitment := commitment o; accountResolution := accountResolution o;
          destResolution := r; subsidizer := subsidizer o |}.
Definition WithSubsidizer (k : PrivateKey) : SolanaOption :=
  λ o, {| commitment := commitment o; accountResolution := accountResolution o;
          destResolution := destResolution o; subsidizer := Some k |}.

(** [for _, o := range opts { o(&solanaOpts) }] *)
Definition apply_opts (opts : list SolanaOption) (o : solanaOpts) : solanaOpts :=
  foldl (λ acc f, f acc) o opts.

(** ** Submission results *)

Inductive InvoiceErrorReason :=
| ReasonUnknown | ReasonAlreadyPaid | ReasonWrongDestination | ReasonSkuNotFound.

Record InvoiceError := {
  OpIndex : Z;
  Reason : InvoiceErrorReason;
}.

Record TransactionErrors := {
  TxError : error;
  OpErrors : list error;
  PaymentErrors : list error;
}.

Record SubmitTransactionResult := {
  ID : bytes;
  Errors : TransactionErrors;
  InvoiceErrors : list InvoiceError;
}.

(** The zero value [SubmitTransactionResult{}]. *)
Definition zeroResult : SubmitTransactionResult :=
  {| ID := []; Errors := {| TxError := None; OpErrors := []; PaymentErrors := [] |};
     InvoiceErrors := [] |}.

Record EarnError := { EarnIndex : Z; EError : error }.

Record EarnBatchResult := {
  TxID : bytes;
  RTxError : error;
  EarnErrors : list EarnError;
}.

Definition zeroEarnBatchResult : EarnBatchResult :=
  {| TxID := []; RTxError := None; EarnErrors := [] |}.

(** ** Transactions of the two ledgers *)

Inductive Asset :=
| AssetNative
| AssetCreditAlphanum4 (code : bytes) (issuer : PublicKey).

Record PaymentOp := {
  OpSource : PublicKey;
  OpDestination : PublicKey;
  OpAmount : Z;
  OpAsset : Asset;
}.

Inductive XdrMemo :=
| MemoNone
| MemoText (text : string)
| MemoHash (hash : bytes).

(** [xdr.TransactionEnvelope], flattened. *)
Record Envelope := {
  SourceAccount : PublicKey;
  Fee : Z;
  SeqNum : Z;
  Operations : list PaymentOp;
  TxMemo : XdrMemo;
  Signatures : list bytes;
}.

Definition set_SeqNum (n : Z) (e : Envelope) : Envelope :=
  {| SourceAccount := SourceAccount e; Fee := Fee e; SeqNum := n;
     Operations := Operations e; TxMemo := TxMemo e; Signatures := Signatures e |}.

Inductive Instruction :=
| MemoInstruction (data : string)
| TokenTransfer (source dest owner : PublicKey) (amount : Z).

Record SolanaTx := {
  Payer : PublicKey;
  Instructions : list Instruction;
  RecentBlockhash : bytes;
  TxSignatures : list bytes;
}.

(** [solana.NewTransaction(payer, instructions...)] *)
Definition NewTransaction (payer : PublicKey) (ins : list Instruction) : SolanaTx :=
  {| Payer := payer; Instructions := ins; RecentBlockhash := []; TxSignatures := [] |}.

Definition SetBlockhash (bh : bytes) (tx : SolanaTx) : SolanaTx :=
  {| Payer := Payer tx; Instructions := Instructions tx; RecentBlockhash := bh;
     TxSignatures := TxSignatures tx |}.

Definition set_TxSignatures (sigs : list bytes) (tx : SolanaTx) : SolanaTx :=
  {| Payer := Payer tx; Instructions := Instructions tx;
     RecentBlockhash := RecentBlockhash tx; TxSignatures := sigs |}.

(** The 28 zero bytes of [var fk [sha256.Size224]byte]. *)
Definition zero224 : bytes := replicate 28 x00.

(** ** What the client takes from elsewhere

    Pure functions of the standard library, of agora-common and of the
    files of the package that are not among the sources at hand; they are
    parameters of the model.  A function that can fail returns
    [inl err]. *)
Class Externals := {
  (** [kin.PrivateKey.Public] *)
  Public : PrivateKey → PublicKey;
  (** [kin.PublicKey.Base58], the key of the account cache *)
  Base58 : PublicKey → string;
  (** [sha256.Sum224] *)
  Sum224 : bytes → bytes;
  (** [proto.Marshal] on an invoice list *)
  proto_Marshal : InvoiceList → Err + bytes;
  (** [kin.NewMemo(version, type, appIndex, foreignKey)] *)
  NewMemo : Z → TransactionType → N → bytes → Err + bytes;
  (** [base64.StdEncoding.EncodeToString] *)
  base64_Encode : bytes → string;
  (** [stellar.SignEnvelope(&envelope, network, key.StellarSeed())] *)
  SignEnvelope : Envelope → string → PrivateKey → Err + Envelope;
  (** [MarshalBinary] of [xdr.TransactionEnvelope] *)
  MarshalBinary : Envelope → Err + bytes;
  (** [Sign(keys...)] of [solana.Transaction]: the signatures it stores *)
  solana_Sign : SolanaTx → list PrivateKey → Err + list bytes;
  (** [invoiceErrorFromProto], of the package's errors file, which is not
      among the sources at hand *)
  invoiceErrorFromProto : InvoiceError → error;
}.

(** ** The client's configuration

    The fields of [clientOpts] and [client] that the submission code reads
    and never writes.  [kinVersion], which it does write, is in the
    [World]. *)
Record clientOpts := {
  maxRetries : nat;
  maxSequenceRetries : nat;
  whitelistKey : PrivateKey;
  appIndex : N;
  kinIssuer : PublicKey;
  defaultCommitment : Commitment;
  network : string;
}.

(** [kinAssetCode = [4]byte{75, 73, 78, 0}] *)
Definition kinAssetCode : bytes := [x4b; x49; x4e; x00].

(** ** The remote service

    The methods of [InternalClient] that the submission code calls are
    parameters too: request handlers over an abstract remote state [S].
    Each handler may change the remote state; [Now] is the wall clock, in
    nanoseconds.  The types follow the way the callers read the results:
    an account info, a service configuration, a blockhash or a list of
    token accounts is used only when the error is nil, so these are sums;
    the two submit methods give a result (transaction id, structured
    errors, invoice errors) together with an error value, and the callers
    use both.  The legacy methods get the ledger version the internal
    client holds. *)
Record AccountInfo := { Balance : Z; SequenceNumber : Z }.

Record ServiceConfig := { SubsidizerAccount : option PublicKey }.

Class Service (S : Type) := {
  Now : S → Z;
  GetStellarAccountInfo : Z → PublicKey → S → (Err + AccountInfo) * S;
  SubmitStellarTransaction :
    Z → bytes → option InvoiceList → S → (SubmitTransactionResult * error) * S;
  GetServiceConfig : S → (Err + ServiceConfig) * S;
  GetRecentBlockhash : S → (Err + bytes) * S;
  SubmitSolanaTransaction :
    SolanaTx → option InvoiceList → Commitment → bytes → S →
    (SubmitTransactionResult * error) * S;
  ResolveTokenAccounts : PublicKey → S → (Err + list PublicKey) * S;
}.

(** ** The log

    Every call that leaves the client is logged with its request and its
    response, in order, the way the test servers of the package record the
    requests they receive.  The two [Call] events mark an assembled
    transaction entering one of the two retry loops.  The client never
    reads the log. *)
Inductive Event :=
| EvGetStellarAccountInfo (account : PublicKey) (resp : Err + AccountInfo)
| EvSubmitStellarTransaction (envelopeBytes : bytes) (il : option InvoiceList)
    (resp : SubmitTransactionResult * error)
| EvGetServiceConfig (resp : Err + ServiceConfig)
| EvGetRecentBlockhash (resp : Err + bytes)
| EvSubmitSolanaTransaction (tx : SolanaTx) (il : option InvoiceList)
    (cm : Commitment) (dedupeId : bytes) (resp : SubmitTransactionResult * error)
| EvResolveTokenAccounts (account : PublicKey) (resp : Err + list PublicKey)
| CallSignAndSubmitXDR (signers : list PrivateKey) (envelope : Envelope)
    (il : option InvoiceList)
| CallSignAndSubmitTx (signers : list PrivateKey) (tx : SolanaTx)
    (cm : Commitment) (il : option InvoiceList) (dedupeId : bytes).

(** ** The token-account cache

    [lru.Cache] of hashicorp/golang-lru: [items] is ordered from the most
    to the least recently used entry; [Add] beyond the capacity drops the
    oldest one. *)
Record tokenAccountEntry := {
  created : Z;
  accounts : list PublicKey;
}.

Record Cache := {
  size : nat;
  items : list (string * tokenAccountEntry);
}.

Fixpoint assoc_find (k : string) (l : list (string * tokenAccountEntry))
  : option tokenAccountEntry :=
  match l with
  | [] => None
  | (k', e) :: l' => if decide (k' = k) then Some e else assoc_find k l'
  end.

Definition cache_find (k : string) (c : Cache) : option tokenAccountEntry :=
  assoc_find k (items c).

Definition cache_without (k : string) (c : Cache) : list (string * tokenAccountEntry) :=
  filter (λ kv, kv.1 ≠ k) (items c).

(** [c.Get(key)]: a hit moves the entry to the front. *)
Definition cache_Get (k : string) (c : Cache) : option tokenAccountEntry * Cache :=
  match cache_find k c with
  | Some e => (Some e, {| size := size c; items := (k, e) :: cache_without k c |})
  | None => (None, c)
  end.

(** [c.Remove(key)] *)
Definition cache_Remove (k : string) (c : Cache) : Cache :=
  {| size := size c; items := cache_without k c |}.

(** [c.Add(key, value)] *)
Definition cache_Add (k : string) (e : tokenAccountEntry) (c : Cache) : Cache :=
  let items' := (k, e) :: cache_without k c in
  {| size := size c;
     items := if bool_decide (size c < length items')%nat
              then take (size c) items' else items' |}.

(** [lru.New(500)] *)
Definition cache_New (n : nat) : Cache := {| size := n; items := [] |}.

(** ** The retry loop of agora-common

    [retry.Retry(action, strategies...)] runs the action, and runs it again
    while it fails and every strategy agrees:
    [for i := uint(1); ; i++ { err := action(); if err == nil { return i, nil };
       for _, s := range strategies { if !s(i, err) { return i, err } } }].
    [retry.Limit(n)] agrees while [attempts < n]; [retry.RetriableErrors]
    agrees when the error is one of the listed values. *)
Inductive Strategy :=
| Limit (maxAttempts : nat)
| RetriableErrors (es : list Err).

Definition strategy_ok (s : Strategy) (attempts : nat) (err : Err) : bool :=
  match s with
  | Limit n => bool_decide (attempts < n)%nat
  | RetriableErrors es => bool_decide (err ∈ es)
  end.

(** The loop itself, over the state [St] the action works on (the world
    and the variables its closure captures).  [None]: out of fuel. *)
Fixpoint Loop {St : Type} (fuel i : nat) (action : St → error * St)
    (ss : list Strategy) (st : St) : option ((nat * error) * St) :=
  match fuel with
  | O => None
  | S fuel' =>
      let '(err, st') := action st in
      match err with
      | None => Some ((i, None), st')
      | Some e =>
          if forallb (λ s, strategy_ok s i e) ss
          then Loop fuel' (S i) action ss st'
          else Some ((i, Some e), st')
      end
  end.

(** A number of attempts the strategies cannot exceed: the action runs
    once whatever the limit, so [Limit n] bounds the attempts by
    [max 1 n]. *)
Fixpoint attempts_bound (ss : list Strategy) : option nat :=
  match ss with
  | [] => None
  | Limit n :: ss' =>
      Some (match attempts_bound ss' with
            | Some m => Nat.min (Nat.max 1 n) m
            | None => Nat.max 1 n
            end)
  | RetriableErrors _ :: ss' => attempts_bound ss'
  end.

(** [retry.Retry] for strategies that contain a [Limit], which is every
    use the client makes of it: the loop with the fuel the limit allows
    ([Loop_fuel_enough] shows it never runs out). *)
Definition Retry {St : Type} (action : St → error * St) (ss : list Strategy)
    (st : St) : (nat * error) * St :=
  match attempts_bound ss with
  | Some n => default ((O, None), st) (Loop n 1 action ss st)
  | None => ((O, None), st)
  end.

(** ** The world *)

Record World (S : Type) := mkWorld {
  kinVersion : Z;            (* c.opts.kinVersion *)
  internal_kinVersion : Z;   (* c.internal.kinVersion *)
  accountCache : Cache;      (* c.accountCache *)
  heap : gmap loc (list Earn);
  remote : S;
  log : list Event;
}.
Arguments mkWorld {S}.
Arguments kinVersion {S}.
Arguments internal_kinVersion {S}.
Arguments accountCache {S}.
Arguments heap {S}.
Arguments remote {S}.
Arguments log {S}.

Section Client.
Context `{Externals} {R : Type} `{Service R}.

Definition set_kinVersions (v : Z) (w : World R) : World R :=
  mkWorld v v (accountCache w) (heap w) (remote w) (log w).
Definition set_accountCache (c : Cache) (w : World R) : World R :=
  mkWorld (kinVersion w) (internal_kinVersion w) c (heap w) (remote w) (log w).
Definition set_heap (h : gmap loc (list Earn)) (w : World R) : World R :=
  mkWorld (kinVersion w) (internal_kinVersion w) (accountCache w) h (remote w) (log w).
Definition step_remote (s : R) (e : Event) (w : World R) : World R :=
  mkWorld (kinVersion w) (internal_kinVersion w) (accountCache w) (heap w) s
          (log w ++ [e]).
Definition emit (e : Event) (w : World R) : World R :=
  mkWorld (kinVersion w) (internal_kinVersion w) (accountCache w) (heap w) (remote w)
          (log w ++ [e]).

(** Stateful code: a function from the world to a value and the new
    world. *)
Definition M (A : Type) : Type := World R → A * World R.

#[global] Instance M_ret : MRet M := λ A a w, (a, w).
#[global] Instance M_bind : MBind M :=
  λ A B f m w, let '(a, w') := m w in f a w'.

(** *** Calls through [c.internal] *)

Definition rpc_GetStellarAccountInfo (account : PublicKey) : M (Err + AccountInfo) :=
  λ w, let '(r, s) := GetStellarAccountInfo (internal_kinVersion w) account (remote w) in
       (r, step_remote s (EvGetStellarAccountInfo account r) w).

Definition rpc_SubmitStellarTransaction (envelopeBytes : bytes)
    (il : option InvoiceList) : M (SubmitTransactionResult * error) :=
  λ w, let '(r, s) :=
         SubmitStellarTransaction (internal_kinVersion w) envelopeBytes il (remote w) in
       (r, step_remote s (EvSubmitStellarTransaction envelopeBytes il r) w).

Definition rpc_GetServiceConfig : M (Err + ServiceConfig) :=
  λ w, let '(r, s) := GetServiceConfig (remote w) in
       (r, step_remote s (EvGetServiceConfig r) w).

Definition rpc_GetRecentBlockhash : M (Err + bytes) :=
  λ w, let '(r, s) := GetRecentBlockhash (remote w) in
       (r, step_remote s (EvGetRecentBlockhash r) w).

Definition rpc_SubmitSolanaTransaction (tx : SolanaTx) (il : option InvoiceList)
    (cm : Commitment) (dedupeId : bytes) : M (SubmitTransactionResult * error) :=
  λ w, let '(r, s) := SubmitSolanaTransaction tx il cm dedupeId (remote w) in
       (r, step_remote s (EvSubmitSolanaTransaction tx il cm dedupeId r) w).

Definition rpc_ResolveTokenAccounts (account : PublicKey) : M (Err + list PublicKey) :=
  λ w, let '(r, s) := ResolveTokenAccounts account (remote w) in
       (r, step_remote s (EvResolveTokenAccounts account r) w).

(** *** resolveTokenAccounts (client.go, lines 1096-1131) *)

(** [5*time.Minute], in nanoseconds *)
Definition fiveMinutes : Z := 5 * 60 * 1000000000.

(** [time.Since(t)]: a [time.Duration] is an int64 count of nanoseconds
    and [Time.Sub] saturates at its bounds. *)
Definition saturate64 (d : Z) : Z := Z.max (- 2 ^ 63) (Z.min (2 ^ 63 - 1) d).
Definition time_Since (t : Z) (w : World R) : Z := saturate64 (Now (remote w) - t).

(** The closure passed to [retry.Retry]; it assigns the named result
    [accounts] of the enclosing function. *)
Definition resolve_action (account : PublicKey)
    (st : World R * list PublicKey) : error * (World R * list PublicKey) :=
  let '(r, w') := rpc_ResolveTokenAccounts account st.1 in
  match r with
  | inl e => (Some e, (w', []))
  | inr accts =>
      if bool_decide (length accts = 0%nat)
      then (Some errNoTokenAccounts, (w', accts))
      else (None, (w', accts))
  end.

(** The part after the cache lookup: query, then store a non-empty
    answer. *)
Definition fetchTokenAccounts (c : clientOpts) (account : PublicKey)
    : M (list PublicKey * error) :=
  λ w,
    let '(_, (w', accts)) :=
      Retry (resolve_action account)
            [Limit (maxRetries c); RetriableErrors [errNoTokenAccounts]] (w, []) in
    if bool_decide (length accts = 0%nat)
    then (([], None), w')
    else ((accts, None),
          set_accountCache
            (cache_Add (Base58 account)
                       {| created := Now (remote w'); accounts := accts |}
                       (accountCache w')) w').

Definition resolveTokenAccounts (c : clientOpts) (account : PublicKey)
    : M (list PublicKey * error) :=
  λ w,
    let '(cached, cache1) := cache_Get (Base58 account) (accountCache w) in
    let w1 := set_accountCache cache1 w in
    match cached with
    | Some entry =>
        if bool_decide (time_Since (created entry) w1 < fiveMinutes)
        then ((accounts entry, None), w1)
        else fetchTokenAccounts c account
               (set_accountCache (cache_Remove (Base58 account) (accountCache w1)) w1)
    | None => fetchTokenAccounts c account w1
    end.

(** *** signAndSubmitXDR (client.go, lines 1001-1057) *)

(** [for _, s := range signers { signedEnvelope, err = stellar.SignEnvelope(&envelope, ...) }]
    [SignEnvelope] returns a signed copy; [signed] is the last one. *)
Fixpoint sign_each (c : clientOpts) (envelope : Envelope) (signers : list PrivateKey)
    (signed : option Envelope) : Err + option Envelope :=
  match signers with
  | [] => inr signed
  | s :: rest =>
      match SignEnvelope envelope (network c) s with
      | inl e => inl (ErrWrap e "failed to sign transaction envelope")
      | inr se => sign_each c envelope rest (Some se)
      end
  end.

(** Lines 1014-1040: sign with every signer, co-sign with the whitelist
    key when none of the signers is that key, marshal.  Without any
    signature there is no envelope to marshal; the callers always pass a
    signer. *)
Definition signedEnvelopeBytes (c : clientOpts) (signers : list PrivateKey)
    (envelope : Envelope) : Err + bytes :=
  match sign_each c envelope signers None with
  | inl e => inl e
  | inr signed =>
      let cosigned :=
        if bool_decide (0 < length (whitelistKey c))%nat
           && negb (bool_decide (whitelistKey c ∈ signers))
        then match SignEnvelope envelope (network c) (whitelistKey c) with
             | inl e => inl (ErrWrap e "failed to sign transaction envelope")
             | inr se => inr (Some se)
             end
        else inr signed in
      match cosigned with
      | inl e => inl e
      | inr None => inl (ErrNew "nil transaction envelope")
      | inr (Some se) =>
          match MarshalBinary se with
          | inl e => inl (ErrWrap e "failed to marshal transaction envelope")
          | inr b => inr b
          end
      end
  end.

(** The closure: its captured variables are [offset] and [result]. *)
Definition xdr_attempt (c : clientOpts) (signers : list PrivateKey)
    (envelope : Envelope) (il : option InvoiceList) (sequence : Z)
    (st : World R * (Z * SubmitTransactionResult))
    : error * (World R * (Z * SubmitTransactionResult)) :=
  let '(w, (offset, result)) := st in
  match signedEnvelopeBytes c signers
          (set_SeqNum (wrap64 (sequence + offset)) envelope) with
  | inl e => (Some e, (w, (offset, result)))
  | inr b =>
      let '((result', err), w') := rpc_SubmitStellarTransaction b il w in
      match err with
      | Some e => (Some e, (w', (offset, result')))
      | None =>
          if err_is (TxError (Errors result')) ErrBadNonce
          then (Some ErrBadNonce, (w', (wrap64 (offset + 1), result')))
          else (None, (w', (offset, result')))
      end
  end.

Definition nonceStrategies (c : clientOpts) : list Strategy :=
  [Limit (maxSequenceRetries c); RetriableErrors [ErrBadNonce]].

Definition signAndSubmitXDR (c : clientOpts) (signers : list PrivateKey)
    (envelope : Envelope) (il : option InvoiceList)
    : M (SubmitTransactionResult * error) :=
  λ w0,
    let w := emit (CallSignAndSubmitXDR signers envelope il) w0 in
    match signers with
    | [] => ((zeroResult, Some (ErrNew "index out of range")), w)
    | s0 :: _ =>
        let '(r, w1) := rpc_GetStellarAccountInfo (Public s0) w in
        match r with
        | inl e => ((zeroResult, Some e), w1)
        | inr senderInfo =>
            let '((_, err), (w2, (_, result))) :=
              Retry (xdr_attempt c signers envelope il (SequenceNumber senderInfo))
                    (nonceStrategies c) (w1, (1, zeroResult)) in
            ((result, err), w2)
        end
    end.

(** *** signAndSubmitTx (client.go, lines 1059-1094) *)

(** The closure: its captured variables are [tx] and [result]. *)
Definition tx_attempt (signers : list PrivateKey) (cm : Commitment)
    (il : option InvoiceList) (dedupeId : bytes)
    (st : World R * (SolanaTx * SubmitTransactionResult))
    : error * (World R * (SolanaTx * SubmitTransactionResult)) :=
  let '(w, (tx, result)) := st in
  let '(r, w1) := rpc_GetRecentBlockhash w in
  match r with
  | inl e => (Some e, (w1, (tx, result)))
  | inr blockhash =>
      let tx1 := SetBlockhash blockhash tx in
      match solana_Sign tx1 signers with
      | inl e => (Some e, (w1, (tx1, result)))
      | inr sigs =>
          let tx2 := set_TxSignatures sigs tx1 in
          let '((result', err), w2) :=
            rpc_SubmitSolanaTransaction tx2 il cm dedupeId w1 in
          match err with
          | Some e => (Some e, (w2, (tx2, result')))
          | None =>
              if err_is (TxError (Errors result')) ErrBadNonce
              then (Some ErrBadNonce, (w2, (tx2, result')))
              else (None, (w2, (tx2, result')))
          end
      end
  end.

Definition signAndSubmitTx (c : clientOpts) (signers : list PrivateKey)
    (tx : SolanaTx) (cm : Commitment) (il : option InvoiceList) (dedupeId : bytes)
    : M (SubmitTransactionResult * error) :=
  λ w0,
    let w := emit (CallSignAndSubmitTx signers tx cm il dedupeId) w0 in
    let '((_, err), (w', (_, result))) :=
      Retry (tx_attempt signers cm il dedupeId) (nonceStrategies c)
            (w, (tx, zeroResult)) in
    ((result, err), w').

(** *** Memo of a payment

    The foreign key of the structured memo (client.go, lines 524-537 and
    744-757): the SHA-224 hash of the serialized one-invoice list, or 28
    zero bytes without an invoice.  Also gives the invoice list that goes
    with the submission. *)
Definition invoiceForeignKey (invoice : option Invoice)
    : Err + (bytes * option InvoiceList) :=
  match invoice with
  | Some inv =>
      let il := [Some inv] in
      match proto_Marshal il with
      | inl e => inl (ErrWrap e "failed to serialize invoice list")
      | inr invoiceBytes => inr (Sum224 invoiceBytes, Some il)
      end
  | None => inr (zero224, None)
  end.

(** *** submitSolanaPayment (client.go, lines 727-783) *)

(** Lines 728-781: the signers, the instructions and the invoice list. *)
Definition solanaPaymentTx (c : clientOpts) (payment : Payment)
    (config : ServiceConfig) (transferSender : option PublicKey)
    (subsidizer : option PrivateKey)
    : Err + (list PrivateKey * SolanaTx * option InvoiceList) :=
  let '(subsidizerID, signers) :=
    match subsidizer with
    | Some sub => (Public sub, [sub; Sender payment])
    | None => (default [] (SubsidizerAccount config), [Sender payment])
    end in
  let memoPart : Err + (list Instruction * option InvoiceList) :=
    if bool_decide (Memo payment ≠ "")
    then inr ([MemoInstruction (Memo payment)], None)
    else if bool_decide (0 < appIndex c)%N
    then match invoiceForeignKey (PInvoice payment) with
         | inl e => inl e
         | inr (fk, il) =>
             match NewMemo 1 (Type_ payment) (appIndex c) fk with
             | inl e => inl (ErrWrap e "failed to create memo")
             | inr m => inr ([MemoInstruction (base64_Encode m)], il)
             end
         end
    else inr ([], None) in
  match memoPart with
  | inl e => inl e
  | inr (instructions, il) =>
      let transferSender' := default (Public (Sender payment)) transferSender in
      inr (signers,
           NewTransaction subsidizerID
             (instructions ++
              [TokenTransfer transferSender' (Destination payment)
                             (Public (Sender payment)) (to_uint64 (Quarks payment))]),
           il)
  end.

Definition submitSolanaPayment (c : clientOpts) (payment : Payment)
    (config : ServiceConfig) (cm : Commitment) (transferSender : option PublicKey)
    (subsidizer : option PrivateKey) : M (SubmitTransactionResult * error) :=
  match solanaPaymentTx c payment config transferSender subsidizer with
  | inl e => mret (zeroResult, Some e)
  | inr (signers, tx, il) => signAndSubmitTx c signers tx cm il (DedupeID payment)
  end.

(** *** submitPaymentWithResolution (client.go, lines 680-725) *)

Definition set_Destination (d : PublicKey) (p : Payment) : Payment :=
  {| Sender := Sender p; Destination := d; Type_ := Type_ p; Quarks := Quarks p;
     PInvoice := PInvoice p; Memo := Memo p; Channel := Channel p;
     DedupeID := DedupeID p |}.

Definition is_Preferred (r : AccountResolution) : bool :=
  bool_decide (r = AccountResolutionPreferred).

Definition submitPaymentWithResolution (c : clientOpts) (payment : Payment)
    (o : solanaOpts) : M (SubmitTransactionResult * error) :=
  λ w,
    let '(rc, w1) := rpc_GetServiceConfig w in
    match rc with
    | inl e => ((zeroResult, Some (ErrWrap e "failed to get service config")), w1)
    | inr config =>
        if bool_decide (SubsidizerAccount config = None)
           && bool_decide (subsidizer o = None)
        then ((zeroResult, Some ErrNoSubsidizer), w1)
        else
          let '((result, err), w2) :=
            submitSolanaPayment c payment config (commitment o) None (subsidizer o) w1 in
          match err with
          | Some e => ((result, Some e), w2)
          | None =>
              if err_is (TxError (Errors result)) ErrAccountDoesNotExist
              then
                (* the sender *)
                let '(senderStep, w3) :=
                  if is_Preferred (accountResolution o)
                  then let '((tokenAccounts, rerr), w3) :=
                         resolveTokenAccounts c (Public (Sender payment)) w2 in
                       ((rerr, head tokenAccounts), w3)
                  else ((None, None), w2) in
                match senderStep with
                | (Some e, _) => ((result, Some e), w3)
                | (None, transferSender) =>
                    (* the destination *)
                    let '(destStep, w4) :=
                      if is_Preferred (destResolution o)
                      then let '((tokenAccounts, rerr), w4) :=
                             resolveTokenAccounts c (Destination payment) w3 in
                           ((rerr, head tokenAccounts), w4)
                      else ((None, None), w3) in
                    match destStep with
                    | (Some e, _) => ((result, Some e), w4)
                    | (None, newDest) =>
                        let payment' :=
                          match newDest with
                          | Some d => set_Destination d payment
                          | None => payment
                          end in
                        if bool_decide (is_Some transferSender)
                           || bool_decide (is_Some newDest)
                        then submitSolanaPayment c payment' config (commitment o)
                               transferSender (subsidizer o) w4
                        else ((result, None), w4)
                    end
                end
              else ((result, None), w2)
          end
    end.

(** *** SubmitPayment (client.go, lines 439-580) *)

(** Lines 463-548: signers, envelope and invoice list of a payment on the
    legacy ledger, for client version [v] (2 or 3). *)
Definition legacyPaymentEnvelope (c : clientOpts) (v : Z) (payment : Payment)
    : Err + (list PrivateKey * Envelope * option InvoiceList) :=
  let signers :=
    match Channel payment with
    | Some ch =>
        if bool_decide (ch ≠ Sender payment) then [ch; Sender payment]
        else [Sender payment]
    | None => [Sender payment]
    end in
  let '(amount, asset) :=
    if bool_decide (v = 2)
    then (wrap64 (Quarks payment * 100), AssetCreditAlphanum4 kinAssetCode (kinIssuer c))
    else (wrap64 (Quarks payment), AssetNative) in
  let memoPart : Err + (XdrMemo * option InvoiceList) :=
    if bool_decide (Memo payment ≠ "")
    then inr (MemoText (Memo payment), None)
    else if bool_decide (0 < appIndex c)%N
    then match invoiceForeignKey (PInvoice payment) with
         | inl e => inl e
         | inr (fk, il) =>
             match NewMemo 1 (Type_ payment) (appIndex c) fk with
             | inl e => inl (ErrWrap e "failed to create memo")
             | inr m => inr (MemoHash m, il)
             end
         end
    else inr (MemoNone, None) in
  match memoPart with
  | inl e => inl e
  | inr (memo, il) =>
      inr (signers,
           {| SourceAccount := Public (default [] (head signers));
              Fee := 100;
              SeqNum := 0;
              Operations :=
                [{| OpSource := Public (Sender payment);
                    OpDestination := Destination payment;
                    OpAmount := amount; OpAsset := asset |}];
              TxMemo := memo;
              Signatures := [] |},
           il)
  end.

(** Lines 557-579: what the caller gets for a submission outcome. *)
Definition surfacePayment (r : SubmitTransactionResult * error) : bytes * error :=
  let '(result, err) := r in
  match err with
  | Some e => (ID result, Some e)
  | None =>
      match PaymentErrors (Errors result) with
      | [pe] => (ID result, pe)
      | _ :: _ =>
          (ID result, Some (ErrNew "invalid number of payment errors. expected 0 or 1"))
      | [] =>
          match TxError (Errors result) with
          | Some te => (ID result, Some te)
          | None =>
              match InvoiceErrors result with
              | [ie] => (ID result, invoiceErrorFromProto ie)
              | _ :: _ =>
                  (ID result, Some (ErrNew "invalid number of invoice errors. expected 0 or 1"))
              | [] => (ID result, None)
              end
          end
      end
  end.

Definition defaultSolanaOpts (c : clientOpts) : solanaOpts :=
  {| commitment := defaultCommitment c;
     accountResolution := AccountResolutionPreferred;
     destResolution := AccountResolutionPreferred;
     subsidizer := None |}.

Definition SubmitPayment (c : clientOpts) (payment : Payment)
    (opts : list SolanaOption) : M (bytes * error) :=
  λ w,
    if bool_decide (kinVersion w > 4 ∨ kinVersion w < 2)
    then (([], Some (ErrNew "unsupported kin version")), w)
    else if bool_decide (is_Some (PInvoice payment)) && bool_decide (appIndex c = 0%N)
    then (([], Some (ErrNew "cannot submit payment with invoices without an app index")), w)
    else
      let o := apply_opts opts (defaultSolanaOpts c) in
      if bool_decide (kinVersion w = 4)
      then let '(r, w') := submitPaymentWithResolution c payment o w in
           (surfacePayment r, w')
      else
        match legacyPaymentEnvelope c (kinVersion w) payment with
        | inl e => (([], Some e), w)
        | inr (signers, envelope, il) =>
            let '((result, err), w1) := signAndSubmitXDR c signers envelope il w in
            if bool_decide (is_Some err)
               && bool_decide (status_Code err = CodeFailedPrecondition)
            then
              let w2 := set_kinVersions 4 w1 in
              let '(r, w3) := submitPaymentWithResolution c payment o w2 in
              (surfacePayment r, w3)
            else (surfacePayment (result, err), w1)
        end.

(** *** Earn batches *)

(** The elements of [batch.Earns], read through the slice. *)
Definition earnsOf (batch : EarnBatch) (w : World R) : list Earn :=
  default [] (heap w !! Earns batch).

Definition hasInvoice (e : Earn) : bool := bool_decide (is_Some (EInvoice e)).

(** [batch.Earns[i].Destination = d] *)
Definition set_EDestination (d : PublicKey) (e : Earn) : Earn :=
  {| EDestination := d; EQuarks := EQuarks e; EInvoice := EInvoice e |}.

Definition storeDestination (batch : EarnBatch) (i : nat) (d : PublicKey)
    (w : World R) : World R :=
  match heap w !! Earns batch with
  | Some earns =>
      match earns !! i with
      | Some e =>
          set_heap (<[Earns batch := <[i := set_EDestination d e]> earns]> (heap w)) w
      | None => w
      end
  | None => w
  end.

(** *** submitSolanaEarnBatch (client.go, lines 825-886) *)

Definition solanaEarnBatchTx (c : clientOpts) (batch : EarnBatch)
    (earns : list Earn) (config : ServiceConfig) (transferSender : option PublicKey)
    (subsidizer : option PrivateKey)
    : Err + (list PrivateKey * SolanaTx * option InvoiceList) :=
  let '(subsidizerID, signers) :=
    match subsidizer with
    | Some sub => (Public sub, [sub; BSender batch])
    | None => (default [] (SubsidizerAccount config), [BSender batch])
    end in
  let memoPart : Err + (list Instruction * option InvoiceList) :=
    if bool_decide (BMemo batch ≠ "")
    then inr ([MemoInstruction (BMemo batch)], None)
    else if bool_decide (0 < appIndex c)%N
    then
      let hashed : Err + (bytes * option InvoiceList) :=
        match head earns with
        | Some e0 =>
            if hasInvoice e0
            then let il := EInvoice <$> earns in
                 match proto_Marshal il with
                 | inl e => inl (ErrWrap e "failed to serialize invoice list")
                 | inr invoiceBytes => inr (Sum224 invoiceBytes, Some il)
                 end
            else inr (zero224, None)
        | None => inl (ErrNew "index out of range")
        end in
      match hashed with
      | inl e => inl e
      | inr (fk, il) =>
          match NewMemo 1 TransactionTypeEarn (appIndex c) fk with
          | inl e => inl (ErrWrap e "failed to create memo")
          | inr m => inr ([MemoInstruction (base64_Encode m)], il)
          end
      end
    else inr ([], None) in
  match memoPart with
  | inl e => inl e
  | inr (instructions, il) =>
      let transferSender' := default (Public (BSender batch)) transferSender in
      inr (signers,
           NewTransaction subsidizerID
             (instructions ++
              ((λ earn, TokenTransfer transferSender' (EDestination earn)
                          (Public (BSender batch)) (to_uint64 (EQuarks earn)))
                 <$> earns)),
           il)
  end.

Definition submitSolanaEarnBatch (c : clientOpts) (batch : EarnBatch)
    (config : ServiceConfig) (cm : Commitment) (transferSender : option PublicKey)
    (subsidizer : option PrivateKey) : M (SubmitTransactionResult * error) :=
  λ w,
    match solanaEarnBatchTx c batch (earnsOf batch w) config transferSender subsidizer with
    | inl e => ((zeroResult, Some e), w)
    | inr (signers, tx, il) => signAndSubmitTx c signers tx cm il (BDedupeID batch) w
    end.

(** *** submitEarnBatchWithResolution (client.go, lines 785-823) *)

(** Lines 805-814, from index [i] on, [n] elements to go:
    [for i, earn := range batch.Earns { ...; batch.Earns[i].Destination = tokenAccounts[0] }].
    The assignment goes through the slice to the array it shares with the
    caller's batch. *)
Fixpoint resolveEarnDestinations (c : clientOpts) (batch : EarnBatch)
    (i n : nat) (resubmit : bool) : M (error * bool) :=
  match n with
  | O => mret (None, resubmit)
  | S n' =>
      λ w,
        match earnsOf batch w !! i with
        | None => ((None, resubmit), w)
        | Some earn =>
            let '((tokenAccounts, rerr), w1) :=
              resolveTokenAccounts c (EDestination earn) w in
            match rerr with
            | Some e => ((Some e, resubmit), w1)
            | None =>
                match head tokenAccounts with
                | Some d =>
                    resolveEarnDestinations c batch (S i) n' true
                      (storeDestination batch i d w1)
                | None => resolveEarnDestinations c batch (S i) n' resubmit w1
                end
            end
        end
  end.

Definition submitEarnBatchWithResolution (c : clientOpts) (batch : EarnBatch)
    (config : ServiceConfig) (o : solanaOpts) : M (SubmitTransactionResult * error) :=
  λ w,
    let '((result, err), w1) :=
      submitSolanaEarnBatch c batch config (commitment o) None (subsidizer o) w in
    match err with
    | Some e => ((result, Some e), w1)
    | None =>
        if err_is (TxError (Errors result)) ErrAccountDoesNotExist
        then
          let '(senderStep, w2) :=
            if is_Preferred (accountResolution o)
            then let '((tokenAccounts, rerr), w2) :=
                   resolveTokenAccounts c (Public (BSender batch)) w1 in
                 ((rerr, head tokenAccounts), w2)
            else ((None, None), w1) in
          match senderStep with
          | (Some e, _) => ((result, Some e), w2)
          | (None, transferSender) =>
              let '((derr, resubmit), w3) :=
                if is_Preferred (destResolution o)
                then resolveEarnDestinations c batch 0 (length (earnsOf batch w2))
                       (bool_decide (is_Some transferSender)) w2
                else ((None, bool_decide (is_Some transferSender)), w2) in
              match derr with
              | Some e => ((result, Some e), w3)
              | None =>
                  if resubmit
                  then submitSolanaEarnBatch c batch config (commitment o)
                         transferSender (subsidizer o) w3
                  else ((result, None), w3)
              end
          end
        else ((result, None), w1)
    end.

(** *** submitEarnBatch, the legacy ledger (client.go, lines 888-999) *)

Definition legacyEarnBatchEnvelope (c : clientOpts) (v : Z) (batch : EarnBatch)
    (earns : list Earn) : Err + (list PrivateKey * Envelope * option InvoiceList) :=
  let signers :=
    match BChannel batch with
    | Some ch =>
        if bool_decide (ch ≠ BSender batch) then [ch; BSender batch]
        else [BSender batch]
    | None => [BSender batch]
    end in
  let '(quarksToRaw, asset) :=
    if bool_decide (v = 2)
    then (100, AssetCreditAlphanum4 kinAssetCode (kinIssuer c))
    else (1, AssetNative) in
  let operations :=
    (λ r, {| OpSource := Public (BSender batch);
             OpDestination := EDestination r;
             OpAmount := wrap64 (EQuarks r * quarksToRaw);
             OpAsset := asset |}) <$> earns in
  let memoPart : Err + (XdrMemo * option InvoiceList) :=
    if bool_decide (BMemo batch ≠ "")
    then inr (MemoText (BMemo batch), None)
    else
      let invoices := filter (λ o : option Invoice, is_Some o) (EInvoice <$> earns) in
      let hashed : Err + (bytes * option InvoiceList) :=
        if bool_decide (0 < length invoices)%nat
        then
          if bool_decide (length invoices ≠ length earns)
          then inl (ErrNew "either all or none of the earns should have an invoice set")
          else match proto_Marshal invoices with
               | inl e => inl (ErrWrap e "failed to serialize invoice list")
               | inr invoiceBytes => inr (Sum224 invoiceBytes, Some invoices)
               end
        else inr (zero224, None) in
      match hashed with
      | inl e => inl e
      | inr (fk, il) =>
          match NewMemo 1 TransactionTypeEarn (appIndex c) fk with
          | inl e => inl (ErrWrap e "failed to create memo")
          | inr m => inr (MemoHash m, il)
          end
      end in
  match memoPart with
  | inl e => inl e
  | inr (memo, il) =>
      inr (signers,
           {| SourceAccount := Public (default [] (head signers));
              Fee := to_uint32 (100 * Z.of_nat (length earns));
              SeqNum := 0;
              Operations := operations;
              TxMemo := memo;
              Signatures := [] |},
           il)
  end.

Definition submitEarnBatch (c : clientOpts) (batch : EarnBatch)
    : M (SubmitTransactionResult * error) :=
  λ w,
    match legacyEarnBatchEnvelope c (kinVersion w) batch (earnsOf batch w) with
    | inl e => ((zeroResult, Some e), w)
    | inr (signers, envelope, il) =>
        let '((result, err), w1) := signAndSubmitXDR c signers envelope il w in
        match err with
        | Some e => ((result, Some e), w1)
        | None =>
            if bool_decide (0 < length (InvoiceErrors result))%nat
            then ((result, Some (ErrNew "unexpected invoice errors present")), w1)
            else ((result, None), w1)
        end
    end.

(** *** SubmitEarnBatch (client.go, lines 586-678) *)

(** Lines 610-615: a neighbouring pair of earns of which one has an
    invoice and the other has none. *)
Fixpoint adjacentMismatch (earns : list Earn) : bool :=
  match earns with
  | a :: rest =>
      match rest with
      | b :: _ => if xorb (hasInvoice a) (hasInvoice b) then true
                  else adjacentMismatch rest
      | [] => false
      end
  | [] => false
  end.

(** Lines 590-617: the checks on the shape of the batch. *)
Definition checkEarnBatch (c : clientOpts) (batch : EarnBatch) (earns : list Earn)
    : error :=
  if bool_decide (length earns = 0)%nat
  then Some (ErrNew "earn batch must contain at least 1 earn")
  else if bool_decide (15 < length earns)%nat
  then Some (ErrNew "earn batch must not contain more than 15 earns")
  else if bool_decide (BMemo batch ≠ "")
  then (if existsb hasInvoice earns
        then Some (ErrNew "cannot have invoice set when memo is set")
        else None)
  else if from_option hasInvoice false (head earns) && bool_decide (appIndex c = 0%N)
  then Some (ErrNew "cannot submit earn batch with invoices without an app index")
  else if adjacentMismatch earns
  then Some (ErrNew "either all or none of the earns should have an invoice set")
  else None.

(** Lines 653-677: the batch result for a submission result. *)
Definition earnBatchResult (submitResult : SubmitTransactionResult) : EarnBatchResult :=
  match TxError (Errors submitResult) with
  | Some te =>
      {| TxID := ID submitResult;
         RTxError := Some te;
         EarnErrors :=
           imap (λ i e, {| EarnIndex := Z.of_nat i; EError := e |})
                (PaymentErrors (Errors submitResult)) |}
  | None =>
      if bool_decide (0 < length (InvoiceErrors submitResult))%nat
      then {| TxID := ID submitResult;
              RTxError := Some ErrTransactionRejected;
              EarnErrors :=
                (λ e, {| EarnIndex := OpIndex e; EError := invoiceErrorFromProto e |})
                  <$> InvoiceErrors submitResult |}
      else {| TxID := ID submitResult; RTxError := None; EarnErrors := [] |}
  end.

Definition SubmitEarnBatch (c : clientOpts) (batch : EarnBatch)
    (opts : list SolanaOption) : M (EarnBatchResult * error) :=
  λ w,
    if bool_decide (kinVersion w > 4 ∨ kinVersion w < 2)
    then ((zeroEarnBatchResult, Some (ErrNew "unsupported kin version")), w)
    else
      match checkEarnBatch c batch (earnsOf batch w) with
      | Some e => ((zeroEarnBatchResult, Some e), w)
      | None =>
          let o := apply_opts opts (defaultSolanaOpts c) in
          if bool_decide (kinVersion w = 2 ∨ kinVersion w = 3)
          then
            let '((submitResult, err), w1) := submitEarnBatch c batch w in
            match err with
            | Some e => ((zeroEarnBatchResult, Some e), w1)
            | None => ((earnBatchResult submitResult, None), w1)
            end
          else
            let '(rc, w1) := rpc_GetServiceConfig w in
            match rc with
            | inl e => ((zeroEarnBatchResult, Some e), w1)
            | inr config =>
                if bool_decide (SubsidizerAccount config = None)
                   && bool_decide (subsidizer o = None)
                then ((zeroEarnBatchResult, Some ErrNoSubsidizer), w1)
                else
                  let '((submitResult, err), w2) :=
                    submitEarnBatchWithResolution c batch config o w1 in
                  match err with
                  | Some e => ((zeroEarnBatchResult, Some e), w2)
                  | None => ((earnBatchResult submitResult, None), w2)
                  end
            end
      end.

End Client.

(** ** The sign-transaction webhook (webhook.go) *)

Definition AgoraHMACHeader : string := "X-Agora-HMAC-SHA256".

(** What the handler imports: HMAC-SHA256, base64 and JSON decoding. *)
Class WebhookExternals := {
  (** [hmac.New(sha256.New, key)], [Write(body)], [Sum(nil)] *)
  hmac_sha256 : bytes → bytes → bytes;
  (** [base64.StdEncoding.DecodeString] *)
  base64_Decode : string → Err + bytes;
  (** [json.Unmarshal(body, &signRequest)]: the [kin_version] field *)
  json_KinVersion : bytes → Err + Z;
}.

(** An [http.Request] as the handler reads it: the method, the headers
    and the outcome of [ioutil.ReadAll(r.Body)]. *)
Record Request := {
  Method : string;
  Header : list (string * string);
  Body : Err + bytes;
}.

(** [header.Get(key)]: the first value of the key, the empty string when
    there is none. *)
Fixpoint header_Get (key : string) (h : list (string * string)) : string :=
  match h with
  | [] => ""
  | (k, v) :: h' => if decide (k = key) then v else header_Get key h'
  end.

(** [hmac.Equal]: equality of the two byte strings. *)
Definition hmac_Equal (a b : bytes) : bool := bool_decide (a = b).

Section Webhook.
Context `{WebhookExternals}.

(** [verifySignature] (webhook.go, lines 340-363) *)
Definition verifySignature (header : list (string * string)) (body secret : bytes)
    : error :=
  let encodedSig := header_Get AgoraHMACHeader header in
  if bool_decide (encodedSig = "") then Some (ErrNew "missing signature")
  else
    match base64_Decode encodedSig with
    | inl e => Some (ErrWrap e "invalid signature")
    | inr sig =>
        let expected := hmac_sha256 secret body in
        if negb (hmac_Equal expected sig)
        then Some (ErrNew "hmac signature mismatch")
        else None
    end.

(** The handler either answers with [http.Error(w, message, status)] and
    returns, or goes on to decode and dispatch the transaction (line 252
    onwards) with the ledger version it settled on. *)
Inductive HandlerStep :=
| Respond (status : Z) (message : string)
| Proceed (kinVersion : Z).

Definition StatusBadRequest : Z := 400.
Definition StatusUnauthorized : Z := 401.
Definition StatusMethodNotAllowed : Z := 405.

(** [SignTransactionHandler] (webhook.go, lines 215-250): the checks made
    on every request before the transaction is looked at. *)
Definition SignTransactionHandler (secret : string) (r : Request) : HandlerStep :=
  if bool_decide (Method r ≠ "POST") then Respond StatusMethodNotAllowed ""
  else
    match Body r with
    | inl _ => Respond StatusBadRequest "failed to ready body"
    | inr body =>
        let sigError :=
          if bool_decide (0 < String.length secret)%nat
          then verifySignature (Header r) body (String.list_byte_of_string secret)
          else None in
        match sigError with
        | Some _ => Respond StatusUnauthorized ""
        | None =>
            match json_KinVersion body with
            | inl _ => Respond StatusBadRequest "invalid body"
            | inr v0 =>
                let v := if bool_decide (v0 = 0) then 3 else v0 in
                if bool_decide (v < 2 ∨ v > 4)
                then Respond StatusBadRequest "invalid kin version"
                else Proceed v
            end
        end
    end.

End Webhook.

(** ** Reading the log *)

(** The transactions handed to the token-ledger retry loop. *)
Definition submittedTxs (l : list Event) : list SolanaTx :=
  omap (λ e, match e with CallSignAndSubmitTx _ tx _ _ _ => Some tx | _ => None end) l.

(** The envelopes handed to the legacy retry loop. *)
Definition submittedEnvelopes (l : list Event) : list Envelope :=
  omap (λ e, match e with CallSignAndSubmitXDR _ env _ => Some env | _ => None end) l.

(** The submit requests that reached the service, with their responses. *)
Definition stellarSubmissions (l : list Event)
    : list (bytes * (SubmitTransactionResult * error)) :=
  omap (λ e, match e with
             | EvSubmitStellarTransaction b _ r => Some (b, r)
             | _ => None
             end) l.

Definition solanaSubmissions (l : list Event)
    : list (SolanaTx * (SubmitTransactionResult * error)) :=
  omap (λ e, match e with
             | EvSubmitSolanaTransaction tx _ _ _ r => Some (tx, r)
             | _ => None
             end) l.

(** The accounts whose sequence number was asked for. *)
Definition accountInfoQueries (l : list Event) : list PublicKey :=
  omap (λ e, match e with EvGetStellarAccountInfo a _ => Some a | _ => None end) l.

(** Every event a client call can add to the log comes from the service;
    [isRemote] tells those from the two call marks. *)
Definition isRemote (e : Event) : bool :=
  match e with
  | CallSignAndSubmitXDR _ _ _ | CallSignAndSubmitTx _ _ _ _ _ => false
  | _ => true
  end.

(** The fields of the client and the caller's memory: what a submission
    loop must leave alone. *)
Definition clientView {S : Type} (w : World S) : Z * Z * gmap loc (list Earn) :=
  (kinVersion w, internal_kinVersion w, heap w).

(** [keeps f]: a step after which [f] reads as before. *)
Definition keeps {St A : Type} (f : St → A) : relation St := λ st st', f st' = f st.


(** ** The nonce retry policy, as rules on the log

    What the two retry loops are meant to do, written as the traces they
    may leave: an attempt adds events to the log and ends with an error
    value; the loop goes on to attempt [i + 1] only after an attempt that
    ended with [ErrBadNonce], and only while [i] is below the limit. *)

(** The error an attempt ends with for a response to its submission: the
    error of the call, or [ErrBadNonce] when the transaction error of the
    result is [ErrBadNonce]. *)
Definition attemptError (resp : SubmitTransactionResult * error) : error :=
  match resp.2 with
  | Some e => Some e
  | None => if err_is (TxError (Errors resp.1)) ErrBadNonce then Some ErrBadNonce else None
  end.

(** The offset after a response: one more after a result with the
    transaction error [ErrBadNonce]. *)
Definition nextOffset (offset : Z) (resp : SubmitTransactionResult * error) : Z :=
  match resp.2 with
  | Some _ => offset
  | None =>
      if err_is (TxError (Errors resp.1)) ErrBadNonce then wrap64 (offset + 1) else offset
  end.

Inductive retryTrace {L : Type} (attempt : L → list Event → error → L → Prop)
    (limit : nat) : nat → L → list Event → error → L → Prop :=
| retry_stop i l evs err l' :
    attempt l evs err l' →
    err ≠ Some ErrBadNonce ∨ ¬ (i < limit)%nat →
    retryTrace attempt limit i l evs err l'
| retry_again i l evs1 l1 evs err l' :
    attempt l evs1 (Some ErrBadNonce) l1 →
    (i < limit)%nat →
    retryTrace attempt limit (S i) l1 evs err l' →
    retryTrace attempt limit i l (evs1 ++ evs) err l'.

Section Attempts.
Context `{Externals}.

(** One attempt of the legacy loop, from the offset and the result so
    far: the envelope gets the sequence number [sequence + offset], is
    signed and marshalled, and submitted.  An envelope that cannot be
    signed is not submitted. *)
Inductive xdrAttempt (c : clientOpts) (signers : list PrivateKey) (envelope : Envelope)
    (il : option InvoiceList) (sequence : Z)
    : Z * SubmitTransactionResult → list Event → error →
      Z * SubmitTransactionResult → Prop :=
| xdr_unsigned offset result e :
    signedEnvelopeBytes c signers (set_SeqNum (wrap64 (sequence + offset)) envelope)
      = inl e →
    xdrAttempt c signers envelope il sequence (offset, result) [] (Some e) (offset, result)
| xdr_submitted offset result b resp :
    signedEnvelopeBytes c signers (set_SeqNum (wrap64 (sequence + offset)) envelope)
      = inr b →
    xdrAttempt c signers envelope il sequence (offset, result)
      [EvSubmitStellarTransaction b il resp] (attemptError resp)
      (nextOffset offset resp, resp.1).

(** One attempt of the token-ledger loop, from the transaction and the
    result so far: a recent blockhash is fetched, the transaction is
    signed with it and submitted. *)
Inductive txAttempt (signers : list PrivateKey) (cm : Commitment)
    (il : option InvoiceList) (dedupeId : bytes)
    : SolanaTx * SubmitTransactionResult → list Event → error →
      SolanaTx * SubmitTransactionResult → Prop :=
| tx_no_blockhash tx result e :
    txAttempt signers cm il dedupeId (tx, result)
      [EvGetRecentBlockhash (inl e)] (Some e) (tx, result)
| tx_unsigned tx result blockhash e :
    solana_Sign (SetBlockhash blockhash tx) signers = inl e →
    txAttempt signers cm il dedupeId (tx, result)
      [EvGetRecentBlockhash (inr blockhash)] (Some e) (SetBlockhash blockhash tx, result)
| tx_submitted tx result blockhash sigs resp :
    solana_Sign (SetBlockhash blockhash tx) signers = inr sigs →
    txAttempt signers cm il dedupeId (tx, result)
      [EvGetRecentBlockhash (inr blockhash);
       EvSubmitSolanaTransaction (set_TxSignatures sigs (SetBlockhash blockhash tx))
         il cm dedupeId resp]
      (attemptError resp)
      (set_TxSignatures sigs (SetBlockhash blockhash tx), resp.1).

End Attempts.

(** ** The error precedence of the spec

    The categories of errors a submission outcome may hold, in the order
    in which they are to be reported. *)
Inductive Category := Transport | PerPayment | TopLevel | InvoiceCategory.

(** The first category that is not empty. *)
Definition firstNonEmpty (result : SubmitTransactionResult) (err : error)
    : option Category :=
  if bool_decide (err ≠ None) then Some Transport
  else if bool_decide (PaymentErrors (Errors result) ≠ []) then Some PerPayment
  else if bool_decide (TxError (Errors result) ≠ None) then Some TopLevel
  else if bool_decide (InvoiceErrors result ≠ []) then Some InvoiceCategory
  else None.

(** The error reported for a category: the error itself, or, for the two
    list categories, the only element of the list; a payment has one
    operation, so a longer list is reported as an unexpected state. *)
Definition categoryError `{Externals} (cat : Category) (result : SubmitTransactionResult)
    (err : error) : error :=
  match cat with
  | Transport => err
  | PerPayment =>
      match PaymentErrors (Errors result) with
      | [pe] => pe
      | _ => Some (ErrNew "invalid number of payment errors. expected 0 or 1")
      end
  | TopLevel => TxError (Errors result)
  | InvoiceCategory =>
      match InvoiceErrors result with
      | [ie] => invoiceErrorFromProto ie
      | _ => Some (ErrNew "invalid number of invoice errors. expected 0 or 1")
      end
  end.

(** ** Shapes of earn batches the spec rules out *)

Definition invalidBatch (c : clientOpts) (batch : EarnBatch) (earns : list Earn) : Prop :=
  length earns = 0%nat ∨
  (15 < length earns)%nat ∨
  (∃ a b, a ∈ earns ∧ b ∈ earns ∧ hasInvoice a = true ∧ hasInvoice b = false) ∨
  (BMemo batch ≠ "" ∧ ∃ a, a ∈ earns ∧ hasInvoice a = true) ∨
  (appIndex c = 0%N ∧ ∃ a, a ∈ earns ∧ hasInvoice a = true).

(** ** The signature a webhook request carries *)

(** The request supplies a signature, and it is the HMAC-SHA256 of the
    body under the secret. *)
Definition signatureMatches `{WebhookExternals} (secret : string) (r : Request) : Prop :=
  ∃ body sig,
    Body r = inr body ∧
    header_Get AgoraHMACHeader (Header r) ≠ "" ∧
    base64_Decode (header_Get AgoraHMACHeader (Header r)) = inr sig ∧
    hmac_sha256 (String.list_byte_of_string secret) body = sig.

(** The ledger version of a request: the tag of the body, 3 when the tag
    is 0. *)
Definition requestVersion (v0 : Z) : Z := if bool_decide (v0 = 0) then 3 else v0.

(** ** Relations between worlds, for the frame facts *)

Section Views.
Context {R : Type}.
Implicit Types (w : World R).

(** What a loop over remote calls keeps: the client's fields, the
    caller's memory, the cache and the call marks. *)
Definition quietView w :=
  (clientView w, accountCache w, submittedTxs (log w), submittedEnvelopes (log w)).

(** Steps that only query the token accounts of [account]. *)
Definition queried (account : PublicKey) w w' : Prop :=
  quietView w' = quietView w ∧
  ∃ evs, log w' = (log w ++ evs)%list ∧
         Forall (λ e, ∃ r, e = EvResolveTokenAccounts account r) evs.

Definition queriedSt (account : PublicKey) : relation (World R * list PublicKey) :=
  λ st st', queried account st.1 st'.1.

(** The answer of a list of token accounts: on an error the named result
    [accounts] is nil. *)
Definition answered (r : Err + list PublicKey) : list PublicKey :=
  match r with inl _ => [] | inr accts => accts end.

End Views.

(** ** The resolution fallback, step by step *)

Section Fallback.
Context `{Externals} {R : Type} `{Service R}.

(** One resolution step: the first token account of [key] when the mode
    is Preferred and there is one, nothing otherwise. *)
Definition resolvedFirst (mode : AccountResolution) (c : clientOpts) (key : PublicKey)
    (w : World R) : option PublicKey * World R :=
  if is_Preferred mode
  then let '((accts, _), w') := resolveTokenAccounts c key w in (head accts, w')
  else (None, w).

(** The payment with the resolved destination in place of its own. *)
Definition withDestination (d : option PublicKey) (p : Payment) : Payment :=
  match d with
  | Some d => set_Destination d p
  | None => p
  end.

(** The resolution step for the destinations of the earns of a batch, one
    earn after the other: for each earn the first token account of its
    destination, where the mode is Preferred and there is one. *)
Fixpoint resolvedDestinations (mode : AccountResolution) (c : clientOpts)
    (earns : list Earn) (w : World R) : list (option PublicKey) * World R :=
  match earns with
  | [] => ([], w)
  | earn :: rest =>
      let '(d, w1) := resolvedFirst mode c (EDestination earn) w in
      let '(ds, w2) := resolvedDestinations mode c rest w1 in
      (d :: ds, w2)
  end.

(** An earn, and the earns of a batch, with the resolved destinations in
    place of their own. *)
Definition withEDestination (d : option PublicKey) (earn : Earn) : Earn :=
  match d with
  | Some d => set_EDestination d earn
  | None => earn
  end.

Definition withDestinations (ds : list (option PublicKey)) (earns : list Earn)
    : list Earn :=
  zip_with withEDestination ds earns.

(** The world in which the array behind [batch.Earns] holds the earns
    with the resolved destinations. *)
Definition storeDestinations (batch : EarnBatch) (ds : list (option PublicKey))
    (w : World R) : World R :=
  match heap w !! Earns batch with
  | Some earns => set_heap (<[Earns batch := withDestinations ds earns]> (heap w)) w
  | None => w
  end.

(** Some account resolved. *)
Definition anyResolved (ds : list (option PublicKey)) : bool :=
  existsb (λ d, bool_decide (is_Some d)) ds.

End Fallback.

(** The source and the destination of the transfers of a transaction. *)
Definition transfers (tx : SolanaTx) : list (PublicKey * PublicKey) :=
  omap (λ i, match i with
             | TokenTransfer source dest _ _ => Some (source, dest)
             | MemoInstruction _ => None
             end) (Instructions tx).

(** ** The memo policy of the spec *)

Section MemoPolicy.
Context `{Externals}.

(** The memo a transaction carries: none, a text, or the bytes of a
    structured memo. *)
Inductive EmittedMemo :=
| NoMemo
| TextMemo (text : string)
| StructuredMemo (m : bytes).

(** The hash that goes into the structured memo: the SHA-224 of the
    serialized list holding the invoice, 28 zero bytes without one. *)
Definition isForeignKey (invoice : option Invoice) (fk : bytes) : Prop :=
  match invoice with
  | Some inv => ∃ b, proto_Marshal [Some inv] = inr b ∧ fk = Sum224 b
  | None => fk = replicate 28 x00
  end.

(** The policy: the text memo when there is one; else, with an app index,
    the structured memo of version 1, the type of the payment, the app
    index and the hash; else none. *)
Definition memoPolicy (c : clientOpts) (payment : Payment) (emitted : EmittedMemo) : Prop :=
  match emitted with
  | TextMemo text => Memo payment ≠ "" ∧ text = Memo payment
  | StructuredMemo m =>
      Memo payment = "" ∧ (0 < appIndex c)%N ∧
      ∃ fk, isForeignKey (PInvoice payment) fk ∧
            NewMemo 1 (Type_ payment) (appIndex c) fk = inr m
  | NoMemo => Memo payment = "" ∧ appIndex c = 0%N
  end.

(** The memo of an envelope. *)
Definition envelopeMemo (e : Envelope) : EmittedMemo :=
  match TxMemo e with
  | MemoNone => NoMemo
  | MemoText text => TextMemo text
  | MemoHash h => StructuredMemo h
  end.

(** The memo instruction of a token-ledger transaction: the structured
    memo goes in base64. *)
Definition memoInstructions (m : EmittedMemo) : list Instruction :=
  match m with
  | NoMemo => []
  | TextMemo text => [MemoInstruction text]
  | StructuredMemo b => [MemoInstruction (base64_Encode b)]
  end.

(** A token-ledger transaction of the payment: the memo of the policy,
    if any, then one transfer of the payment's amount, owned by the
    sender. *)
Definition carriesPolicyMemo (c : clientOpts) (payment : Payment) (tx : SolanaTx) : Prop :=
  ∃ m source dest,
    memoPolicy c payment m ∧
    Instructions tx =
      (memoInstructions m ++
       [TokenTransfer source dest (Public (Sender payment)) (to_uint64 (Quarks payment))])%list.

End MemoPolicy.


(** ** A scripted service, for running the client

    The remote state is a script: for each operation the responses still
    to be given, in order; an operation whose list is used up answers with
    a plain success.  [clock] is the time every call sees. *)
Record Script := {
  clock : Z;
  accountInfos : list (Err + AccountInfo);
  stellarSubmits : list (SubmitTransactionResult * error);
  configs : list (Err + ServiceConfig);
  solanaSubmits : list (SubmitTransactionResult * error);
  tokenAccounts : list (Err + list PublicKey);
}.

Definition scriptedSubsidizer : PublicKey := [x53].

#[global] Instance scriptedService : Service Script := {|
  Now s := clock s;
  GetStellarAccountInfo _ _ s :=
    (default (inr {| Balance := 10; SequenceNumber := 1 |}) (head (accountInfos s)),
     {| clock := clock s; accountInfos := tail (accountInfos s);
        stellarSubmits := stellarSubmits s; configs := configs s;
        solanaSubmits := solanaSubmits s; tokenAccounts := tokenAccounts s |});
  SubmitStellarTransaction _ _ _ s :=
    (default (zeroResult, None) (head (stellarSubmits s)),
     {| clock := clock s; accountInfos := accountInfos s;
        stellarSubmits := tail (stellarSubmits s); configs := configs s;
        solanaSubmits := solanaSubmits s; tokenAccounts := tokenAccounts s |});
  GetServiceConfig s :=
    (default (inr {| SubsidizerAccount := Some scriptedSubsidizer |}) (head (configs s)),
     {| clock := clock s; accountInfos := accountInfos s;
        stellarSubmits := stellarSubmits s; configs := tail (configs s);
        solanaSubmits := solanaSubmits s; tokenAccounts := tokenAccounts s |});
  GetRecentBlockhash s := (inr [x42], s);
  SubmitSolanaTransaction _ _ _ _ s :=
    (default (zeroResult, None) (head (solanaSubmits s)),
     {| clock := clock s; accountInfos := accountInfos s;
        stellarSubmits := stellarSubmits s; configs := configs s;
        solanaSubmits := tail (solanaSubmits s); tokenAccounts := tokenAccounts s |});
  ResolveTokenAccounts _ s :=
    (default (inr []) (head (tokenAccounts s)),
     {| clock := clock s; accountInfos := accountInfos s;
        stellarSubmits := stellarSubmits s; configs := configs s;
        solanaSubmits := solanaSubmits s; tokenAccounts := tail (tokenAccounts s) |});
|}.

(** Stand-ins for the imported functions: keys are their own public keys,
    signing appends the key, encodings are the identity or the sequence
    number. *)
#[global] Instance scriptedExternals : Externals := {|
  Public k := k;
  Base58 k := String.string_of_list_byte k;
  Sum224 b := take 28 (b ++ replicate 28 xff)%list;
  proto_Marshal il :=
    inr (concat ((λ o : option Invoice,
                   match o with
                   | Some inv => concat ((λ it, String.list_byte_of_string (Title it))
                                           <$> Items inv)
                   | None => []
                   end) <$> il));
  NewMemo v t idx fk := inr (x01 :: fk);
  base64_Encode b := String.string_of_list_byte b;
  SignEnvelope e _ k :=
    inr {| SourceAccount := SourceAccount e; Fee := Fee e; SeqNum := SeqNum e;
           Operations := Operations e; TxMemo := TxMemo e;
           Signatures := (Signatures e ++ [k])%list |};
  MarshalBinary e := inr (default [] ((λ b, [b]) <$> Byte.of_N (Z.to_N (SeqNum e `mod` 256))));
  solana_Sign _ keys := inr keys;
  invoiceErrorFromProto e :=
    match Reason e with
    | ReasonAlreadyPaid => Some ErrAlreadyPaid
    | ReasonWrongDestination => Some ErrWrongDestination
    | ReasonSkuNotFound => Some ErrSKUNotFound
    | ReasonUnknown => Some (ErrNew "unknown invoice error")
    end;
|}.

#[global] Instance scriptedWebhook : WebhookExternals := {|
  hmac_sha256 key body := (key ++ body)%list;
  base64_Decode s := inr (String.list_byte_of_string s);
  json_KinVersion body :=
    match body with
    | [] => inl (ErrNew "unexpected end of JSON input")
    | b :: _ => inr (Z.of_N (Byte.to_N b))
    end;
|}.

Definition emptyScript : Script :=
  {| clock := 0; accountInfos := []; stellarSubmits := []; configs := [];
     solanaSubmits := []; tokenAccounts := [] |}.

Definition scriptedWorld (v : Z) (s : Script) : World Script :=
  mkWorld v v (cache_New 500) ∅ s [].

Definition scriptedOpts : clientOpts :=
  {| maxRetries := 3; maxSequenceRetries := 3; whitelistKey := []; appIndex := 1;
     kinIssuer := []; defaultCommitment := 1%N; network := "Kin Testnet ; December 2018" |}.

Definition resultWith (txError : error) : SubmitTransactionResult :=
  {| ID := [x01]; Errors := {| TxError := txError; OpErrors := []; PaymentErrors := [] |};
     InvoiceErrors := [] |}.

Definition alice : PrivateKey := [x0a].
Definition bob : PublicKey := [x0b].
Definition bobToken : PublicKey := [x1b].

Definition payAliceBob : Payment :=
  {| Sender := alice; Destination := bob; Type_ := TransactionTypeP2P; Quarks := 5;
     PInvoice := None; Memo := ""; Channel := None; DedupeID := [] |}.

(** ** Inputs for the runs *)

(** A client told to make no nonce retries: [WithMaxNonceRetries(0)]. *)
Definition zeroRetryOpts : clientOpts :=
  {| maxRetries := 3; maxSequenceRetries := 0; whitelistKey := []; appIndex := 1;
     kinIssuer := []; defaultCommitment := 1%N; network := "Kin Testnet ; December 2018" |}.

Definition plainEnvelope : Envelope :=
  {| SourceAccount := alice; Fee := 100; SeqNum := 0;
     Operations := [{| OpSource := alice; OpDestination := bob; OpAmount := 5;
                       OpAsset := AssetNative |}];
     TxMemo := MemoNone; Signatures := [] |}.

Definition plainTx : SolanaTx :=
  NewTransaction scriptedSubsidizer [TokenTransfer alice bob alice 5].

(** Three submissions that all get the bad-sequence-number result. *)
Definition badNonceScript : Script :=
  {| clock := 0; accountInfos := [inr {| Balance := 10; SequenceNumber := 7 |}];
     stellarSubmits := replicate 5 (resultWith (Some ErrBadNonce), None);
     configs := []; solanaSubmits := replicate 5 (resultWith (Some ErrBadNonce), None);
     tokenAccounts := [] |}.

(** A request with no signature at all, for a handler set up without a
    secret. *)
Definition unsignedRequest : Request :=
  {| Method := "POST"; Header := []; Body := inr [x03] |}.

(** A batch of sixteen earns, at address 0 of the heap. *)
Definition sixteenEarns : list Earn :=
  replicate 16 {| EDestination := bob; EQuarks := 1; EInvoice := None |}.

Definition batchAt0 : EarnBatch :=
  {| BSender := alice; BChannel := None; BMemo := ""; Earns := 0%nat; BDedupeID := [] |}.

Definition worldWithEarns (v : Z) (earns : list Earn) (s : Script) : World Script :=
  mkWorld v v (cache_New 500) {[ 0%nat := earns ]} s [].

(** Two requests for a handler with the secret ["k"]: one with a wrong
    signature, one with the right signature and the version tag 7.  (The
    scripted HMAC of a body is the key followed by the body.) *)
Definition wrongSignatureRequest : Request :=
  {| Method := "POST"; Header := [(AgoraHMACHeader, "bad")]; Body := inr [x03] |}.

Definition version7Request : Request :=
  {| Method := "POST";
     Header := [(AgoraHMACHeader, String.string_of_list_byte [x6b; x07])];
     Body := inr [x07] |}.

(** A world whose cache holds, for bob, an entry created at time 0, at a
    given time of the clock; the service would now answer with another
    token account. *)
Definition carolToken : PublicKey := [x1c].

Definition bobEntry : tokenAccountEntry := {| created := 0; accounts := [bobToken] |}.

Definition cachedWorld (now : Z) : World Script :=
  mkWorld 4 4 {| size := 500; items := [(Base58 bob, bobEntry)] |} ∅
    {| clock := now; accountInfos := []; stellarSubmits := []; configs := [];
       solanaSubmits := []; tokenAccounts := [inr [carolToken]] |} [].

Definition second : Z := 1000000000.



(** A token-ledger service on which the first submission finds the
    destination absent, the sender has no token account and bob has
    one. *)
Definition absentDestinationScript : Script :=
  {| clock := 0; accountInfos := []; stellarSubmits := []; configs := [];
     solanaSubmits := [(resultWith (Some ErrAccountDoesNotExist), None)];
     tokenAccounts := [inr []; inr []; inr []; inr [bobToken]] |}.

Definition scriptedConfig : ServiceConfig :=
  {| SubsidizerAccount := Some scriptedSubsidizer |}.

(** A payment with an invoice, and a payment with a text memo. *)
Definition testInvoice : Invoice :=
  {| Items := [{| Title := "TestPayment"; Description := ""; Amount := 100000;
                  Sku := [x73] |}] |}.

Definition payWithInvoice : Payment :=
  {| Sender := alice; Destination := bob; Type_ := TransactionTypeSpend; Quarks := 100000;
     PInvoice := Some testInvoice; Memo := ""; Channel := None; DedupeID := [] |}.

Definition payWithMemo : Payment :=
  {| Sender := alice; Destination := bob; Type_ := TransactionTypeSpend; Quarks := 100000;
     PInvoice := None; Memo := "1-test"; Channel := None; DedupeID := [] |}.

(** A service whose legacy ledger has moved: every legacy call fails with
    the failed-precondition status. *)
Definition migrated : Err := ErrStatus CodeFailedPrecondition "unsupported version".

Definition migratedScript : Script :=
  {| clock := 0; accountInfos := replicate 4 (inl migrated);
     stellarSubmits := replicate 4 (zeroResult, Some migrated);
     configs := []; solanaSubmits := []; tokenAccounts := [] |}.

Definition earnBob : Earn := {| EDestination := bob; EQuarks := 1; EInvoice := None |}.

(** * The rest of the client and of the webhooks

    More ways to read the log, and the parts of [client/client.go] and
    [client/webhook.go] around the submission code: the construction of a
    client, the account calls, the events webhook and the response of the
    sign-transaction webhook. *)

(** ** More of the log *)

(** The token-account queries, with their answers. *)
Definition resolveQueries (l : list Event) : list (PublicKey * (Err + list PublicKey)) :=
  omap (λ e, match e with EvResolveTokenAccounts a r => Some (a, r) | _ => None end) l.

(** The error the closure of [resolveTokenAccounts] returns for an answer
    of the service (client.go, lines 1107-1117). *)
Definition resolveError (r : Err + list PublicKey) : error :=
  match r with
  | inl e => Some e
  | inr accts => if bool_decide (length accts = 0%nat) then Some errNoTokenAccounts else None
  end.

(** An event of the token ledger, for a call made under the commitment
    [cm] with the dedupe id [dedupeId]: the service configuration, a
    blockhash, a token-account query, or a transaction handed over or
    submitted under that commitment and that id. *)
Definition onTokenLedger (cm : Commitment) (dedupeId : bytes) (e : Event) : Prop :=
  match e with
  | EvGetServiceConfig _ | EvGetRecentBlockhash _ | EvResolveTokenAccounts _ _ => True
  | EvSubmitSolanaTransaction _ _ cm' d _ => cm' = cm ∧ d = dedupeId
  | CallSignAndSubmitTx _ _ cm' _ d => cm' = cm ∧ d = dedupeId
  | EvGetStellarAccountInfo _ _ | EvSubmitStellarTransaction _ _ _
  | CallSignAndSubmitXDR _ _ _ => False
  end.

(** A token-account query. *)
Definition isQuery (e : Event) : Prop :=
  match e with EvResolveTokenAccounts _ _ => True | _ => False end.

(** An event of the legacy ledger. *)
Definition onLegacyLedger (e : Event) : Prop :=
  match e with
  | EvGetStellarAccountInfo _ _ | EvSubmitStellarTransaction _ _ _
  | CallSignAndSubmitXDR _ _ _ => True
  | _ => False
  end.

(** [logged P w w']: from [w] to [w'] the log grew, by events that all
    satisfy [P]. *)
Definition logged {R : Type} (P : Event → Prop) (w w' : World R) : Prop :=
  ∃ evs, log w' = (log w ++ evs)%list ∧ Forall P evs.

(** A service on which bob has one token account. *)
Definition bobTokenScript : Script :=
  {| clock := 0; accountInfos := []; stellarSubmits := []; configs := [];
     solanaSubmits := []; tokenAccounts := [inr [bobToken]] |}.

(** ** The caller's earns *)

(** What an earn pays and for what: everything but its destination. *)
Definition amounts (earns : list Earn) : list (Z * option Invoice) :=
  (λ e, (EQuarks e, EInvoice e)) <$> earns.

(** Two heaps that differ at most in the destinations of the earns behind
    [batch.Earns]. *)
Definition sameButDestinations {R : Type} (batch : EarnBatch) (w w' : World R) : Prop :=
  (∀ l, l ≠ Earns batch → heap w' !! l = heap w !! l) ∧
  amounts <$> (heap w' !! Earns batch) = amounts <$> (heap w !! Earns batch).

(** ** Calls that resolve nothing *)

(** From [w] to [w'] no token accounts were asked for and the account
    cache was left alone. *)
Definition unresolved {R : Type} (w w' : World R) : Prop :=
  resolveQueries (log w') = resolveQueries (log w) ∧ accountCache w' = accountCache w.

(** The two options that switch the resolution off. *)
Definition exactOptions : list SolanaOption :=
  [WithAccountResolution AccountResolutionExact; WithDestResolution AccountResolutionExact].

(** ** The invoices of a batch *)

(** The invoice list of a batch of earns: the invoices of all the earns,
    in order, when the first earn has one; none otherwise. *)
Definition batchInvoices (earns : list Earn) : option InvoiceList :=
  if from_option hasInvoice false (head earns) then Some (EInvoice <$> earns) else None.

(** An error of [errors.Wrap]. *)
Definition isWrapped (e : Err) : Prop := ∃ cause msg, e = ErrWrap cause msg.

(** Two earns for bob with an invoice each, at address 0 of the heap. *)
Definition invoicedEarns : list Earn :=
  replicate 2 {| EDestination := bob; EQuarks := 3; EInvoice := Some testInvoice |}.

(** ** The memo of an earn batch *)

Section BatchMemo.
Context `{Externals}.

(** The hash that goes with an invoice list: the SHA-224 of the
    serialized list, 28 zero bytes without a list. *)
Definition hashedInvoices (il : option InvoiceList) (fk : bytes) : Prop :=
  match il with
  | Some invoices => ∃ b, proto_Marshal invoices = inr b ∧ fk = Sum224 b
  | None => fk = zero224
  end.

(** The memo of a batch submitted with the invoice list [il], on the
    legacy ledgers ([legacy = true]) and on the token ledger: the text
    memo when there is one; else the structured memo of version 1, type
    earn, the app index and the hash of [il], which the token ledger
    leaves out when the app index is 0. *)
Definition earnBatchMemo (legacy : bool) (c : clientOpts) (batch : EarnBatch)
    (il : option InvoiceList) (m : EmittedMemo) : Prop :=
  match m with
  | TextMemo text => BMemo batch ≠ "" ∧ text = BMemo batch ∧ il = None
  | StructuredMemo b =>
      BMemo batch = "" ∧ (legacy = true ∨ (0 < appIndex c)%N) ∧
      ∃ fk, hashedInvoices il fk ∧
            NewMemo 1 TransactionTypeEarn (appIndex c) fk = inr b
  | NoMemo => BMemo batch = "" ∧ legacy = false ∧ appIndex c = 0%N ∧ il = None
  end.

End BatchMemo.

(** ** The answer to a submission *)

(** The responses of the service to the submit requests in a log. *)
Definition responses (l : list Event) : list (SubmitTransactionResult * error) :=
  omap (λ e, match e with
             | EvSubmitStellarTransaction _ _ r | EvSubmitSolanaTransaction _ _ _ _ r =>
                 Some r
             | _ => None
             end) l.

(** From [w] to [w'] a transaction was submitted, and the service answered
    the last submit request with [result] and a nil error. *)
Definition answeredBy {R : Type} (w w' : World R) (result : SubmitTransactionResult)
    : Prop :=
  ∃ evs, log w' = (log w ++ evs)%list ∧ last (responses evs) = Some (result, None).

(** A result for which [SubmitPayment] returns a nil error (client.go,
    lines 561-579): its one payment error is nil, or it has no payment
    error, no transaction error and no invoice error that maps to an
    error. *)
Definition reportedOk `{Externals} (result : SubmitTransactionResult) : Prop :=
  PaymentErrors (Errors result) = [None] ∨
  (PaymentErrors (Errors result) = [] ∧ TxError (Errors result) = None ∧
   (InvoiceErrors result = [] ∨
    ∃ ie, InvoiceErrors result = [ie] ∧ invoiceErrorFromProto ie = None)).

(** ** The account calls (client.go, lines 326-436)

    [CreateAccount], [GetBalance], [ResolveTokenAccounts] and
    [GetTransaction] reach five more methods of [InternalClient]; they are
    parameters like the others.  [TransactionData] is a type of the
    package's model file, which is not among the sources at hand; the
    client only passes it on. *)
Class AccountService (S : Type) := {
  TransactionData : Type;
  (** [TransactionData{}] *)
  zeroTransactionData : TransactionData;
  CreateStellarAccount : Z → PrivateKey → S → error * S;
  CreateSolanaAccount : PrivateKey → Commitment → option PrivateKey → S → error * S;
  GetSolanaAccountInfo : PublicKey → Commitment → S → (Err + AccountInfo) * S;
  GetStellarTransaction : Z → bytes → S → (TransactionData * error) * S;
  GetTransaction : bytes → Commitment → S → (TransactionData * error) * S;
}.

(** The account calls that leave the client, with their responses; they
    are logged beside the calls of the submission code. *)
Inductive AccountCall :=
| CallCreateStellarAccount (key : PrivateKey) (resp : error)
| CallCreateSolanaAccount (key : PrivateKey) (cm : Commitment)
    (subsidizer : option PrivateKey) (resp : error)
| CallGetSolanaAccountInfo (account : PublicKey) (cm : Commitment)
    (resp : Err + AccountInfo)
| CallGetStellarTransaction (txID : bytes)
| CallGetTransaction (txID : bytes) (cm : Commitment).

Record AccountWorld (S : Type) := mkAccountWorld {
  base : World S;
  calls : list AccountCall;
}.
Arguments mkAccountWorld {S}.
Arguments base {S}.
Arguments calls {S}.

(** The options [GetBalance] works with (client.go, lines 381-387). *)
Definition balanceOpts (c : clientOpts) (opts : list SolanaOption) : solanaOpts :=
  apply_opts opts
    {| commitment := defaultCommitment c;
       accountResolution := AccountResolutionPreferred;
       destResolution := AccountResolutionExact;
       subsidizer := None |}.

(** What [GetBalance] returns for the answer to an account-info query. *)
Definition balanceOf (r : Err + AccountInfo) : Z * error :=
  match r with
  | inl e => (0, Some e)
  | inr accountInfo => (Balance accountInfo, None)
  end.

(** The answer "no such account". *)
Definition isAbsent (r : Err + AccountInfo) : bool :=
  match r with
  | inl e => bool_decide (e = ErrAccountDoesNotExist)
  | inr _ => false
  end.

Section Accounts.
Context `{Externals} {R : Type} `{Service R} `{AccountService R}.

Definition MA (A : Type) : Type := AccountWorld R → A * AccountWorld R.

(** Code of the submission part, run on the account world. *)
Definition lift {A : Type} (m : M (R := R) A) : MA A :=
  λ aw, let '(a, w') := m (base aw) in (a, mkAccountWorld w' (calls aw)).

(** An account call: the remote state moves, the call is logged. *)
Definition account_step (s : R) (call : AccountCall) (aw : AccountWorld R)
    : AccountWorld R :=
  let w := base aw in
  mkAccountWorld
    (mkWorld (kinVersion w) (internal_kinVersion w) (accountCache w) (heap w) s (log w))
    (calls aw ++ [call])%list.

(** [c.opts.kinVersion = 4; c.internal.kinVersion = 4] *)
Definition migrate (aw : AccountWorld R) : AccountWorld R :=
  mkAccountWorld (set_kinVersions 4 (base aw)) (calls aw).

Definition rpc_CreateStellarAccount (key : PrivateKey) : MA error :=
  λ aw, let '(r, s) :=
          CreateStellarAccount (internal_kinVersion (base aw)) key (remote (base aw)) in
        (r, account_step s (CallCreateStellarAccount key r) aw).

Definition rpc_CreateSolanaAccount (key : PrivateKey) (cm : Commitment)
    (sub : option PrivateKey) : MA error :=
  λ aw, let '(r, s) := CreateSolanaAccount key cm sub (remote (base aw)) in
        (r, account_step s (CallCreateSolanaAccount key cm sub r) aw).

Definition rpc_GetSolanaAccountInfo (account : PublicKey) (cm : Commitment)
    : MA (Err + AccountInfo) :=
  λ aw, let '(r, s) := GetSolanaAccountInfo account cm (remote (base aw)) in
        (r, account_step s (CallGetSolanaAccountInfo account cm r) aw).

Definition rpc_GetStellarTransaction (txID : bytes) : MA (TransactionData * error) :=
  λ aw, let '(r, s) :=
          GetStellarTransaction (internal_kinVersion (base aw)) txID (remote (base aw)) in
        (r, account_step s (CallGetStellarTransaction txID) aw).

Definition rpc_GetTransaction (txID : bytes) (cm : Commitment)
    : MA (TransactionData * error) :=
  λ aw, let '(r, s) := GetTransaction txID cm (remote (base aw)) in
        (r, account_step s (CallGetTransaction txID cm) aw).

(** [solanaOpts{commitment: c.opts.defaultCommitment}] with the options
    applied; the resolution fields, left at their zero value, are not
    read by the callers that start from it. *)
Definition commitmentOpts (c : clientOpts) (opts : list SolanaOption) : solanaOpts :=
  apply_opts opts
    {| commitment := defaultCommitment c;
       accountResolution := AccountResolutionExact;
       destResolution := AccountResolutionExact;
       subsidizer := None |}.

(** *** CreateAccount (client.go, lines 327-357) *)

(** Lines 345-356: the token-ledger part. *)
Definition createSolanaAccount (c : clientOpts) (key : PrivateKey)
    (opts : list SolanaOption) : MA error :=
  λ aw,
    let o := commitmentOpts c opts in
    let '((_, err), aw') :=
      Retry (rpc_CreateSolanaAccount key (commitment o) (subsidizer o))
            (nonceStrategies c) aw in
    (err, aw').

Definition CreateAccount (c : clientOpts) (key : PrivateKey)
    (opts : list SolanaOption) : MA error :=
  λ aw,
    let v := kinVersion (base aw) in
    if bool_decide (v = 2 ∨ v = 3)
    then
      let '(err, aw1) := rpc_CreateStellarAccount key aw in
      match err with
      | Some e =>
          if bool_decide (status_Code err = CodeFailedPrecondition)
          then createSolanaAccount c key opts (migrate aw1)
          else (Some e, aw1)
      | None => (None, aw1)
      end
    else if bool_decide (v = 4)
    then createSolanaAccount c key opts aw
    else (Some (ErrNew "unsupported kin version"), aw).

(** *** GetBalance (client.go, lines 362-409) *)

(** Lines 381-408: the token-ledger part. *)
Definition getSolanaBalance (c : clientOpts) (account : PublicKey)
    (opts : list SolanaOption) : MA (Z * error) :=
  λ aw,
    let o := balanceOpts c opts in
    let '(r, aw1) := rpc_GetSolanaAccountInfo account (commitment o) aw in
    match r with
    | inr accountInfo => ((Balance accountInfo, None), aw1)
    | inl e =>
        if err_is (Some e) ErrAccountDoesNotExist && is_Preferred (accountResolution o)
        then
          let '((tokenAccounts, tokenErr), aw2) :=
            lift (resolveTokenAccounts c account) aw1 in
          match tokenErr with
          | Some te => ((0, Some te), aw2)
          | None =>
              match tokenAccounts with
              | [] => ((0, Some ErrAccountDoesNotExist), aw2)
              | t0 :: _ =>
                  let '(r2, aw3) := rpc_GetSolanaAccountInfo t0 (commitment o) aw2 in
                  match r2 with
                  | inl e2 => ((0, Some e2), aw3)
                  | inr accountInfo => ((Balance accountInfo, None), aw3)
                  end
              end
          end
        else ((0, Some e), aw1)
    end.

Definition GetBalance (c : clientOpts) (account : PublicKey)
    (opts : list SolanaOption) : MA (Z * error) :=
  λ aw,
    let v := kinVersion (base aw) in
    if bool_decide (v = 2 ∨ v = 3)
    then
      let '(r, aw1) := lift (rpc_GetStellarAccountInfo account) aw in
      match r with
      | inl e =>
          if bool_decide (status_Code (Some e) = CodeFailedPrecondition)
          then getSolanaBalance c account opts (migrate aw1)
          else ((0, Some e), aw1)
      | inr accountInfo => ((Balance accountInfo, None), aw1)
      end
    else if bool_decide (v = 4)
    then getSolanaBalance c account opts aw
    else ((0, Some (ErrNew "unsupported kin version")), aw).

(** *** ResolveTokenAccounts, the method of the client (lines 411-417);
    the field of [Service] with that name is the RPC. *)
Definition client_ResolveTokenAccounts (c : clientOpts) (account : PublicKey)
    : M (list PublicKey * error) :=
  λ w,
    if bool_decide (kinVersion w ≠ 4)
    then (([], Some (ErrNew "`ResolveTokenAccounts` is only available on Kin 4")), w)
    else resolveTokenAccounts c account w.

(** *** GetTransaction of the client (lines 422-436) *)
Definition client_GetTransaction (c : clientOpts) (txID : bytes)
    (opts : list SolanaOption) : MA (TransactionData * error) :=
  λ aw,
    let v := kinVersion (base aw) in
    if bool_decide (v = 2 ∨ v = 3)
    then rpc_GetStellarTransaction txID aw
    else if bool_decide (v = 4)
    then rpc_GetTransaction txID (commitment (commitmentOpts c opts)) aw
    else ((zeroTransactionData, Some (ErrNew "unsupported kin verion")), aw).

End Accounts.

(** ** The ledger version across calls *)

(** The client and its internal client hold the same versions as before. *)
Definition sameVersions {R : Type} (w w' : World R) : Prop :=
  kinVersion w' = kinVersion w ∧ internal_kinVersion w' = internal_kinVersion w.

(** Either that, or both have moved from version 2 or 3 to version 4. *)
Definition movedForward {R : Type} (w w' : World R) : Prop :=
  sameVersions w w' ∨
  ((kinVersion w = 2 ∨ kinVersion w = 3) ∧ kinVersion w' = 4 ∧ internal_kinVersion w' = 4).

(** A relation on worlds, read on the worlds of the account calls. *)
Definition onBase {R : Type} (Rel : relation (World R)) : relation (AccountWorld R) :=
  λ aw aw', Rel (base aw) (base aw').

(** A service that accepts the transaction submitted and names it [1]. *)
Definition acceptingScript : Script :=
  {| clock := 0; accountInfos := []; stellarSubmits := [(resultWith None, None)];
     configs := []; solanaSubmits := [(resultWith None, None)]; tokenAccounts := [] |}.

(** ** What the account calls do *)

Section AccountSpecs.
Context `{Externals} {R : Type} `{Service R}.

(** The token-ledger part of [GetBalance], from [aw] to [aw'] with the
    outcome [res]: one query for the account; when the answer is "no such
    account" and the resolution is Preferred, the token accounts of the
    account are resolved, and with a resolved account a second query
    follows, for the first one. *)
Definition tokenBalance (c : clientOpts) (account : PublicKey) (opts : list SolanaOption)
    (aw aw' : AccountWorld R) (res : Z * error) : Prop :=
  ∃ r1,
    let q1 := CallGetSolanaAccountInfo account (commitment (balanceOpts c opts)) r1 in
    if isAbsent r1 && is_Preferred (accountResolution (balanceOpts c opts))
    then
      ∃ w1 accts w2,
        log w1 = log (base aw) ∧ accountCache w1 = accountCache (base aw) ∧
        resolveTokenAccounts c account w1 = ((accts, None), w2) ∧
        log (base aw') = log w2 ∧ accountCache (base aw') = accountCache w2 ∧
        match accts with
        | [] => calls aw' = (calls aw ++ [q1])%list ∧ res = (0, Some ErrAccountDoesNotExist)
        | t0 :: _ =>
            ∃ r2, calls aw' =
                    (calls aw ++
                     [q1; CallGetSolanaAccountInfo t0 (commitment (balanceOpts c opts)) r2])%list ∧
                  res = balanceOf r2
        end
    else
      calls aw' = (calls aw ++ [q1])%list ∧ res = balanceOf r1 ∧
      log (base aw') = log (base aw) ∧ accountCache (base aw') = accountCache (base aw).

(** The attempts of the token-ledger part of [CreateAccount] that end
    with [err]: all but the last were answered with [ErrBadNonce], there
    are at most [max 1 maxSequenceRetries] of them, and that many when the
    last answer is [ErrBadNonce] too. *)
Definition createAttempts (c : clientOpts) (answers : list error) (err : error) : Prop :=
  ∃ init,
    answers = (init ++ [err])%list ∧
    Forall (λ r, r = Some ErrBadNonce) init ∧
    (length answers ≤ Nat.max 1 (maxSequenceRetries c))%nat ∧
    (err = Some ErrBadNonce → length answers = Nat.max 1 (maxSequenceRetries c)).

End AccountSpecs.

(** The account calls on the scripted service: creating an account on the
    legacy ledger fails with the error of the next scripted account info,
    if that is an error; on the token ledger it is answered with the
    transaction error of the next scripted submission; the account infos
    of the token ledger come from the list of the legacy ones. *)
#[global] Instance scriptedAccounts : AccountService Script := {|
  TransactionData := bytes;
  zeroTransactionData := [];
  CreateStellarAccount _ _ s :=
    (match head (accountInfos s) with Some (inl e) => Some e | _ => None end,
     {| clock := clock s; accountInfos := tail (accountInfos s);
        stellarSubmits := stellarSubmits s; configs := configs s;
        solanaSubmits := solanaSubmits s; tokenAccounts := tokenAccounts s |});
  CreateSolanaAccount _ _ _ s :=
    (TxError (Errors (default (zeroResult, None) (head (solanaSubmits s))).1),
     {| clock := clock s; accountInfos := accountInfos s;
        stellarSubmits := stellarSubmits s; configs := configs s;
        solanaSubmits := tail (solanaSubmits s); tokenAccounts := tokenAccounts s |});
  GetSolanaAccountInfo _ _ s :=
    (default (inr {| Balance := 10; SequenceNumber := 1 |}) (head (accountInfos s)),
     {| clock := clock s; accountInfos := tail (accountInfos s);
        stellarSubmits := stellarSubmits s; configs := configs s;
        solanaSubmits := solanaSubmits s; tokenAccounts := tokenAccounts s |});
  GetStellarTransaction _ txID s := ((txID, None), s);
  GetTransaction txID _ s := ((txID, None), s);
|}.

Definition accountWorld (v : Z) (s : Script) : AccountWorld Script :=
  mkAccountWorld (scriptedWorld v s) [].

(** A service on which bob is absent and his one token account holds 42
    quarks. *)
Definition bobBalanceScript : Script :=
  {| clock := 0;
     accountInfos := [inl ErrAccountDoesNotExist;
                      inr {| Balance := 42; SequenceNumber := 0 |}];
     stellarSubmits := []; configs := []; solanaSubmits := [];
     tokenAccounts := [inr [bobToken]] |}.

(** ** Making a client (client.go, lines 34-50, 86-196 and 242-324) *)

Definition Environment := string.
Definition EnvironmentTest : Environment := "test".
Definition EnvironmentProd : Environment := "prod".

(** The passphrases of the four networks. *)
Definition testnet : string := "Kin Testnet ; December 2018".
Definition mainnet : string := "Kin Mainnet ; December 2018".
Definition kin2Testnet : string := "Kin Playground Network ; June 2018".
Definition kin2TMainnet : string := "Public Global Kin Ecosystem Network ; June 2018".

(** What [New] takes from other packages: gRPC connections and dialing,
    the parser of account addresses and the two issuer addresses of
    agora-common. *)
Class SetupExternals := {
  Conn : Type;
  (** [grpc.Dial(endpoint, grpc.WithTransportCredentials(...))] *)
  grpc_Dial : string → Err + Conn;
  (** [kin.PublicKeyFromString] *)
  PublicKeyFromString : string → Err + PublicKey;
  Kin2TestIssuer : string;
  Kin2ProdIssuer : string;
}.

(** [lru.New(size)] of hashicorp/golang-lru fails for a size that is not
    positive. *)
Definition lru_New (n : Z) : Err + Cache :=
  if bool_decide (n ≤ 0)%Z then inl (ErrNew "Must provide a positive size")
  else inr (cache_New (Z.to_nat n)).

Module Setup.
Section Setup.
Context `{SetupExternals}.

(** [clientOpts], all of it. *)
Record clientOpts := mkOpts {
  maxRetries : nat;
  maxSequenceRetries : nat;
  minDelay : Z;
  maxDelay : Z;
  cc : option Conn;
  endpoint : string;
  whitelistKey : PrivateKey;
  appIndex : N;
  kinVersion : Z;
  kinIssuer : PublicKey;
  defaultCommitment : Commitment;
  desiredKinVersion : Z;
}.

Definition ClientOption := clientOpts → clientOpts.

Definition WithKinVersion (v : Z) : ClientOption :=
  λ o, mkOpts (maxRetries o) (maxSequenceRetries o) (minDelay o) (maxDelay o) (cc o)
         (endpoint o) (whitelistKey o) (appIndex o) v (kinIssuer o)
         (defaultCommitment o) (desiredKinVersion o).
Definition WithAppIndex (index : N) : ClientOption :=
  λ o, mkOpts (maxRetries o) (maxSequenceRetries o) (minDelay o) (maxDelay o) (cc o)
         (endpoint o) (whitelistKey o) index (kinVersion o) (kinIssuer o)
         (defaultCommitment o) (desiredKinVersion o).
Definition WithGRPC (conn : Conn) : ClientOption :=
  λ o, mkOpts (maxRetries o) (maxSequenceRetries o) (minDelay o) (maxDelay o)
         (Some conn) (endpoint o) (whitelistKey o) (appIndex o) (kinVersion o)
         (kinIssuer o) (defaultCommitment o) (desiredKinVersion o).
Definition WithEndpoint (e : string) : ClientOption :=
  λ o, mkOpts (maxRetries o) (maxSequenceRetries o) (minDelay o) (maxDelay o) (cc o)
         e (whitelistKey o) (appIndex o) (kinVersion o) (kinIssuer o)
         (defaultCommitment o) (desiredKinVersion o).
Definition WithWhitelister (k : PrivateKey) : ClientOption :=
  λ o, mkOpts (maxRetries o) (maxSequenceRetries o) (minDelay o) (maxDelay o) (cc o)
         (endpoint o) k (appIndex o) (kinVersion o) (kinIssuer o)
         (defaultCommitment o) (desiredKinVersion o).
Definition WithMaxRetries (n : nat) : ClientOption :=
  λ o, mkOpts n (maxSequenceRetries o) (minDelay o) (maxDelay o) (cc o)
         (endpoint o) (whitelistKey o) (appIndex o) (kinVersion o) (kinIssuer o)
         (defaultCommitment o) (desiredKinVersion o).
Definition WithMaxNonceRetries (n : nat) : ClientOption :=
  λ o, mkOpts (maxRetries o) n (minDelay o) (maxDelay o) (cc o)
         (endpoint o) (whitelistKey o) (appIndex o) (kinVersion o) (kinIssuer o)
         (defaultCommitment o) (desiredKinVersion o).
Definition WithMinDelay (d : Z) : ClientOption :=
  λ o, mkOpts (maxRetries o) (maxSequenceRetries o) d (maxDelay o) (cc o)
         (endpoint o) (whitelistKey o) (appIndex o) (kinVersion o) (kinIssuer o)
         (defaultCommitment o) (desiredKinVersion o).
Definition WithMaxDelay (d : Z) : ClientOption :=
  λ o, mkOpts (maxRetries o) (maxSequenceRetries o) (minDelay o) d (cc o)
         (endpoint o) (whitelistKey o) (appIndex o) (kinVersion o) (kinIssuer o)
         (defaultCommitment o) (desiredKinVersion o).
Definition WithDesiredKinVersion (v : Z) : ClientOption :=
  λ o, mkOpts (maxRetries o) (maxSequenceRetries o) (minDelay o) (maxDelay o) (cc o)
         (endpoint o) (whitelistKey o) (appIndex o) (kinVersion o) (kinIssuer o)
         (defaultCommitment o) v.
Definition WithDefaultCommitment (cm : Commitment) : ClientOption :=
  λ o, mkOpts (maxRetries o) (maxSequenceRetries o) (minDelay o) (maxDelay o) (cc o)
         (endpoint o) (whitelistKey o) (appIndex o) (kinVersion o) (kinIssuer o)
         cm (desiredKinVersion o).

Definition set_kinIssuer (k : PublicKey) (o : clientOpts) : clientOpts :=
  mkOpts (maxRetries o) (maxSequenceRetries o) (minDelay o) (maxDelay o) (cc o)
    (endpoint o) (whitelistKey o) (appIndex o) (kinVersion o) k
    (defaultCommitment o) (desiredKinVersion o).
Definition set_cc (conn : Conn) (o : clientOpts) : clientOpts :=
  mkOpts (maxRetries o) (maxSequenceRetries o) (minDelay o) (maxDelay o) (Some conn)
    (endpoint o) (whitelistKey o) (appIndex o) (kinVersion o) (kinIssuer o)
    (defaultCommitment o) (desiredKinVersion o).

(** [commonpbv4.Commitment_SINGLE] *)
Definition Commitment_SINGLE : Commitment := 1%N.

(** Lines 247-254: the options a client starts from; the durations are in
    nanoseconds. *)
Definition defaults : clientOpts :=
  mkOpts 10 3 (500 * 1000000)%Z (10 * 1000000000)%Z None "" [] 0 3 []
         Commitment_SINGLE 0.

(** [for _, o := range opts { o(&c.opts) }] *)
Definition configured (options : list ClientOption) : clientOpts :=
  foldl (λ acc f, f acc) defaults options.

(** The retrier of the internal client (lines 309-313): its limit and the
    two delays of its backoff. *)
Record Retrier := {
  retryLimit : nat;
  backoffBase : Z;
  backoffMax : Z;
}.

(** [NewInternalClient(cc, retrier, kinVersion, desiredKinVersion)] *)
Record InternalClient := {
  conn : Conn;
  retrier : Retrier;
  internalVersion : Z;
  desiredVersion : Z;
}.

Record client := {
  internal : InternalClient;
  opts : clientOpts;
  network : string;
  accountCache : Cache;
}.

(** Lines 264-283: the endpoint, the network and the issuer address of an
    environment. *)
Definition environment (env : Environment) (v : Z) : Err + (string * string * string) :=
  if bool_decide (env = EnvironmentTest)
  then inr ("api.agorainfra.dev:443",
            if bool_decide (v = 2) then kin2Testnet else testnet,
            if bool_decide (v = 2) then Kin2TestIssuer else "")
  else if bool_decide (env = EnvironmentProd)
  then inr ("api.agorainfra.net:443",
            if bool_decide (v = 2) then kin2TMainnet else mainnet,
            if bool_decide (v = 2) then Kin2ProdIssuer else "")
  else inl (ErrNew "unknown environment").

Definition New (env : Environment) (options : list ClientOption) : Err + client :=
  let o := configured options in
  match environment env (kinVersion o) with
  | inl e => inl e
  | inr (endpoint0, net, issuer) =>
      let withIssuer : Err + clientOpts :=
        if bool_decide (kinVersion o = 2)
        then match PublicKeyFromString issuer with
             | inl _ => inl (ErrNew "failed to convert issuer address to public key")
             | inr k => inr (set_kinIssuer k o)
             end
        else inr o in
      match withIssuer with
      | inl e => inl e
      | inr o1 =>
          if bool_decide (is_Some (cc o1)) && bool_decide (endpoint o1 ≠ "")
          then inl (ErrNew "WithGRPC and WithEndpoint cannot both be set")
          else
            let endpoint1 :=
              if bool_decide (endpoint o1 ≠ "") then endpoint o1 else endpoint0 in
            let dialed : Err + Conn :=
              match cc o1 with
              | Some given => inr given
              | None =>
                  match grpc_Dial endpoint1 with
                  | inl e => inl (ErrWrap e "failed to initialize grpc client")
                  | inr c => inr c
                  end
              end in
            match dialed with
            | inl e => inl e
            | inr c =>
                let o2 := set_cc c o1 in
                match lru_New 500 with
                | inl e => inl (ErrWrap e "failed to create token account cache ")
                | inr cache =>
                    inr {| internal :=
                             {| conn := c;
                                retrier := {| retryLimit := maxRetries o2;
                                              backoffBase := minDelay o2;
                                              backoffMax := maxDelay o2 |};
                                internalVersion := kinVersion o2;
                                desiredVersion := desiredKinVersion o2 |};
                           opts := o2; network := net; accountCache := cache |}
                end
            end
      end
  end.

End Setup.
End Setup.

(** The client as the submission code sees it: the options it reads, and
    the world it starts in, with the caller's memory and the remote
    state. *)
Definition submissionOpts `{SetupExternals} (cl : Setup.client) : clientOpts :=
  {| maxRetries := Setup.maxRetries (Setup.opts cl);
     maxSequenceRetries := Setup.maxSequenceRetries (Setup.opts cl);
     whitelistKey := Setup.whitelistKey (Setup.opts cl);
     appIndex := Setup.appIndex (Setup.opts cl);
     kinIssuer := Setup.kinIssuer (Setup.opts cl);
     defaultCommitment := Setup.defaultCommitment (Setup.opts cl);
     network := Setup.network cl |}.

Definition startWorld `{SetupExternals} {R : Type} (cl : Setup.client)
    (h : gmap loc (list Earn)) (s : R) : World R :=
  mkWorld (Setup.kinVersion (Setup.opts cl))
          (Setup.internalVersion (Setup.internal cl))
          (Setup.accountCache cl) h s [].

Section SetupSpecs.
Context `{SetupExternals}.

(** The endpoint [New] dials for an environment and the options. *)
Definition dialedEndpoint (env : Environment) (o : Setup.clientOpts) : string :=
  if bool_decide (Setup.endpoint o ≠ "") then Setup.endpoint o
  else if bool_decide (env = EnvironmentTest) then "api.agorainfra.dev:443"
  else "api.agorainfra.net:443".

(** The network of an environment for a ledger version. *)
Definition networkOf (env : Environment) (v : Z) : string :=
  if bool_decide (env = EnvironmentTest)
  then (if bool_decide (v = 2) then kin2Testnet else testnet)
  else (if bool_decide (v = 2) then kin2TMainnet else mainnet).

(** The issuer address of an environment, for version 2. *)
Definition issuerOf (env : Environment) : string :=
  if bool_decide (env = EnvironmentTest) then Kin2TestIssuer else Kin2ProdIssuer.

(** Why [New] fails. *)
Definition setupFailure (env : Environment) (o : Setup.clientOpts) (e : Err) : Prop :=
  (e = ErrNew "unknown environment" ∧ env ≠ EnvironmentTest ∧ env ≠ EnvironmentProd) ∨
  (e = ErrNew "failed to convert issuer address to public key" ∧
   Setup.kinVersion o = 2 ∧ ∃ cause, PublicKeyFromString (issuerOf env) = inl cause) ∨
  (e = ErrNew "WithGRPC and WithEndpoint cannot both be set" ∧
   is_Some (Setup.cc o) ∧ Setup.endpoint o ≠ "") ∨
  (∃ cause, e = ErrWrap cause "failed to initialize grpc client" ∧
            Setup.cc o = None ∧ grpc_Dial (dialedEndpoint env o) = inl cause).

End SetupSpecs.

(** ** The webhooks, in full (webhook.go) *)

Definition AppUserIDHeader : string := "X-App-User-ID".
Definition AppUserPasskeyHeader : string := "X-App-User-Passkey".

Definition StatusForbidden : Z := 403.
Definition StatusInternalServerError : Z := 500.

(** What the handler does with its [http.ResponseWriter], call by
    call. *)
Inductive ResponseBody :=
| ForbiddenResponse (message : string) (invoiceErrors : list (Z * InvoiceErrorReason))
| SuccessResponse (envelopeXDR : option bytes).

Inductive WriterOp :=
| HttpError (message : string) (status : Z)   (* http.Error(w, message, status) *)
| WriteHeader (status : Z)                    (* w.WriteHeader(status) *)
| SetHeader (key value : string)              (* w.Header().Set(key, value) *)
| Encode (body : ResponseBody).               (* json.NewEncoder(w).Encode(&body) *)

(** *** The events webhook (lines 41-72) *)

(** The event type of agora-common and the JSON decoder for a list of
    events. *)
Class EventsExternals := {
  WebhookEvent : Type;
  json_Events : bytes → Err + list WebhookEvent;
}.

(** A run of a handler: the arguments its callback was called with, and
    the calls on the response writer. *)
Record HandlerRun (A : Type) := mkRun {
  delivered : list A;
  written : list WriterOp;
}.
Arguments mkRun {A}.
Arguments delivered {A}.
Arguments written {A}.

Section Events.
Context `{WebhookExternals} `{EventsExternals}.

Definition EventsHandler (secret : string) (f : list WebhookEvent → error)
    (r : Request) : HandlerRun (list WebhookEvent) :=
  if bool_decide (Method r ≠ "POST") then mkRun [] [HttpError "" StatusMethodNotAllowed]
  else
    match Body r with
    | inl _ => mkRun [] [HttpError "failed to ready body" StatusBadRequest]
    | inr body =>
        let sigError :=
          if bool_decide (0 < String.length secret)%nat
          then verifySignature (Header r) body (String.list_byte_of_string secret)
          else None in
        match sigError with
        | Some _ => mkRun [] [HttpError "" StatusUnauthorized]
        | None =>
            match json_Events body with
            | inl _ => mkRun [] [HttpError "invalid body" StatusBadRequest]
            | inr events =>
                match f events with
                | Some _ => mkRun [events] [HttpError "" StatusInternalServerError]
                | None => mkRun [events] []
                end
            end
        end
    end.

End Events.

(** *** The sign-transaction webhook: request and response *)

(** [signtransaction.InvoiceError]: the index of an operation and the
    reason ([AlreadyPaid], [WrongDestination], [SKUNotFound]), for which
    the reasons of [InvoiceErrorReason] stand. *)
Definition SignInvoiceError : Type := Z * InvoiceErrorReason.

(** What the handler takes from other packages, beside the signing and
    the marshalling of envelopes in [Externals]. *)
Class SignExternals := {
  (** [ReadOnlyPayment], of the package's model file *)
  ReadOnlyPayment : Type;
  (** the other fields of the decoded [signtransaction.Request] *)
  json_EnvelopeXDR : bytes → bytes;
  json_SolanaTransaction : bytes → bytes;
  json_InvoiceList : bytes → bytes;
  (** [proto.Unmarshal] into an invoice list *)
  proto_Unmarshal : bytes → Err + InvoiceList;
  (** [tx.Unmarshal] of [solana.Transaction] *)
  solana_Unmarshal : bytes → Err + SolanaTx;
  (** [envelope.UnmarshalBinary] *)
  xdr_UnmarshalBinary : bytes → Err + Envelope;
  parsePaymentsFromTransaction : SolanaTx → option InvoiceList → Err + list ReadOnlyPayment;
  parsePaymentsFromEnvelope :
    Envelope → TransactionType → option InvoiceList → Z → Err + list ReadOnlyPayment;
  (** [network.HashTransaction(&envelope.Tx, passphrase)]: the hash and
      the error *)
  HashTransaction : Envelope → string → bytes * error;
  (** [Signature()] of [solana.Transaction] *)
  solana_Signature : SolanaTx → bytes;
  (** [Error()] of an error value *)
  err_Error : Err → string;
  (** whether [Encode] of the response encoder fails *)
  encode_error : ResponseBody → error;
  (** the envelope pointer [stellar.SignEnvelope] returns beside an
      error *)
  failedEnvelope : Envelope → string → PrivateKey → option Envelope;
}.

Section SignTransaction.
Context `{Externals} `{WebhookExternals} `{SignExternals}.

Record SignTransactionRequest := {
  UserID : string;
  UserPasskey : string;
  Payments : list ReadOnlyPayment;
  ReqEnvelope : option Envelope;           (* Envelope *)
  req_network : string;                    (* network *)
  SolanaTransaction : option SolanaTx;
}.

(** [TxHash] (lines 117-123) *)
Definition TxHash (s : SignTransactionRequest) : bytes * error :=
  match ReqEnvelope s with
  | Some envelope => HashTransaction envelope (req_network s)
  | None => ([], Some (ErrNew "this transaction has no hash"))
  end.

(** [TxID] (lines 128-137) *)
Definition SignTxID (s : SignTransactionRequest) : bytes * error :=
  match SolanaTransaction s with
  | Some tx => (solana_Signature tx, None)
  | None =>
      match ReqEnvelope s with
      | Some envelope => HashTransaction envelope (req_network s)
      | None => ([], Some (ErrNew "this request has no transaction"))
      end
  end.

Record SignTransactionResponse := mkResponse {
  resp_network : string;                   (* network *)
  envelope : option Envelope;
  rejected : bool;
  errors : list SignInvoiceError;
}.

(** [Sign] (lines 152-157): with an envelope, the envelope becomes what
    [stellar.SignEnvelope] returns, also when it fails. *)
Definition Sign (priv : PrivateKey) (r : SignTransactionResponse)
    : error * SignTransactionResponse :=
  match envelope r with
  | Some e =>
      match SignEnvelope e (resp_network r) priv with
      | inl err =>
          (Some err, mkResponse (resp_network r) (failedEnvelope e (resp_network r) priv)
                                (rejected r) (errors r))
      | inr e' => (None, mkResponse (resp_network r) (Some e') (rejected r) (errors r))
      end
  | None => (None, r)
  end.

(** [Reject] (lines 160-162) *)
Definition Reject (r : SignTransactionResponse) : SignTransactionResponse :=
  mkResponse (resp_network r) (envelope r) true (errors r).

(** [IsRejected] (lines 166-168) *)
Definition IsRejected (r : SignTransactionResponse) : bool := rejected r.

(** [MarkAlreadyPaid], [MarkWrongDestination], [MarkSKUNotFound] (lines
    173-203), by the reason they give; [uint32(idx)] wraps. *)
Definition mark (reason : InvoiceErrorReason) (idx : Z) (r : SignTransactionResponse)
    : SignTransactionResponse :=
  mkResponse (resp_network r) (envelope r) true
             (errors r ++ [(to_uint32 idx, reason)])%list.

Definition MarkAlreadyPaid := mark ReasonAlreadyPaid.
Definition MarkWrongDestination := mark ReasonWrongDestination.
Definition MarkSKUNotFound := mark ReasonSkuNotFound.

(** A callback gets the request and a pointer to the response, whose
    fields are not exported: code outside the package can change the
    response through its methods only.  [Callback] is such code, as the
    tree of the method calls it makes and the error it returns in the
    end.  The request is read-only here: on versions 2 and 3 its
    [Envelope] points to the envelope of the response, and a callback
    that writes through that pointer is not described. *)
Inductive Callback :=
| Return (err : error)
| CallSign (priv : PrivateKey) (next : error → Callback)
| CallReject (next : Callback)
| CallIsRejected (next : bool → Callback)
| CallMarkAlreadyPaid (idx : Z) (next : Callback)
| CallMarkWrongDestination (idx : Z) (next : Callback)
| CallMarkSKUNotFound (idx : Z) (next : Callback).

Fixpoint runCallback (cb : Callback) (r : SignTransactionResponse)
    : error * SignTransactionResponse :=
  match cb with
  | Return err => (err, r)
  | CallSign priv next => let '(err, r') := Sign priv r in runCallback (next err) r'
  | CallReject next => runCallback next (Reject r)
  | CallIsRejected next => runCallback (next (IsRejected r)) r
  | CallMarkAlreadyPaid idx next => runCallback next (MarkAlreadyPaid idx r)
  | CallMarkWrongDestination idx next => runCallback next (MarkWrongDestination idx r)
  | CallMarkSKUNotFound idx next => runCallback next (MarkSKUNotFound idx r)
  end.

Definition SignTransactionFunc := SignTransactionRequest → Callback.

(** Lines 208-214: the network of the handler. *)
Definition handlerNetwork (env : Environment) : string :=
  if bool_decide (env = EnvironmentTest) then testnet
  else if bool_decide (env = EnvironmentProd) then mainnet
  else "".

(** Lines 300-337: the callback and the answer. *)
Definition answerSignTransaction (f : SignTransactionFunc) (req : SignTransactionRequest)
    (resp : SignTransactionResponse) : HandlerRun SignTransactionRequest :=
  let '(err, resp') := runCallback (f req) resp in
  match err with
  | Some _ => mkRun [req] [WriteHeader StatusInternalServerError]
  | None =>
      let header := SetHeader "Content-Type" "application/json" in
      let encoded (body : ResponseBody) : list WriterOp :=
        match encode_error body with
        | Some _ => [Encode body;
                     HttpError "failed to encode response" StatusInternalServerError]
        | None => [Encode body]
        end in
      if IsRejected resp'
      then mkRun [req]
             (header :: WriteHeader StatusForbidden ::
              encoded (ForbiddenResponse "rejected" (errors resp')))%list
      else
        match envelope resp' with
        | Some e =>
            match MarshalBinary e with
            | inl _ =>
                mkRun [req]
                  [header; HttpError "failed to marshal envelope" StatusInternalServerError]
            | inr b => mkRun [req] (header :: encoded (SuccessResponse (Some b)))%list
            end
        | None => mkRun [req] (header :: encoded (SuccessResponse None))%list
        end
  end.

(** Lines 252-298: the transaction of the request, for the ledger version
    [v] the checks settled on. *)
Definition dispatchSignTransaction (env : Environment) (f : SignTransactionFunc)
    (r : Request) (body : bytes) (v : Z) : HandlerRun SignTransactionRequest :=
  let bad (message : string) := mkRun [] [HttpError message StatusBadRequest] in
  let decoded : Err + option InvoiceList :=
    if bool_decide (0 < length (json_InvoiceList body))%nat
    then match proto_Unmarshal (json_InvoiceList body) with
         | inl e => inl e
         | inr il => inr (Some il)
         end
    else inr None in
  match decoded with
  | inl _ => bad "invalid invoice list"
  | inr invoiceList =>
      let net := handlerNetwork env in
      let userID := header_Get AppUserIDHeader (Header r) in
      let passkey := header_Get AppUserPasskeyHeader (Header r) in
      if bool_decide (v = 4)
      then
        match solana_Unmarshal (json_SolanaTransaction body) with
        | inl _ => bad "invalid solana tx"
        | inr tx =>
            match parsePaymentsFromTransaction tx invoiceList with
            | inl e => bad (err_Error e)
            | inr payments =>
                answerSignTransaction f
                  {| UserID := userID; UserPasskey := passkey; Payments := payments;
                     ReqEnvelope := None; req_network := net;
                     SolanaTransaction := Some tx |}
                  (mkResponse net None false [])
            end
        end
      else
        match xdr_UnmarshalBinary (json_EnvelopeXDR body) with
        | inl _ => bad "invalid xdr body"
        | inr e =>
            match parsePaymentsFromEnvelope e TransactionTypeSpend invoiceList v with
            | inl err => bad (err_Error err)
            | inr payments =>
                answerSignTransaction f
                  {| UserID := userID; UserPasskey := passkey; Payments := payments;
                     ReqEnvelope := Some e; req_network := net;
                     SolanaTransaction := None |}
                  (mkResponse net (Some e) false [])
            end
        end
  end.

(** The handler [SignTransactionHandler(env, secret, f)] returns, as a
    whole: the checks of [SignTransactionHandler] above, then the
    transaction. *)
Definition handleSignTransaction (env : Environment) (secret : string)
    (f : SignTransactionFunc) (r : Request) : HandlerRun SignTransactionRequest :=
  match SignTransactionHandler secret r with
  | Respond status message => mkRun [] [HttpError message status]
  | Proceed v =>
      match Body r with
      | inr body => dispatchSignTransaction env f r body v
      | inl _ => mkRun [] [HttpError "failed to ready body" StatusBadRequest]
      end
  end.

End SignTransaction.

(** *** What a callback did, and what the handlers answered *)

(** The method calls a callback makes on the response, in order; for
    [IsRejected], with the answer it got. *)
Inductive MethodCall :=
| SignCall (priv : PrivateKey)
| RejectCall
| IsRejectedCall (answer : bool)
| MarkCall (reason : InvoiceErrorReason) (idx : Z).

Definition rejecting (c : MethodCall) : bool :=
  match c with
  | RejectCall | MarkCall _ _ => true
  | SignCall _ | IsRejectedCall _ => false
  end.

Definition signing (c : MethodCall) : bool :=
  match c with
  | SignCall _ => true
  | _ => false
  end.

(** The invoice errors a sequence of calls asks for. *)
Definition marksOf (calls : list MethodCall) : list SignInvoiceError :=
  omap (λ c, match c with
             | MarkCall reason idx => Some (to_uint32 idx, reason)
             | _ => None
             end) calls.

Section SignTransactionSpecs.
Context `{Externals} `{WebhookExternals} `{SignExternals}.

Fixpoint callsOf (cb : Callback) (r : SignTransactionResponse) : list MethodCall :=
  match cb with
  | Return _ => []
  | CallSign priv next =>
      let '(err, r') := Sign priv r in SignCall priv :: callsOf (next err) r'
  | CallReject next => RejectCall :: callsOf next (Reject r)
  | CallIsRejected next =>
      IsRejectedCall (IsRejected r) :: callsOf (next (IsRejected r)) r
  | CallMarkAlreadyPaid idx next =>
      MarkCall ReasonAlreadyPaid idx :: callsOf next (MarkAlreadyPaid idx r)
  | CallMarkWrongDestination idx next =>
      MarkCall ReasonWrongDestination idx :: callsOf next (MarkWrongDestination idx r)
  | CallMarkSKUNotFound idx next =>
      MarkCall ReasonSkuNotFound idx :: callsOf next (MarkSKUNotFound idx r)
  end.

(** The response a handler hands to its callback for a request. *)
Definition freshResponse (env : Environment) (req : SignTransactionRequest)
    : SignTransactionResponse :=
  mkResponse (handlerNetwork env) (ReqEnvelope req) false [].

(** The request is the one the handler builds from [r], for the ledger
    version [v]. *)
Definition requestOf (env : Environment) (r : Request) (body : bytes) (v : Z)
    (req : SignTransactionRequest) : Prop :=
  UserID req = header_Get AppUserIDHeader (Header r) ∧
  UserPasskey req = header_Get AppUserPasskeyHeader (Header r) ∧
  req_network req = handlerNetwork env ∧
  ∃ invoiceList,
    (if bool_decide (0 < length (json_InvoiceList body))%nat
     then ∃ il, proto_Unmarshal (json_InvoiceList body) = inr il ∧ invoiceList = Some il
     else invoiceList = None) ∧
    if bool_decide (v = 4)
    then ∃ tx, solana_Unmarshal (json_SolanaTransaction body) = inr tx ∧
               SolanaTransaction req = Some tx ∧ ReqEnvelope req = None ∧
               parsePaymentsFromTransaction tx invoiceList = inr (Payments req)
    else ∃ e, xdr_UnmarshalBinary (json_EnvelopeXDR body) = inr e ∧
              ReqEnvelope req = Some e ∧ SolanaTransaction req = None ∧
              parsePaymentsFromEnvelope e TransactionTypeSpend invoiceList v =
                inr (Payments req).

(** The calls that end a response: the body, and [http.Error] when the
    encoder failed. *)
Definition encodes (body : ResponseBody) (ops : list WriterOp) : Prop :=
  ops = [Encode body] ∨
  ops = [Encode body; HttpError "failed to encode response" StatusInternalServerError].

Definition contentType : WriterOp := SetHeader "Content-Type" "application/json".

End SignTransactionSpecs.

(** Stand-ins for the decoders of the webhooks: an event is a byte of the
    body; every sign request carries [plainEnvelope] and [plainTx] and no
    invoice list. *)
#[global] Instance scriptedEvents : EventsExternals := {|
  WebhookEvent := Byte.byte;
  json_Events body := inr body;
|}.

#[global] Instance scriptedSign : SignExternals := {|
  ReadOnlyPayment := Payment;
  json_EnvelopeXDR body := body;
  json_SolanaTransaction body := body;
  json_InvoiceList _ := [];
  proto_Unmarshal _ := inr [];
  solana_Unmarshal _ := inr plainTx;
  xdr_UnmarshalBinary _ := inr plainEnvelope;
  parsePaymentsFromTransaction _ _ := inr [];
  parsePaymentsFromEnvelope _ _ _ _ := inr [];
  HashTransaction e _ := ([x00], None);
  solana_Signature _ := [x01];
  err_Error _ := "error";
  encode_error _ := None;
  failedEnvelope _ _ _ := None;
|}.

(** A Kin 4 request, and two callbacks: one signs, one marks the first
    payment as paid and then signs. *)
Definition version4Request : Request :=
  {| Method := "POST"; Header := [(AppUserIDHeader, "user")]; Body := inr [x04] |}.

Definition signingCallback : SignTransactionFunc :=
  λ _, CallSign alice (λ err, Return err).

Definition markingCallback : SignTransactionFunc :=
  λ _, CallMarkAlreadyPaid 0 (CallSign alice (λ err, Return err)).

(** A batch of two earns, for bob and for carol, on a service that finds
    an account absent on the first submission: the sender has no token
    account, bob has two, carol has none. *)
Definition carol : PublicKey := [x0c].
Definition daveToken : PublicKey := [x1d].

Definition earnCarol : Earn := {| EDestination := carol; EQuarks := 2; EInvoice := None |}.

Definition bobOfTwoScript : Script :=
  {| clock := 0; accountInfos := []; stellarSubmits := []; configs := [];
     solanaSubmits := [(resultWith (Some ErrAccountDoesNotExist), None)];
     tokenAccounts := [inr []; inr []; inr []; inr [bobToken; daveToken];
                       inr []; inr []; inr []] |}.

(** * Properties *)

Local Open Scope list_scope.
Local Open Scope Z_scope.

(** ** The retry loop *)

Section RetryFacts.
Context {St : Type} (action : St → error * St).

Lemma Loop_fuel_mono fuel k i ss st r :
  Loop fuel i action ss st = Some r → Loop (fuel + k) i action ss st = Some r.
Proof.
  revert i st. induction fuel as [|fuel IH]; intros i st; simpl; [done|].
  destruct (action st) as [[e|] st']; [|done].
  destruct (forallb _ ss); [apply IH|done].
Qed.

(** With a [Limit] among the strategies the loop ends: from attempt [i]
    on, fuel for the attempts the limit still allows is enough. *)
Lemma Loop_limit_total n ss fuel i st :
  Limit n ∈ ss → (1 ≤ fuel)%nat → (n + 1 - i ≤ fuel)%nat →
  is_Some (Loop fuel i action ss st).
Proof.
  intros Hin. revert i st. induction fuel as [|fuel IH]; intros i st Hpos Hfuel; [lia|].
  simpl. destruct (action st) as [[e|] st']; [|by eexists].
  destruct (forallb _ ss) eqn:Hall; [|by eexists].
  assert (i < n)%nat as Hlt.
  { rewrite forallb_forall in Hall. apply list_elem_of_In, Hall in Hin.
    simpl in Hin. by apply bool_decide_eq_true in Hin. }
  apply IH; lia.
Qed.

Lemma attempts_bound_limit ss b :
  attempts_bound ss = Some b → ∃ n, Limit n ∈ ss ∧ b = Nat.max 1 n.
Proof.
  revert b. induction ss as [|[n|es] ss IH]; intros b; simpl; [done| |].
  - destruct (attempts_bound ss) as [m|] eqn:Hm.
    + intros [= <-]. destruct (IH m eq_refl) as (n' & Hin & ->).
      destruct (decide (Nat.max 1 n ≤ Nat.max 1 n')%nat).
      * exists n. split; [left|lia].
      * exists n'. split; [by right|lia].
    + intros [= <-]. exists n. split; [left|done].
  - intros Hb. destruct (IH b Hb) as (n & Hin & ->). exists n. split; [by right|done].
Qed.

(** Enough fuel gives the result: [Retry] is the loop, for every amount
    of fuel from the bound on. *)
Lemma Loop_fuel_enough ss b k st :
  attempts_bound ss = Some b →
  Loop (b + k) 1 action ss st = Some (Retry action ss st).
Proof.
  intros Hb. unfold Retry. rewrite Hb.
  destruct (attempts_bound_limit ss b Hb) as (n & Hin & ->).
  destruct (Loop_limit_total n ss (Nat.max 1 n) 1 st Hin) as [r Hr]; [lia..|].
  rewrite Hr. simpl. by apply Loop_fuel_mono.
Qed.

Lemma Retry_Loop ss b st :
  attempts_bound ss = Some b → Loop b 1 action ss st = Some (Retry action ss st).
Proof. intros Hb. rewrite <- (Loop_fuel_enough ss b 0 st Hb). f_equal. lia. Qed.

(** A relation that every run of the action respects, and that is
    reflexive and transitive, holds across the loop. *)
Lemma Loop_rel (Rel : St → St → Prop) `{!PreOrder Rel} fuel i ss st r st' :
  (∀ st0, Rel st0 (action st0).2) →
  Loop fuel i action ss st = Some (r, st') → Rel st st'.
Proof.
  intros Hstep. revert i st. induction fuel as [|fuel IH]; intros i st; simpl; [done|].
  specialize (Hstep st). destruct (action st) as [[e|] st1]; simpl in Hstep.
  - destruct (forallb _ ss).
    + intros Hl. etrans; [done|]. by eapply IH.
    + by intros [= _ <-].
  - by intros [= _ <-].
Qed.

Lemma Retry_rel (Rel : St → St → Prop) `{!PreOrder Rel} ss b st :
  attempts_bound ss = Some b →
  (∀ st0, Rel st0 (action st0).2) →
  Rel st (Retry action ss st).2.
Proof.
  intros Hb Hstep. pose proof (Retry_Loop ss b st Hb) as Hl.
  destruct (Retry action ss st) as [r st']. by eapply Loop_rel.
Qed.

(** The loop ends with a run of the action: its error and its state are
    those of the last attempt, which started from a state the earlier
    attempts led to. *)
Lemma Loop_last (Rel : St → St → Prop) `{!PreOrder Rel} fuel i ss st j err st' :
  (∀ st0, Rel st0 (action st0).2) →
  Loop fuel i action ss st = Some ((j, err), st') →
  ∃ st0, Rel st st0 ∧ action st0 = (err, st').
Proof.
  intros Hstep. revert i st. induction fuel as [|fuel IH]; intros i st; simpl; [done|].
  pose proof (Hstep st) as Hst. destruct (action st) as [[e|] st1] eqn:Ha; simpl in Hst.
  - destruct (forallb _ ss).
    + intros Hl. destruct (IH _ _ Hl) as (st0 & Hrel & Hact).
      exists st0. split; [by etrans|done].
    + intros [= _ <- <-]. by exists st.
  - intros [= _ <- <-]. by exists st.
Qed.

Lemma Retry_last (Rel : St → St → Prop) `{!PreOrder Rel} ss b st j err st' :
  attempts_bound ss = Some b →
  (∀ st0, Rel st0 (action st0).2) →
  Retry action ss st = ((j, err), st') →
  ∃ st0, Rel st st0 ∧ action st0 = (err, st').
Proof.
  intros Hb Hstep Hr. pose proof (Retry_Loop ss b st Hb) as Hl. rewrite Hr in Hl.
  by eapply Loop_last.
Qed.

End RetryFacts.

(** ** The cache *)

Lemma assoc_find_without k l : assoc_find k (filter (λ kv, kv.1 ≠ k) l) = None.
Proof.
  induction l as [|[k' e] l IH]; [done|]. rewrite filter_cons. simpl.
  destruct (decide (k' ≠ k)) as [Hne|Heq]; [|done].
  simpl. by destruct (decide (k' = k)).
Qed.


Lemma cache_find_Get k c :
  (cache_Get k c).1 = cache_find k c ∧
  cache_find k (cache_Get k c).2 = cache_find k c ∧
  size (cache_Get k c).2 = size c.
Proof.
  unfold cache_Get. destruct (cache_find k c) as [e|] eqn:Hf; [|done].
  simpl. split_and!; try done. unfold cache_find. simpl. by rewrite decide_True.
Qed.

Lemma cache_find_Remove k c : cache_find k (cache_Remove k c) = None.
Proof. apply assoc_find_without. Qed.

Lemma cache_find_Add k e c :
  (0 < size c)%nat → cache_find k (cache_Add k e c) = Some e.
Proof.
  intros Hsize. unfold cache_Add, cache_find. simpl.
  destruct (bool_decide _).
  - destruct (size c) as [|n]; [lia|]. simpl. by rewrite decide_True.
  - simpl. by rewrite decide_True.
Qed.





Lemma saturate64_lt_fiveMinutes d : saturate64 d < fiveMinutes ↔ d < fiveMinutes.
Proof. unfold saturate64, fiveMinutes. lia. Qed.

(** ** Frame facts: what the pieces of the client leave alone *)

#[global] Instance keeps_preorder {St A : Type} (f : St → A) : PreOrder (keeps f).
Proof.
  split; [by intros st|]. intros x y z Hxy Hyz. unfold keeps in *. congruence.
Qed.

Section Frame.
Context `{Externals} {R : Type} `{Service R}.
Implicit Types (w : World R) (c : clientOpts).

Lemma step_remote_log s e w : log (step_remote s e w) = log w ++ [e].
Proof. done. Qed.


Lemma step_remote_quiet s e w :
  isRemote e = true → quietView (step_remote s e w) = quietView w.
Proof.
  intros He. unfold quietView, submittedTxs, submittedEnvelopes. simpl.
  rewrite !omap_app. simpl. destruct e; try done; by rewrite !app_nil_r.
Qed.

Lemma quietView_inv w w' :
  quietView w' = quietView w →
  clientView w' = clientView w ∧ accountCache w' = accountCache w ∧
  submittedTxs (log w') = submittedTxs (log w) ∧
  submittedEnvelopes (log w') = submittedEnvelopes (log w).
Proof.
  unfold quietView. intros Heq. split_and!.
  - by apply (f_equal (λ x, x.1.1.1)) in Heq.
  - by apply (f_equal (λ x, x.1.1.2)) in Heq.
  - by apply (f_equal (λ x, x.1.2)) in Heq.
  - by apply (f_equal (λ x, x.2)) in Heq.
Qed.

Lemma xdr_attempt_keeps c signers envelope il sequence st :
  keeps (λ st, quietView st.1) st (xdr_attempt c signers envelope il sequence st).2.
Proof.
  unfold keeps, xdr_attempt, rpc_SubmitStellarTransaction.
  destruct st as [w [off res]]. simpl.
  destruct (signedEnvelopeBytes _ _ _) as [e|b]; [done|].
  destruct (SubmitStellarTransaction _ _ _ _) as [[res' [e|]] s]; simpl.
  - by apply step_remote_quiet.
  - destruct (err_is _ _); simpl; by apply step_remote_quiet.
Qed.

Lemma tx_attempt_keeps signers cm il dedupeId st :
  keeps (λ st, quietView st.1) st (tx_attempt signers cm il dedupeId st).2.
Proof.
  unfold keeps, tx_attempt, rpc_GetRecentBlockhash, rpc_SubmitSolanaTransaction.
  destruct st as [w [tx res]]. simpl.
  destruct (GetRecentBlockhash (remote w)) as [[e|bh] s]; simpl.
  - by apply step_remote_quiet.
  - destruct (solana_Sign _ _) as [e|sigs]; simpl; [by apply step_remote_quiet|].
    destruct (SubmitSolanaTransaction _ _ _ _ _) as [[res' [e|]] s']; simpl.
    + rewrite step_remote_quiet by done. by apply step_remote_quiet.
    + destruct (err_is _ _); simpl; rewrite step_remote_quiet by done;
        by apply step_remote_quiet.
Qed.

(** *** Token-account resolution *)


#[local] Instance queried_preorder account : PreOrder (queried (R := R) account).
Proof.
  split.
  - intros w. split; [done|]. exists []. by rewrite app_nil_r.
  - intros w1 w2 w3 [Hq1 (e1 & Hl1 & Hf1)] [Hq2 (e2 & Hl2 & Hf2)]. split; [congruence|].
    exists (e1 ++ e2). rewrite Hl2, Hl1, app_assoc. split; [done|]. by apply Forall_app.
Qed.


#[local] Instance queriedSt_preorder account : PreOrder (queriedSt (R := R) account).
Proof.
  split; [intros st; apply (reflexivity (R := queried (R := R) account))|].
  intros x y z. apply (transitivity (R := queried (R := R) account)).
Qed.

Lemma resolve_action_spec account w a :
  ∃ r s, ResolveTokenAccounts account (remote w) = (r, s) ∧
    resolve_action account (w, a) =
      (match r with
       | inl e => Some e
       | inr accts => if bool_decide (length accts = 0%nat)
                      then Some errNoTokenAccounts else None
       end,
       (step_remote s (EvResolveTokenAccounts account r) w,
        match r with inl _ => [] | inr accts => accts end)).
Proof.
  unfold resolve_action, rpc_ResolveTokenAccounts. simpl.
  destruct (ResolveTokenAccounts account (remote w)) as [[e|accts] s]; simpl.
  - by exists (inl e), s.
  - exists (inr accts), s. split; [done|]. by destruct (bool_decide _).
Qed.

Lemma resolve_action_queried account st :
  queriedSt account st (resolve_action account st).2.
Proof.
  destruct st as [w a]. destruct (resolve_action_spec account w a) as (r & s & _ & ->).
  split; simpl; [by apply step_remote_quiet|].
  exists [EvResolveTokenAccounts account r]. split; [done|].
  apply Forall_singleton. by exists r.
Qed.


(** A fetch asks the service at least once; what it returns is the last
    answer, always with a nil error; the cache gets the answer when it is
    not empty and is left alone otherwise. *)
Lemma fetchTokenAccounts_spec c account w accts err w' :
  fetchTokenAccounts c account w = ((accts, err), w') →
  err = None ∧
  clientView w' = clientView w ∧
  submittedTxs (log w') = submittedTxs (log w) ∧
  submittedEnvelopes (log w') = submittedEnvelopes (log w) ∧
  ∃ evs r,
    log w' = log w ++ evs ++ [EvResolveTokenAccounts account r] ∧
    Forall (λ e, ∃ r0, e = EvResolveTokenAccounts account r0) evs ∧
    accts = answered r ∧
    accountCache w' =
      (if bool_decide (length accts = 0%nat) then accountCache w
       else cache_Add (Base58 account)
              {| created := Now (remote w'); accounts := accts |} (accountCache w)).
Proof.
  unfold fetchTokenAccounts.
  destruct (Retry _ _ _) as [[j e] [w1 a1]] eqn:Hretry.
  destruct (Retry_last (resolve_action account) (queriedSt account)
              [Limit (maxRetries c); RetriableErrors [errNoTokenAccounts]]
              (Nat.max 1 (maxRetries c)) (w, []) j e (w1, a1)
              eq_refl (resolve_action_queried account) Hretry)
    as ([w0 a0] & [Hq0 (evs & Hlog0 & Hall)] & Hact). simpl in *.
  destruct (resolve_action_spec account w0 a0) as (r & s & _ & Hact').
  rewrite Hact' in Hact. injection Hact as _ Hw1 Ha1.
  assert (quietView w1 = quietView w) as Hq1.
  { rewrite <- Hw1, step_remote_quiet by done. done. }
  assert (log w1 = log w ++ evs ++ [EvResolveTokenAccounts account r]) as Hlog1.
  { rewrite <- Hw1, step_remote_log, Hlog0. by rewrite app_assoc. }
  destruct (quietView_inv _ _ Hq1) as (Hcv & Hcache & Htx & Hxdr).
  destruct (bool_decide (length a1 = 0%nat)) eqn:Hlen.
  - intros [= <- <- <-]. split_and!; try done.
    exists evs, r. split_and!; try done.
    apply bool_decide_eq_true, nil_length_inv in Hlen. unfold answered. congruence.
  - intros [= <- <- <-]. split_and!; try done.
    exists evs, r. rewrite Hlen. split_and!; try done.
    simpl. by rewrite Hcache.
Qed.

Lemma set_accountCache_same w : set_accountCache (accountCache w) w = w.
Proof. by destruct w. Qed.

(** The three ways through [resolveTokenAccounts]: a fresh entry, a stale
    one, none. *)
Lemma resolveTokenAccounts_unfold c account w :
  resolveTokenAccounts c account w =
    match cache_find (Base58 account) (accountCache w) with
    | Some entry =>
        if bool_decide (Now (remote w) - created entry < fiveMinutes)
        then ((accounts entry, None),
              set_accountCache (cache_Get (Base58 account) (accountCache w)).2 w)
        else fetchTokenAccounts c account
               (set_accountCache
                  (cache_Remove (Base58 account)
                     (cache_Get (Base58 account) (accountCache w)).2) w)
    | None => fetchTokenAccounts c account w
    end.
Proof.
  unfold resolveTokenAccounts, cache_Get.
  destruct (cache_find (Base58 account) (accountCache w)) as [entry|] eqn:Hf; simpl.
  - unfold time_Since. simpl.
    destruct (bool_decide (Now (remote w) - created entry < fiveMinutes)) eqn:Hfresh.
    + rewrite bool_decide_eq_true_2; [done|].
      apply saturate64_lt_fiveMinutes. by apply bool_decide_eq_true in Hfresh.
    + rewrite bool_decide_eq_false_2; [done|].
      rewrite saturate64_lt_fiveMinutes. by apply bool_decide_eq_false in Hfresh.
  - by rewrite set_accountCache_same.
Qed.

(** Resolution never fails, and touches neither the client's fields, nor
    the caller's memory, nor the call marks. *)
Lemma resolveTokenAccounts_frame c account w accts err w' :
  resolveTokenAccounts c account w = ((accts, err), w') →
  err = None ∧ clientView w' = clientView w ∧
  submittedTxs (log w') = submittedTxs (log w) ∧
  submittedEnvelopes (log w') = submittedEnvelopes (log w).
Proof.
  rewrite resolveTokenAccounts_unfold.
  destruct (cache_find _ _) as [entry|].
  - destruct (bool_decide _).
    + by intros [= <- <- <-].
    + intros Hf. apply fetchTokenAccounts_spec in Hf as (? & ? & ? & ? & _). done.
  - intros Hf. apply fetchTokenAccounts_spec in Hf as (? & ? & ? & ? & _). done.
Qed.

Lemma nonceStrategies_bound c :
  attempts_bound (nonceStrategies c) = Some (Nat.max 1 (maxSequenceRetries c)).
Proof. done. Qed.

End Frame.

(** ** Token-account resolution: the cache and the error value *)

Section Resolution.
Context `{Externals} {R : Type} `{Service R}.
Implicit Types (w : World R) (c : clientOpts).

(** C7.  A cache entry created at time T is returned as it is, without a
    call to the service, by every lookup less than five minutes after T.
    A lookup at five minutes or more after T asks the service (at least
    one query for the account is logged) and returns the service's last
    answer; the old entry is gone from the cache, which afterwards holds
    the new answer, stamped with the current time, or nothing when the
    answer is empty. *)
Theorem resolveTokenAccounts_ttl c account w entry :
  cache_find (Base58 account) (accountCache w) = Some entry →
  (0 < size (accountCache w))%nat →
  (Now (remote w) - created entry < fiveMinutes →
     ∃ w', resolveTokenAccounts c account w = ((accounts entry, None), w') ∧
           log w' = log w ∧ remote w' = remote w ∧
           cache_find (Base58 account) (accountCache w') = Some entry) ∧
  (fiveMinutes ≤ Now (remote w) - created entry →
     ∃ accts w' evs r,
       resolveTokenAccounts c account w = ((accts, None), w') ∧
       log w' = log w ++ evs ++ [EvResolveTokenAccounts account r] ∧
       Forall (λ e, ∃ r0, e = EvResolveTokenAccounts account r0) evs ∧
       accts = answered r ∧
       cache_find (Base58 account) (accountCache w') =
         (if bool_decide (length accts = 0%nat) then None
          else Some {| created := Now (remote w'); accounts := accts |})).
Proof.
  intros Hfind Hsize. rewrite resolveTokenAccounts_unfold, Hfind.
  destruct (cache_find_Get (Base58 account) (accountCache w)) as (_ & Hget & Hsz).
  split.
  - intros Hfresh. rewrite bool_decide_eq_true_2 by done.
    eexists. split; [done|]. simpl. rewrite Hget. done.
  - intros Hstale. rewrite bool_decide_eq_false_2 by lia.
    destruct (fetchTokenAccounts c account _) as [[accts err] w'] eqn:Hfetch.
    apply fetchTokenAccounts_spec in Hfetch
      as (-> & _ & _ & _ & evs & r & Hlog & Hall & Haccts & Hcache).
    exists accts, w', evs, r. split_and!; try done.
    rewrite Hcache. simpl. destruct (bool_decide (length accts = 0%nat)).
    + apply cache_find_Remove.
    + apply cache_find_Add. simpl. by rewrite Hsz.
Qed.


End Resolution.

(** ** The nonce retry loops *)

Section RetryTrace.
Context {L X Y : Type}.
Context (attempt : L → list Event → error → L → Prop).
Context (obs : list Event → list X) (errOf : X → error).
Context (valOf : L → Y) (resOf : X → Y).
Hypothesis obs_app : ∀ a b, obs (a ++ b) = obs a ++ obs b.
Hypothesis attempt_obs :
  ∀ l evs err l', attempt l evs err l' →
    obs evs = [] ∨ ∃ x, obs evs = [x] ∧ err = errOf x ∧ valOf l' = resOf x.

(** Submissions seen in a trace of the retry policy: there are at most as
    many as the limit allows attempts (one, when the limit is below one);
    each but the last ended with [ErrBadNonce]; and when there are as
    many as can be, the loop's error and result are those of the last. *)
Lemma retryTrace_submissions n i l evs err l' :
  retryTrace attempt n i l evs err l' →
  (length (obs evs) ≤ Nat.max 1 (n + 1 - i))%nat ∧
  (∀ k x, obs evs !! k = Some x → (S k < length (obs evs))%nat →
          errOf x = Some ErrBadNonce) ∧
  (length (obs evs) = Nat.max 1 (n + 1 - i) →
   ∃ x, last (obs evs) = Some x ∧ err = errOf x ∧ valOf l' = resOf x).
Proof.
  induction 1 as [i l evs err l' Hatt Hstop
                 |i l evs1 l1 evs err l' Hatt Hlt Hrest (IHlen & IHmid & IHlast)].
  - destruct (attempt_obs _ _ _ _ Hatt) as [->|(x & -> & -> & Hval)]; simpl.
    + split_and!; [lia|done|lia].
    + split_and!; [lia| |].
      * intros k y _ Hk. lia.
      * intros _. by exists x.
  - rewrite obs_app, length_app.
    destruct (attempt_obs _ _ _ _ Hatt) as [->|(x & -> & Herr & Hval)]; simpl.
    + split_and!; [lia|done|]. intros Hlen. apply IHlast. lia.
    + split_and!; [lia| |].
      * intros [|k] y; simpl.
        -- by intros [= <-] _.
        -- intros Hy Hk. apply (IHmid k y Hy). lia.
      * intros Hlen. destruct IHlast as (y & Hy & Herr' & Hval'); [lia|].
        exists y. split_and!; [|done..].
        destruct (obs evs); [done|]. by rewrite last_cons, Hy.
Qed.

End RetryTrace.

(** Events of a kind no attempt produces are not in the trace. *)
Lemma retryTrace_silent {L X : Type} (attempt : L → list Event → error → L → Prop)
    (obs : list Event → list X) n i l evs err l' :
  (∀ a b, obs (a ++ b) = obs a ++ obs b) →
  (∀ l0 evs0 err0 l1, attempt l0 evs0 err0 l1 → obs evs0 = []) →
  retryTrace attempt n i l evs err l' → obs evs = [].
Proof.
  intros Happ Hatt. induction 1 as [i l evs err l' Ha _|i l evs1 l1 evs err l' Ha _ _ IH].
  - by eapply Hatt.
  - rewrite Happ, IH. by erewrite Hatt.
Qed.

Lemma wrap64_add_wrap64 a b c : wrap64 (a + wrap64 b + c) = wrap64 (a + b + c).
Proof.
  unfold wrap64. f_equal.
  replace (a + ((b + 2 ^ 63) `mod` 2 ^ 64 - 2 ^ 63) + c + 2 ^ 63)
    with ((b + 2 ^ 63) `mod` 2 ^ 64 + (a + c)) by lia.
  rewrite Zplus_mod_idemp_l. f_equal. lia.
Qed.

Section Loops.
Context `{Externals} {R : Type} `{Service R}.
Implicit Types (w : World R) (c : clientOpts).

Lemma nonceStrategies_ok c i e :
  forallb (λ s, strategy_ok s i e) (nonceStrategies c) =
  bool_decide (i < maxSequenceRetries c)%nat && bool_decide (e = ErrBadNonce).
Proof.
  simpl. rewrite andb_true_r. f_equal. apply bool_decide_ext.
  rewrite list_elem_of_singleton. done.
Qed.

(** A loop whose action runs one attempt of [attempt] leaves a trace of
    the retry policy. *)
Lemma Loop_retryTrace {L : Type} (attempt : L → list Event → error → L → Prop)
    (action : World R * L → error * (World R * L)) c fuel i w l j err w' l' :
  (∀ w0 l0, ∃ evs, log (action (w0, l0)).2.1 = log w0 ++ evs ∧
                   attempt l0 evs (action (w0, l0)).1 (action (w0, l0)).2.2) →
  Loop fuel i action (nonceStrategies c) (w, l) = Some ((j, err), (w', l')) →
  ∃ evs, log w' = log w ++ evs ∧
         retryTrace attempt (maxSequenceRetries c) i l evs err l'.
Proof.
  intros Hact. revert i w l. induction fuel as [|fuel IH]; intros i w l; [done|].
  cbn [Loop]. destruct (Hact w l) as (evs1 & Hlog1 & Hatt).
  destruct (action (w, l)) as [[e|] [w1 l1]]; simpl in Hlog1, Hatt.
  - rewrite nonceStrategies_ok.
    destruct (bool_decide (i < maxSequenceRetries c)%nat) eqn:Hlt; simpl.
    + destruct (bool_decide (e = ErrBadNonce)) eqn:He.
      * apply bool_decide_eq_true in Hlt, He. subst e. intros Hloop.
        destruct (IH _ _ _ Hloop) as (evs & Hlog & Htrace).
        exists (evs1 ++ evs). rewrite Hlog, Hlog1, app_assoc. split; [done|].
        by eapply retry_again.
      * apply bool_decide_eq_false in He. intros [= <- <- <- <-].
        exists evs1. split; [done|]. apply retry_stop; [done|]. left. congruence.
    + apply bool_decide_eq_false in Hlt. intros [= <- <- <- <-].
      exists evs1. split; [done|]. apply retry_stop; [done|]. by right.
  - intros [= <- <- <- <-]. exists evs1. split; [done|].
    apply retry_stop; [done|]. by left.
Qed.

Lemma xdr_attempt_attempt c signers envelope il sequence w st :
  ∃ evs,
    log (xdr_attempt c signers envelope il sequence (w, st)).2.1 = log w ++ evs ∧
    xdrAttempt c signers envelope il sequence st evs
      (xdr_attempt c signers envelope il sequence (w, st)).1
      (xdr_attempt c signers envelope il sequence (w, st)).2.2.
Proof.
  destruct st as [off res]. unfold xdr_attempt, rpc_SubmitStellarTransaction.
  destruct (signedEnvelopeBytes _ _ _) as [e|b] eqn:Hsigned; simpl.
  - exists []. rewrite app_nil_r. split; [done|]. by apply xdr_unsigned.
  - destruct (SubmitStellarTransaction _ _ _ _) as [resp s].
    exists [EvSubmitStellarTransaction b il resp].
    pose proof (xdr_submitted c signers envelope il sequence off res b resp Hsigned)
      as Hatt.
    unfold attemptError, nextOffset in Hatt.
    destruct resp as [res' [e|]]; simpl in *; [done|].
    by destruct (err_is _ _).
Qed.

Lemma tx_attempt_attempt signers cm il dedupeId w st :
  ∃ evs,
    log (tx_attempt signers cm il dedupeId (w, st)).2.1 = log w ++ evs ∧
    txAttempt signers cm il dedupeId st evs
      (tx_attempt signers cm il dedupeId (w, st)).1
      (tx_attempt signers cm il dedupeId (w, st)).2.2.
Proof.
  destruct st as [tx res].
  unfold tx_attempt, rpc_GetRecentBlockhash, rpc_SubmitSolanaTransaction.
  destruct (GetRecentBlockhash (remote w)) as [[e|bh] s]; simpl.
  - exists [EvGetRecentBlockhash (inl e)]. split; [done|]. apply tx_no_blockhash.
  - destruct (solana_Sign _ _) as [e|sigs] eqn:Hsign; simpl.
    + exists [EvGetRecentBlockhash (inr bh)]. split; [done|]. by apply tx_unsigned.
    + destruct (SubmitSolanaTransaction _ _ _ _ _) as [resp s'].
      eexists [_; _].
      pose proof (tx_submitted signers cm il dedupeId tx res bh sigs resp Hsign) as Hatt.
      unfold attemptError in Hatt.
      destruct resp as [res' [e|]]; simpl in *.
      * split; [by rewrite <- app_assoc|done].
      * destruct (err_is _ _); simpl; (split; [by rewrite <- app_assoc|done]).
Qed.

Lemma stellarSubmissions_app a b :
  stellarSubmissions (a ++ b) = stellarSubmissions a ++ stellarSubmissions b.
Proof. apply omap_app. Qed.

Lemma solanaSubmissions_app a b :
  solanaSubmissions (a ++ b) = solanaSubmissions a ++ solanaSubmissions b.
Proof. apply omap_app. Qed.

Lemma xdrAttempt_obs c signers envelope il sequence l evs err l' :
  xdrAttempt c signers envelope il sequence l evs err l' →
  stellarSubmissions evs = [] ∨
  ∃ x, stellarSubmissions evs = [x] ∧ err = attemptError x.2 ∧ l'.2 = x.2.1.
Proof. destruct 1; [by left|right]. by eexists (_, _). Qed.

Lemma txAttempt_obs signers cm il dedupeId l evs err l' :
  txAttempt signers cm il dedupeId l evs err l' →
  solanaSubmissions evs = [] ∨
  ∃ x, solanaSubmissions evs = [x] ∧ err = attemptError x.2 ∧ l'.2 = x.2.1.
Proof. destruct 1; [by left|by left|right]. by eexists (_, _). Qed.

(** Attempt [k] of the legacy loop carries the sequence number
    [sequence + offset + k], as long as the responses before it were
    results (no error of the call itself). *)
Lemma xdr_sequence_numbers c signers envelope il sequence n i l evs err l' :
  retryTrace (xdrAttempt c signers envelope il sequence) n i l evs err l' →
  ∀ k b resp,
    stellarSubmissions evs !! k = Some (b, resp) →
    Forall (λ x, x.2.2 = None) (take k (stellarSubmissions evs)) →
    signedEnvelopeBytes c signers
      (set_SeqNum (wrap64 (sequence + l.1 + Z.of_nat k)) envelope) = inr b.
Proof.
  induction 1 as [i l evs err l' Hatt _|i l evs1 l1 evs err l' Hatt Hlt Hrest IH].
  - destruct Hatt as [off res e Hs|off res b0 resp0 Hs]; simpl; [done|].
    intros [|k] b resp; simpl; [|done]. intros [= <- <-] _.
    by rewrite Z.add_0_r.
  - rewrite stellarSubmissions_app. inversion Hatt as [off res e Hs|off res b0 resp0 Hs Hl Hev Herr Hl1];
      subst; simpl in *.
    + apply IH.
    + intros [|k] b resp; simpl.
      * intros [= <- <-] _.
        by replace (sequence + off + Z.of_nat 0) with (sequence + off) by lia.
      * intros Hk Hall. apply Forall_cons in Hall as [Hnone Hall].
        destruct resp0 as [res0 e0]. simpl in Hnone. subst e0.
        specialize (IH k b resp Hk Hall).
        unfold attemptError, nextOffset in *. simpl in *.
        destruct (err_is _ _); [|done].
        rewrite wrap64_add_wrap64 in IH. rewrite <- IH. do 3 f_equal. lia.
Qed.

Lemma emit_log e w : log (emit e w) = log w ++ [e].
Proof. done. Qed.

(** [signAndSubmitXDR]: the envelope is marked, the sequence number is
    fetched once, and the rest of the log is a trace of the retry policy
    over legacy attempts.  Nothing else of the world changes. *)
Lemma signAndSubmitXDR_spec c s0 rest envelope il w result err w' :
  signAndSubmitXDR c (s0 :: rest) envelope il w = ((result, err), w') →
  clientView w' = clientView w ∧ accountCache w' = accountCache w ∧
  submittedTxs (log w') = submittedTxs (log w) ∧
  submittedEnvelopes (log w') = submittedEnvelopes (log w) ++ [envelope] ∧
  ∃ info evs,
    log w' = log w ++ CallSignAndSubmitXDR (s0 :: rest) envelope il
                   :: EvGetStellarAccountInfo (Public s0) info :: evs ∧
    match info with
    | inl e => evs = [] ∧ result = zeroResult ∧ err = Some e
    | inr senderInfo =>
        ∃ off, retryTrace (xdrAttempt c (s0 :: rest) envelope il (SequenceNumber senderInfo))
                 (maxSequenceRetries c) 1 (1, zeroResult) evs err (off, result)
    end.
Proof.
  unfold signAndSubmitXDR, rpc_GetStellarAccountInfo. simpl.
  destruct (GetStellarAccountInfo _ _ _) as [info s].
  set (w1 := step_remote s (EvGetStellarAccountInfo (Public s0) info)
               (emit (CallSignAndSubmitXDR (s0 :: rest) envelope il) w)).
  assert (log w1 = log w ++ CallSignAndSubmitXDR (s0 :: rest) envelope il
                         :: EvGetStellarAccountInfo (Public s0) info :: []) as Hlog1.
  { unfold w1. rewrite step_remote_log, emit_log, <- app_assoc. done. }
  assert (clientView w1 = clientView w ∧ accountCache w1 = accountCache w ∧
          submittedTxs (log w1) = submittedTxs (log w) ∧
          submittedEnvelopes (log w1) = submittedEnvelopes (log w) ++ [envelope]) as Hfr1.
  { rewrite Hlog1. unfold submittedTxs, submittedEnvelopes. rewrite !omap_app. simpl.
    by rewrite app_nil_r. }
  destruct info as [e|senderInfo].
  - intros [= <- <- <-]. destruct Hfr1 as (? & ? & ? & ?). split_and!; try done.
    exists (inl e), []. done.
  - destruct (Retry _ _ _) as [[j err1] [w2 [off res]]] eqn:Hretry.
    intros [= <- <- <-].
    pose proof (Retry_rel _ (keeps (λ st : World R * (Z * SubmitTransactionResult),
                                     quietView st.1)) _ _ (w1, (1, zeroResult))
                  (nonceStrategies_bound c)
                  (xdr_attempt_keeps c (s0 :: rest) envelope il (SequenceNumber senderInfo)))
      as Hkeep.
    rewrite Hretry in Hkeep. unfold keeps in Hkeep. simpl in Hkeep.
    apply quietView_inv in Hkeep as (Hcv & Hcache & Htx & Hxdr).
    pose proof (Retry_Loop
                  (xdr_attempt c (s0 :: rest) envelope il (SequenceNumber senderInfo))
                  _ _ (w1, (1, zeroResult)) (nonceStrategies_bound c)) as Hloop.
    rewrite Hretry in Hloop.
    eapply (Loop_retryTrace (xdrAttempt c (s0 :: rest) envelope il
                               (SequenceNumber senderInfo))) in Hloop
      as (evs & Hlog & Htrace); [|intros; apply xdr_attempt_attempt].
    destruct Hfr1 as (? & ? & ? & ?). split_and!; try congruence.
    exists (inr senderInfo), evs. split; [|by exists off].
    rewrite Hlog, Hlog1, <- app_assoc. done.
Qed.

(** [signAndSubmitTx]: the transaction is marked, and the rest of the log
    is a trace of the retry policy over token-ledger attempts.  Nothing
    else of the world changes. *)
Lemma signAndSubmitTx_spec c signers tx cm il dedupeId w result err w' :
  signAndSubmitTx c signers tx cm il dedupeId w = ((result, err), w') →
  clientView w' = clientView w ∧ accountCache w' = accountCache w ∧
  submittedTxs (log w') = submittedTxs (log w) ++ [tx] ∧
  submittedEnvelopes (log w') = submittedEnvelopes (log w) ∧
  ∃ evs tx',
    log w' = log w ++ CallSignAndSubmitTx signers tx cm il dedupeId :: evs ∧
    retryTrace (txAttempt signers cm il dedupeId) (maxSequenceRetries c) 1
      (tx, zeroResult) evs err (tx', result).
Proof.
  unfold signAndSubmitTx.
  set (w1 := emit (CallSignAndSubmitTx signers tx cm il dedupeId) w).
  assert (clientView w1 = clientView w ∧ accountCache w1 = accountCache w ∧
          submittedTxs (log w1) = submittedTxs (log w) ++ [tx] ∧
          submittedEnvelopes (log w1) = submittedEnvelopes (log w)) as Hfr1.
  { unfold w1. rewrite emit_log. unfold submittedTxs, submittedEnvelopes.
    rewrite !omap_app. simpl. by rewrite app_nil_r. }
  destruct (Retry _ _ _) as [[j err1] [w2 [tx' res]]] eqn:Hretry.
  intros [= <- <- <-].
  pose proof (Retry_rel _ (keeps (λ st : World R * (SolanaTx * SubmitTransactionResult),
                                   quietView st.1)) _ _ (w1, (tx, zeroResult))
                (nonceStrategies_bound c) (tx_attempt_keeps signers cm il dedupeId))
    as Hkeep.
  rewrite Hretry in Hkeep. unfold keeps in Hkeep. simpl in Hkeep.
  apply quietView_inv in Hkeep as (Hcv & Hcache & Htx & Hxdr).
  pose proof (Retry_Loop (tx_attempt signers cm il dedupeId)
                _ _ (w1, (tx, zeroResult)) (nonceStrategies_bound c)) as Hloop.
  rewrite Hretry in Hloop.
  eapply (Loop_retryTrace (txAttempt signers cm il dedupeId)) in Hloop
    as (evs & Hlog & Htrace); [|intros; apply tx_attempt_attempt].
  destruct Hfr1 as (? & ? & ? & ?). split_and!; try congruence.
  exists evs, tx'. split; [|done].
  rewrite Hlog. unfold w1. by rewrite emit_log, <- app_assoc.
Qed.

End Loops.

(** ** The bound of the nonce retry loops *)

Section NonceRetry.
Context `{Externals} {R : Type} `{Service R}.
Implicit Types (w : World R) (c : clientOpts).

(** C4 (amended).  Both retry loops submit at most
    [max 1 maxSequenceRetries] times: the first attempt is made whatever
    the limit.  Every submission but the last got a bad-nonce outcome, so
    any other outcome ends the loop at once; and when as many submissions
    were made as the bound allows, the call returns the result of the
    last one with the error that outcome maps to ([ErrBadNonce] for a
    bad-nonce result).  On the legacy ledger the sequence number is
    fetched once, before the first attempt, and never again; attempt [k]
    (counting from 0) submits the envelope with sequence number
    [sequence + 1 + k], the offset starting at 1 and growing by one after
    each bad-nonce result. *)
Theorem nonce_retry_bounded c :
  (∀ s0 rest envelope il w result err w',
     signAndSubmitXDR c (s0 :: rest) envelope il w = ((result, err), w') →
     ∃ info evs,
       log w' = log w ++ CallSignAndSubmitXDR (s0 :: rest) envelope il
                      :: EvGetStellarAccountInfo (Public s0) info :: evs ∧
       accountInfoQueries evs = [] ∧
       match info with
       | inl e => evs = [] ∧ err = Some e
       | inr senderInfo =>
           let subs := stellarSubmissions evs in
           (∃ off, retryTrace
                     (xdrAttempt c (s0 :: rest) envelope il (SequenceNumber senderInfo))
                     (maxSequenceRetries c) 1 (1, zeroResult) evs err (off, result)) ∧
           (length subs ≤ Nat.max 1 (maxSequenceRetries c))%nat ∧
           (∀ k x, subs !! k = Some x → (S k < length subs)%nat →
                   attemptError x.2 = Some ErrBadNonce) ∧
           (length subs = Nat.max 1 (maxSequenceRetries c) →
            ∃ x, last subs = Some x ∧ err = attemptError x.2 ∧ result = x.2.1) ∧
           (∀ k b resp, subs !! k = Some (b, resp) →
                        Forall (λ x, x.2.2 = None) (take k subs) →
                        signedEnvelopeBytes c (s0 :: rest)
                          (set_SeqNum (wrap64 (SequenceNumber senderInfo + 1 + Z.of_nat k))
                                      envelope) = inr b)
       end) ∧
  (∀ signers tx cm il dedupeId w result err w',
     signAndSubmitTx c signers tx cm il dedupeId w = ((result, err), w') →
     ∃ evs,
       log w' = log w ++ CallSignAndSubmitTx signers tx cm il dedupeId :: evs ∧
       let subs := solanaSubmissions evs in
       (∃ tx', retryTrace (txAttempt signers cm il dedupeId) (maxSequenceRetries c) 1
                 (tx, zeroResult) evs err (tx', result)) ∧
       (length subs ≤ Nat.max 1 (maxSequenceRetries c))%nat ∧
       (∀ k x, subs !! k = Some x → (S k < length subs)%nat →
               attemptError x.2 = Some ErrBadNonce) ∧
       (length subs = Nat.max 1 (maxSequenceRetries c) →
        ∃ x, last subs = Some x ∧ err = attemptError x.2 ∧ result = x.2.1)).
Proof.
  split.
  - intros s0 rest envelope il w result err w' Hrun.
    apply signAndSubmitXDR_spec in Hrun as (_ & _ & _ & _ & info & evs & Hlog & Hinfo).
    exists info, evs. split; [done|]. destruct info as [e|senderInfo].
    + destruct Hinfo as (-> & _ & ->). done.
    + destruct Hinfo as (off & Htrace).
      pose proof (retryTrace_submissions _ stellarSubmissions (λ x, attemptError x.2)
                    snd (λ x, x.2.1) stellarSubmissions_app
                    (xdrAttempt_obs c (s0 :: rest) envelope il (SequenceNumber senderInfo))
                    _ _ _ _ _ _ Htrace) as (Hlen & Hmid & Hlast).
      replace (maxSequenceRetries c + 1 - 1)%nat with (maxSequenceRetries c) in * by lia.
      split.
      { eapply (retryTrace_silent _ accountInfoQueries); [apply omap_app| |done].
        by destruct 1. }
      cbv zeta. split_and!; [by exists off|done|done|done|].
      intros k b resp Hk Hall.
        pose proof (xdr_sequence_numbers _ _ _ _ _ _ _ _ _ _ _ Htrace k b resp Hk Hall)
          as Hseq.
        simpl in Hseq. done.
  - intros signers tx cm il dedupeId w result err w' Hrun.
    apply signAndSubmitTx_spec in Hrun as (_ & _ & _ & _ & evs & tx' & Hlog & Htrace).
    exists evs. split; [done|]. cbv zeta.
    pose proof (retryTrace_submissions _ solanaSubmissions (λ x, attemptError x.2)
                  snd (λ x, x.2.1) solanaSubmissions_app
                  (txAttempt_obs signers cm il dedupeId)
                  _ _ _ _ _ _ Htrace) as (Hlen & Hmid & Hlast).
    replace (maxSequenceRetries c + 1 - 1)%nat with (maxSequenceRetries c) in * by lia.
    split_and!; [by exists tx'|done..].
Qed.

End NonceRetry.

(** C4, a run against the claim as first stated: with a limit of zero
    retries the legacy loop still submits once, which is more than the
    limit. *)
Lemma nonce_retry_zero_limit_submits :
  ¬ (length (stellarSubmissions
       (log (signAndSubmitXDR zeroRetryOpts [alice] plainEnvelope None
               (scriptedWorld 3 emptyScript)).2))
     ≤ maxSequenceRetries zeroRetryOpts)%nat.
Proof. vm_compute. lia. Qed.

(** C4: the bound on a client with the default limit of three, against a
    service that answers every submission with the bad-sequence-number
    result. *)
Lemma nonce_retry_bounded_witness :
  (length (stellarSubmissions
     (log (signAndSubmitXDR scriptedOpts [alice] plainEnvelope None
             (scriptedWorld 3 badNonceScript)).2)) ≤ 3)%nat ∧
  (length (solanaSubmissions
     (log (signAndSubmitTx scriptedOpts [alice] plainTx 1%N None []
             (scriptedWorld 4 badNonceScript)).2)) ≤ 3)%nat.
Proof.
  destruct (nonce_retry_bounded (R := Script) scriptedOpts) as [Hxdr Htx]. split.
  - destruct (signAndSubmitXDR scriptedOpts [alice] plainEnvelope None
                (scriptedWorld 3 badNonceScript)) as [[result err] w'] eqn:Hrun.
    destruct (Hxdr alice [] plainEnvelope None _ result err w' Hrun)
      as (info & evs & Hlog & _ & Hinfo).
    simpl. rewrite Hlog. destruct info as [e|senderInfo].
    + destruct Hinfo as [-> _]. simpl. lia.
    + destruct Hinfo as (_ & Hlen & _). exact Hlen.
  - destruct (signAndSubmitTx scriptedOpts [alice] plainTx 1%N None []
                (scriptedWorld 4 badNonceScript)) as [[result err] w'] eqn:Hrun.
    destruct (Htx [alice] plainTx 1%N None [] _ result err w' Hrun)
      as (evs & Hlog & _ & Hlen & _).
    simpl. rewrite Hlog. exact Hlen.
Defined.

(** ** SubmitEarnBatch: batches rejected before any call *)

Lemma adjacentMismatch_false a rest :
  adjacentMismatch (a :: rest) = false →
  Forall (λ b, hasInvoice b = hasInvoice a) rest.
Proof.
  revert a. induction rest as [|b rest IH]; intros a; [done|].
  cbn [adjacentMismatch]. destruct (xorb _ _) eqn:Hx; [done|].
  intros Hrest. apply xorb_eq in Hx. apply Forall_cons. split; [done|].
  rewrite Hx. by apply IH.
Qed.

Lemma checkEarnBatch_invalid c batch earns :
  invalidBatch c batch earns → ∃ msg, checkEarnBatch c batch earns = Some (ErrNew msg).
Proof.
  intros Hinv. unfold checkEarnBatch.
  destruct (bool_decide (length earns = 0%nat)) eqn:H0; [by eexists|].
  destruct (bool_decide (15 < length earns)%nat) eqn:H15; [by eexists|].
  apply bool_decide_eq_false in H0, H15.
  destruct (bool_decide (BMemo batch ≠ "")) eqn:Hmemo.
  - destruct (existsb hasInvoice earns) eqn:Hex; [by eexists|].
    assert (∀ a, a ∈ earns → hasInvoice a = false) as Hnone.
    { intros a Ha. destruct (hasInvoice a) eqn:Hi; [|done].
      assert (existsb hasInvoice earns = true) as Ht; [|congruence].
      apply existsb_exists. exists a. by rewrite <- list_elem_of_In. }
    destruct Hinv as [?|[?|[(a & b & Ha & _ & Hia & _)|[(_ & a & Ha & Hia)|(_ & a & Ha & Hia)]]]];
      try done; rewrite (Hnone a Ha) in Hia; done.
  - apply bool_decide_eq_false in Hmemo.
    destruct earns as [|e0 rest]; [done|]. cbn [head from_option].
    destruct (hasInvoice e0 && bool_decide (appIndex c = 0%N)) eqn:Hhead; [by eexists|].
    destruct (adjacentMismatch (e0 :: rest)) eqn:Hadj; [by eexists|].
    apply adjacentMismatch_false in Hadj. rewrite Forall_forall in Hadj.
    assert (∀ a, a ∈ e0 :: rest → hasInvoice a = hasInvoice e0) as Hsame.
    { intros a Ha. apply elem_of_cons in Ha as [->|Ha]; [done|by apply Hadj]. }
    destruct Hinv as [?|[?|[(a & b & Ha & Hb & Hia & Hib)|[(Hm & _)|(Hidx & a & Ha & Hia)]]]];
      try done.
    + rewrite (Hsame a Ha) in Hia. rewrite (Hsame b Hb) in Hib. congruence.
    + rewrite (Hsame a Ha) in Hia. rewrite Hia in Hhead. simpl in Hhead.
      by rewrite bool_decide_eq_true_2 in Hhead.
Qed.

Section EarnBatchShape.
Context `{Externals} {R : Type} `{Service R}.
Implicit Types (w : World R) (c : clientOpts).

(** C5.  A batch with no earns, with more than 15 earns, with some earns
    carrying an invoice and some not, with a text memo and an earn
    carrying an invoice, or with an invoice while the app index is 0, is
    rejected with a validation error, and the world after the call is the
    world before it: nothing was sent, nothing was logged. *)
Theorem SubmitEarnBatch_rejects_invalid c batch opts w :
  invalidBatch c batch (earnsOf batch w) →
  ∃ msg, SubmitEarnBatch c batch opts w = ((zeroEarnBatchResult, Some (ErrNew msg)), w).
Proof.
  intros Hinv. unfold SubmitEarnBatch.
  destruct (bool_decide (kinVersion w > 4 ∨ kinVersion w < 2)); [by eexists|].
  destruct (checkEarnBatch_invalid c batch _ Hinv) as (msg & ->). by exists msg.
Qed.

End EarnBatchShape.

(** C5: the batch of sixteen earns is turned down with the size error,
    with no call made. *)
Lemma SubmitEarnBatch_rejects_invalid_witness :
  SubmitEarnBatch scriptedOpts batchAt0 [] (worldWithEarns 4 sixteenEarns emptyScript)
  = ((zeroEarnBatchResult, Some (ErrNew "earn batch must not contain more than 15 earns")),
     worldWithEarns 4 sixteenEarns emptyScript).
Proof.
  destruct (SubmitEarnBatch_rejects_invalid (R := Script) scriptedOpts batchAt0 []
              (worldWithEarns 4 sixteenEarns emptyScript)) as (msg & Hrun).
  - right. left. vm_compute. lia.
  - rewrite Hrun. vm_compute in Hrun. injection Hrun as <-. reflexivity.
Defined.

(** ** The sign-transaction webhook *)

Section WebhookFacts.
Context `{WebhookExternals}.

Lemma verifySignature_matches secret r body :
  Body r = inr body →
  verifySignature (Header r) body (String.list_byte_of_string secret) = None ↔
  signatureMatches secret r.
Proof.
  intros Hbody. unfold verifySignature, signatureMatches, hmac_Equal.
  destruct (bool_decide (header_Get AgoraHMACHeader (Header r) = "")) eqn:Hempty.
  - apply bool_decide_eq_true in Hempty. split; [done|].
    intros (? & ? & _ & Hne & _). done.
  - apply bool_decide_eq_false in Hempty.
    destruct (base64_Decode _) as [e|sig] eqn:Hdec.
    + split; [done|]. intros (? & ? & _ & _ & ? & _). done.
    + destruct (bool_decide (hmac_sha256 _ body = sig)) eqn:Heq; simpl.
      * apply bool_decide_eq_true in Heq. split; [|done].
        intros _. by exists body, sig.
      * apply bool_decide_eq_false in Heq. split; [done|].
        intros (body' & sig' & Hb & _ & Hd & Hh). congruence.
Qed.

(** C9 (amended).  For a POST request whose body could be read: when the
    handler has a secret, it answers 401 exactly when the request does
    not carry the HMAC-SHA256 of the body under the secret; when it has
    no secret, it checks no signature.  A request that gets past this and
    whose body decodes is answered 400 when its ledger version, 3 for a
    tag of 0, is not 2, 3 or 4, and is processed otherwise. *)
Theorem SignTransactionHandler_rejects secret r body :
  Method r = "POST" →
  Body r = inr body →
  (secret ≠ "" →
     (SignTransactionHandler secret r = Respond StatusUnauthorized "" ↔
      ¬ signatureMatches secret r)) ∧
  (secret = "" ∨ signatureMatches secret r →
     ∀ v0, json_KinVersion body = inr v0 →
       SignTransactionHandler secret r =
         (if bool_decide (2 ≤ requestVersion v0 ≤ 4)
          then Proceed (requestVersion v0)
          else Respond StatusBadRequest "invalid kin version")).
Proof.
  intros Hmethod Hbody. unfold SignTransactionHandler.
  rewrite bool_decide_eq_false_2 by (by intros []). rewrite Hbody.
  pose proof (verifySignature_matches secret r body Hbody) as Hverify.
  assert (∀ v0, json_KinVersion body = inr v0 →
    match json_KinVersion body with
    | inl _ => Respond StatusBadRequest "invalid body"
    | inr v0 =>
        if bool_decide ((if bool_decide (v0 = 0) then 3 else v0) < 2
                        ∨ (if bool_decide (v0 = 0) then 3 else v0) > 4)
        then Respond StatusBadRequest "invalid kin version"
        else Proceed (if bool_decide (v0 = 0) then 3 else v0)
    end =
    if bool_decide (2 ≤ requestVersion v0 ≤ 4)
    then Proceed (requestVersion v0)
    else Respond StatusBadRequest "invalid kin version") as Hversion.
  { intros v0 ->. unfold requestVersion.
    destruct (bool_decide (v0 = 0)); repeat case_bool_decide; done || lia. }
  split.
  - intros Hsecret.
    rewrite bool_decide_eq_true_2 by (destruct secret; [done|simpl; lia]).
    destruct (verifySignature _ _ _) as [e|] eqn:Hv.
    + split; [|done]. intros _ Hm. apply Hverify in Hm. done.
    + split.
      * destruct (json_KinVersion body) as [?|v0]; [done|].
        by repeat case_bool_decide.
      * intros Hno. exfalso. apply Hno. by apply Hverify.
  - intros [->|Hm] v0 Hv0.
    + simpl. by apply Hversion.
    + apply Hverify in Hm. rewrite Hm. destruct (bool_decide _); by apply Hversion.
Qed.

End WebhookFacts.

(** C9, a run against the claim as first stated: a handler set up with an
    empty secret lets a request without any signature through. *)
Lemma SignTransactionHandler_no_secret_no_check :
  ¬ signatureMatches "" unsignedRequest ∧
  SignTransactionHandler "" unsignedRequest = Proceed 3.
Proof.
  split; [|reflexivity]. intros (body & sig & _ & Hne & _). by apply Hne.
Qed.

(** C9: under the secret ["k"], the request with a wrong signature is
    answered 401, and the one with the right signature and the version
    tag 7 is answered 400. *)
Lemma SignTransactionHandler_rejects_witness :
  SignTransactionHandler "k" wrongSignatureRequest = Respond StatusUnauthorized "" ∧
  SignTransactionHandler "k" version7Request
    = Respond StatusBadRequest "invalid kin version".
Proof.
  split.
  - apply (SignTransactionHandler_rejects "k" wrongSignatureRequest [x03]
             eq_refl eq_refl); [done|].
    intros (body & sig & [= <-] & _ & [= <-] & Hh). vm_compute in Hh. done.
  - destruct (SignTransactionHandler_rejects "k" version7Request [x07]
                eq_refl eq_refl) as [_ Hversion].
    assert (signatureMatches "k" version7Request) as Hmatch.
    { exists [x07], [x6b; x07]. split_and!; [reflexivity|discriminate|reflexivity..]. }
    rewrite (Hversion (or_intror Hmatch) 7); reflexivity.
Defined.

(** C7: an entry written at time 0 is served as it is at 4m59s, and is
    replaced by the service's answer at 5m01s. *)
Lemma resolveTokenAccounts_ttl_witness :
  (resolveTokenAccounts scriptedOpts bob (cachedWorld (299 * second))).1
    = ([bobToken], None) ∧
  (resolveTokenAccounts scriptedOpts bob (cachedWorld (301 * second))).1
    = ([carolToken], None).
Proof.
  assert (∀ now, cache_find (Base58 bob) (accountCache (cachedWorld now)) = Some bobEntry)
    as Hfind by (intros now; vm_compute; reflexivity).
  split.
  - destruct (resolveTokenAccounts_ttl (R := Script) scriptedOpts bob
                (cachedWorld (299 * second)) bobEntry (Hfind _)) as [Hfresh _].
    { vm_compute. lia. }
    destruct Hfresh as (w' & Hrun & _); [vm_compute; reflexivity|].
    rewrite Hrun. reflexivity.
  - destruct (resolveTokenAccounts_ttl (R := Script) scriptedOpts bob
                (cachedWorld (301 * second)) bobEntry (Hfind _)) as [_ Hstale].
    { vm_compute. lia. }
    destruct Hstale as (accts & w' & evs & r & Hrun & _); [vm_compute; discriminate|].
    rewrite Hrun. vm_compute in Hrun. injection Hrun as <- _. reflexivity.
Defined.


(** ** The resolution fallback *)

Section FallbackFacts.
Context `{Externals} {R : Type} `{Service R}.
Implicit Types (w : World R) (c : clientOpts).

Lemma rpc_GetServiceConfig_quiet w :
  quietView (rpc_GetServiceConfig w).2 = quietView w.
Proof.
  unfold rpc_GetServiceConfig. destruct (GetServiceConfig (remote w)) as [r s].
  by apply step_remote_quiet.
Qed.

(** [submitSolanaPayment] hands the transaction it assembled to the retry
    loop, once, and nothing when the assembly failed. *)
Lemma submitSolanaPayment_spec c payment config cm ts sub w result err w' :
  submitSolanaPayment c payment config cm ts sub w = ((result, err), w') →
  clientView w' = clientView w ∧ accountCache w' = accountCache w ∧
  submittedEnvelopes (log w') = submittedEnvelopes (log w) ∧
  submittedTxs (log w') =
    submittedTxs (log w) ++
    match solanaPaymentTx c payment config ts sub with
    | inl _ => []
    | inr (_, tx, _) => [tx]
    end.
Proof.
  unfold submitSolanaPayment.
  destruct (solanaPaymentTx _ _ _ _ _) as [e|[[signers tx] il]].
  - intros [= <- <- <-]. by rewrite app_nil_r.
  - intros Hrun. apply signAndSubmitTx_spec in Hrun as (? & ? & ? & ? & _). done.
Qed.

Lemma resolvedFirst_frame mode c key w :
  clientView (resolvedFirst mode c key w).2 = clientView w ∧
  submittedTxs (log (resolvedFirst mode c key w).2) = submittedTxs (log w) ∧
  submittedEnvelopes (log (resolvedFirst mode c key w).2) = submittedEnvelopes (log w).
Proof.
  unfold resolvedFirst. destruct (is_Preferred mode); [|done].
  destruct (resolveTokenAccounts c key w) as [[accts err] w'] eqn:Hres.
  apply resolveTokenAccounts_frame in Hres as (_ & ? & ? & ?). done.
Qed.

(** The step as the source writes it, in terms of [resolvedFirst]: the
    error of the resolution is always nil. *)
Lemma resolve_step mode c key w :
  (if is_Preferred mode
   then let '((tokenAccounts, rerr), w') := resolveTokenAccounts c key w in
        ((rerr, head tokenAccounts), w')
   else ((None, None), w))
  = ((None, (resolvedFirst mode c key w).1), (resolvedFirst mode c key w).2).
Proof.
  unfold resolvedFirst. destruct (is_Preferred mode); [|done].
  destruct (resolveTokenAccounts c key w) as [[accts err] w'] eqn:Hres.
  apply resolveTokenAccounts_frame in Hres as (-> & _). done.
Qed.

(** [submitPaymentWithResolution] is a pipeline of two steps: submit;
    then, on an absent account, resolve and submit once more. *)
Lemma submitPaymentWithResolution_unfold c payment o w :
  submitPaymentWithResolution c payment o w =
    let '(rc, w1) := rpc_GetServiceConfig w in
    match rc with
    | inl e => ((zeroResult, Some (ErrWrap e "failed to get service config")), w1)
    | inr config =>
        if bool_decide (SubsidizerAccount config = None)
           && bool_decide (subsidizer o = None)
        then ((zeroResult, Some ErrNoSubsidizer), w1)
        else
          let '((result, err), w2) :=
            submitSolanaPayment c payment config (commitment o) None (subsidizer o) w1 in
          match err with
          | Some e => ((result, Some e), w2)
          | None =>
              if err_is (TxError (Errors result)) ErrAccountDoesNotExist
              then
                let '(sa, w3) :=
                  resolvedFirst (accountResolution o) c (Public (Sender payment)) w2 in
                let '(da, w4) :=
                  resolvedFirst (destResolution o) c (Destination payment) w3 in
                if bool_decide (is_Some sa) || bool_decide (is_Some da)
                then submitSolanaPayment c (withDestination da payment) config
                       (commitment o) sa (subsidizer o) w4
                else ((result, None), w4)
              else ((result, None), w2)
          end
    end.
Proof.
  unfold submitPaymentWithResolution.
  destruct (rpc_GetServiceConfig w) as [[e|config] w1]; [done|].
  destruct (_ && _); [done|].
  destruct (submitSolanaPayment _ _ _ _ _ _ _) as [[result [e|]] w2]; [done|].
  destruct (err_is _ _); [|done].
  rewrite resolve_step.
  destruct (resolvedFirst (accountResolution o) c (Public (Sender payment)) w2)
    as [sa w3]. simpl.
  rewrite resolve_step.
  destruct (resolvedFirst (destResolution o) c (Destination payment) w3) as [da w4].
  simpl. by destruct da.
Qed.

(** What decides whether a payment can be assembled does not depend on
    its destination or on the account the transfer draws from. *)
Lemma solanaPaymentTx_transfers c payment config ts sub signers tx il :
  solanaPaymentTx c payment config ts sub = inr (signers, tx, il) →
  transfers tx = [(default (Public (Sender payment)) ts, Destination payment)].
Proof.
  unfold solanaPaymentTx. destruct sub as [sk|]; simpl.
  all: destruct (bool_decide (Memo payment ≠ "")); simpl;
    [intros [= <- <- <-]; done|].
  all: destruct (bool_decide (0 < appIndex c)%N); simpl;
    [|intros [= <- <- <-]; done].
  all: destruct (invoiceForeignKey (PInvoice payment)) as [e|[fk il']]; [done|].
  all: destruct (NewMemo _ _ _ _) as [e|m]; [done|].
  all: intros [= <- <- <-]; done.
Qed.

Lemma solanaPaymentTx_resubmit c payment config ts sub da ts' x :
  solanaPaymentTx c payment config ts sub = inr x →
  ∃ y, solanaPaymentTx c (withDestination da payment) config ts' sub = inr y.
Proof.
  assert (Memo (withDestination da payment) = Memo payment ∧
          PInvoice (withDestination da payment) = PInvoice payment ∧
          Type_ (withDestination da payment) = Type_ payment) as (Hm & Hi & Ht)
    by (by destruct da).
  unfold solanaPaymentTx. rewrite Hm, Hi, Ht. destruct sub as [sk|]; simpl.
  all: destruct (bool_decide (Memo payment ≠ "")); simpl; [by eexists|].
  all: destruct (bool_decide (0 < appIndex c)%N); simpl; [|by eexists].
  all: destruct (invoiceForeignKey (PInvoice payment)) as [e|[fk il']]; [done|].
  all: destruct (NewMemo _ _ _ _) as [e|m]; [done|by eexists].
Qed.

Lemma submitSolanaPayment_assembled c payment config cm ts sub w result w' :
  submitSolanaPayment c payment config cm ts sub w = ((result, None), w') →
  ∃ x, solanaPaymentTx c payment config ts sub = inr x.
Proof.
  unfold submitSolanaPayment. destruct (solanaPaymentTx _ _ _ _ _) as [e|x]; [done|].
  by exists x.
Qed.

(** *** Earn batches *)

Lemma storeDestination_frame batch i d w :
  kinVersion (storeDestination batch i d w) = kinVersion w ∧
  internal_kinVersion (storeDestination batch i d w) = internal_kinVersion w ∧
  accountCache (storeDestination batch i d w) = accountCache w ∧
  remote (storeDestination batch i d w) = remote w ∧
  log (storeDestination batch i d w) = log w ∧
  (∀ l, l ≠ Earns batch → heap (storeDestination batch i d w) !! l = heap w !! l).
Proof.
  unfold storeDestination. destruct (heap w !! Earns batch) as [earns|]; [|done].
  destruct (earns !! i); [|done]. simpl. split_and!; try done.
  intros l Hl. by rewrite lookup_insert_ne.
Qed.

Lemma resolveEarnDestinations_spec c batch n i resubmit w derr resubmit' w' :
  resolveEarnDestinations c batch i n resubmit w = ((derr, resubmit'), w') →
  derr = None ∧
  kinVersion w' = kinVersion w ∧ internal_kinVersion w' = internal_kinVersion w ∧
  submittedTxs (log w') = submittedTxs (log w) ∧
  submittedEnvelopes (log w') = submittedEnvelopes (log w) ∧
  (∀ l, l ≠ Earns batch → heap w' !! l = heap w !! l) ∧
  (resubmit' = false → resubmit = false ∧ heap w' = heap w).
Proof.
  revert i resubmit w. induction n as [|n IH]; intros i resubmit w; simpl.
  - by intros [= <- <- <-].
  - destruct (earnsOf batch w !! i) as [earn|]; [|by intros [= <- <- <-]].
    destruct (resolveTokenAccounts c (EDestination earn) w) as [[accts rerr] w1] eqn:Hres.
    apply resolveTokenAccounts_frame in Hres as (-> & Hcv & Htx & Hxdr).
    injection Hcv as Hkv Hikv Hheap.
    destruct (head accts) as [d|].
    + intros Hrun. apply IH in Hrun as (-> & Hk & Hik & Ht & Hx & Hl & Hre).
      destruct (storeDestination_frame batch i d w1) as (Sk & Sik & _ & _ & Slog & Sl).
      rewrite Slog in Ht, Hx. split_and!; try congruence.
      * intros l Hne. rewrite Hl, Sl by done. by rewrite Hheap.
      * intros Hf. by destruct (Hre Hf).
    + intros Hrun. apply IH in Hrun as (-> & Hk & Hik & Ht & Hx & Hl & Hre).
      split_and!; try congruence.
      * intros l Hne. rewrite Hl by done. by rewrite Hheap.
      * intros Hf. destruct (Hre Hf) as [-> Hh]. split; [done|congruence].
Qed.

Lemma submitSolanaEarnBatch_spec c batch config cm ts sub w result err w' :
  submitSolanaEarnBatch c batch config cm ts sub w = ((result, err), w') →
  clientView w' = clientView w ∧ accountCache w' = accountCache w ∧
  submittedEnvelopes (log w') = submittedEnvelopes (log w) ∧
  submittedTxs (log w') =
    submittedTxs (log w) ++
    match solanaEarnBatchTx c batch (earnsOf batch w) config ts sub with
    | inl _ => []
    | inr (_, tx, _) => [tx]
    end.
Proof.
  unfold submitSolanaEarnBatch.
  destruct (solanaEarnBatchTx _ _ _ _ _ _) as [e|[[signers tx] il]].
  - intros [= <- <- <-]. by rewrite app_nil_r.
  - intros Hrun. apply signAndSubmitTx_spec in Hrun as (? & ? & ? & ? & _). done.
Qed.

(** [submitEarnBatchWithResolution] is the same pipeline of two steps. *)
Lemma submitEarnBatchWithResolution_unfold c batch config o w :
  submitEarnBatchWithResolution c batch config o w =
    let '((result, err), w1) :=
      submitSolanaEarnBatch c batch config (commitment o) None (subsidizer o) w in
    match err with
    | Some e => ((result, Some e), w1)
    | None =>
        if err_is (TxError (Errors result)) ErrAccountDoesNotExist
        then
          let '(sa, w2) :=
            resolvedFirst (accountResolution o) c (Public (BSender batch)) w1 in
          let '((_, resubmit), w3) :=
            if is_Preferred (destResolution o)
            then resolveEarnDestinations c batch 0 (length (earnsOf batch w2))
                   (bool_decide (is_Some sa)) w2
            else ((None, bool_decide (is_Some sa)), w2) in
          if resubmit
          then submitSolanaEarnBatch c batch config (commitment o) sa (subsidizer o) w3
          else ((result, None), w3)
        else ((result, None), w1)
    end.
Proof.
  unfold submitEarnBatchWithResolution.
  destruct (submitSolanaEarnBatch _ _ _ _ _ _ _) as [[result [e|]] w1]; [done|].
  destruct (err_is _ _); [|done].
  rewrite resolve_step.
  destruct (resolvedFirst (accountResolution o) c (Public (BSender batch)) w1)
    as [sa w2]. simpl.
  destruct (is_Preferred (destResolution o)); [|done].
  destruct (resolveEarnDestinations _ _ _ _ _ _) as [[derr resubmit] w3] eqn:Hdest.
  apply resolveEarnDestinations_spec in Hdest as (-> & _). done.
Qed.

End FallbackFacts.

(** ** The memo of a payment *)

(** Follow every branch of the code in hypothesis [H], dropping the
    branches that contradict it. *)
Ltac split_branches H :=
  repeat match type of H with
         | context [match ?x with _ => _ end] => destruct x; simpl in H; try done
         | context [if ?x then _ else _] => destruct x; simpl in H; try done
         end.

Section Memo.
Context `{Externals} {R : Type} `{Service R}.
Implicit Types (w : World R) (c : clientOpts).

(** The envelopes of the legacy ledger always come with a signer: the
    sender, after the channel when there is one. *)
Lemma legacyPaymentEnvelope_signers c v payment signers envelope il :
  legacyPaymentEnvelope c v payment = inr (signers, envelope, il) →
  ∃ s0 rest, signers = s0 :: rest.
Proof.
  unfold legacyPaymentEnvelope. intros Hasm.
  destruct (bool_decide (v = 2)); simpl in Hasm.
  all: split_branches Hasm.
  all: injection Hasm as <- _ _; by eexists _, _.
Qed.

Lemma legacyEarnBatchEnvelope_signers c v batch earns signers envelope il :
  legacyEarnBatchEnvelope c v batch earns = inr (signers, envelope, il) →
  ∃ s0 rest, signers = s0 :: rest.
Proof.
  unfold legacyEarnBatchEnvelope. intros Hasm.
  destruct (bool_decide (v = 2)); simpl in Hasm.
  all: split_branches Hasm.
  all: injection Hasm as <- _ _; by eexists _, _.
Qed.

Lemma invoiceForeignKey_spec invoice fk il :
  invoiceForeignKey invoice = inr (fk, il) → isForeignKey invoice fk.
Proof.
  unfold invoiceForeignKey, isForeignKey. destruct invoice as [inv|].
  - destruct (proto_Marshal _) as [e|b] eqn:Hm; [done|]. intros [= <- _]. by exists b.
  - by intros [= <- _].
Qed.


Lemma solanaPaymentTx_memo c payment config ts sub signers tx il :
  solanaPaymentTx c payment config ts sub = inr (signers, tx, il) →
  carriesPolicyMemo c payment tx.
Proof.
  unfold solanaPaymentTx, carriesPolicyMemo. destruct sub as [sk|]; simpl.
  all: destruct (bool_decide (Memo payment ≠ "")) eqn:Hmemo; simpl.
  all: try (intros [= _ <- _]; apply bool_decide_eq_true in Hmemo;
            by eexists (TextMemo _), _, _).
  all: apply bool_decide_eq_false in Hmemo; apply dec_stable in Hmemo.
  all: destruct (bool_decide (0 < appIndex c)%N) eqn:Hidx; simpl.
  all: try (intros [= _ <- _]; apply bool_decide_eq_false in Hidx;
            eexists NoMemo, _, _; split; [split; [done|lia]|done]).
  all: apply bool_decide_eq_true in Hidx.
  all: destruct (invoiceForeignKey _) as [e|[fk il']] eqn:Hfk; [done|].
  all: destruct (NewMemo _ _ _ _) as [e|m] eqn:Hnew; [done|].
  all: intros [= _ <- _]; eexists (StructuredMemo m), _, _; split; [|done].
  all: split_and!; [done..|].
  all: exists fk; split; [by eapply invoiceForeignKey_spec|done].
Qed.

Lemma carriesPolicyMemo_withDestination c payment da tx :
  carriesPolicyMemo c (withDestination da payment) tx → carriesPolicyMemo c payment tx.
Proof. by destruct da. Qed.

(** What [submitPaymentWithResolution] leaves alone, and what it hands to
    the token-ledger loop: transactions of the payment only. *)
Lemma submitPaymentWithResolution_frame c payment o w :
  clientView (submitPaymentWithResolution c payment o w).2 = clientView w ∧
  submittedEnvelopes (log (submitPaymentWithResolution c payment o w).2)
    = submittedEnvelopes (log w) ∧
  ∃ txs, submittedTxs (log (submitPaymentWithResolution c payment o w).2)
           = submittedTxs (log w) ++ txs ∧
         Forall (carriesPolicyMemo c payment) txs.
Proof.
  assert (∀ p ts config cm sub w0 result err w1,
    submitSolanaPayment c p config cm ts sub w0 = ((result, err), w1) →
    clientView w1 = clientView w0 ∧
    submittedEnvelopes (log w1) = submittedEnvelopes (log w0) ∧
    ∃ txs, submittedTxs (log w1) = submittedTxs (log w0) ++ txs ∧
           Forall (carriesPolicyMemo c p) txs) as Hsubmit.
  { intros p ts config cm sub w0 result err w1 Hrun.
    apply submitSolanaPayment_spec in Hrun as (? & _ & ? & Htx). split_and!; [done..|].
    eexists. split; [done|].
    destruct (solanaPaymentTx c p config ts sub) as [e|[[signers tx] il]] eqn:Hasm;
      [done|]. apply Forall_singleton. by eapply solanaPaymentTx_memo. }
  rewrite submitPaymentWithResolution_unfold.
  pose proof (rpc_GetServiceConfig_quiet w) as Hq.
  destruct (rpc_GetServiceConfig w) as [[e|config] w1]; simpl in Hq;
    apply quietView_inv in Hq as (Hc1 & _ & Ht1 & Hx1).
  { simpl. split_and!; [done..|]. exists []. by rewrite app_nil_r. }
  destruct (_ && _).
  { simpl. split_and!; [done..|]. exists []. by rewrite app_nil_r. }
  destruct (submitSolanaPayment c payment config _ None _ w1) as [[result err] w2] eqn:H1.
  apply Hsubmit in H1 as (Hc2 & Hx2 & txs1 & Ht2 & Hall1).
  assert (clientView w2 = clientView w ∧
          submittedEnvelopes (log w2) = submittedEnvelopes (log w) ∧
          ∃ txs, submittedTxs (log w2) = submittedTxs (log w) ++ txs ∧
                 Forall (carriesPolicyMemo c payment) txs) as Hw2.
  { split_and!; [congruence..|]. exists txs1. split; [congruence|done]. }
  destruct err as [e|]; [done|]. destruct (err_is _ _); [|done].
  pose proof (resolvedFirst_frame (accountResolution o) c (Public (Sender payment)) w2)
    as (Hc3 & Ht3 & Hx3).
  destruct (resolvedFirst (accountResolution o) c _ w2) as [sa w3]. simpl in *.
  pose proof (resolvedFirst_frame (destResolution o) c (Destination payment) w3)
    as (Hc4 & Ht4 & Hx4).
  destruct (resolvedFirst (destResolution o) c _ w3) as [da w4]. simpl in *.
  destruct (_ || _).
  - destruct (submitSolanaPayment c _ config _ sa _ w4) as [[result' err'] w5] eqn:H2.
    apply Hsubmit in H2 as (Hc5 & Hx5 & txs2 & Ht5 & Hall2). simpl.
    split_and!; [congruence..|]. exists (txs1 ++ txs2).
    split; [rewrite Ht5, Ht4, Ht3, Ht2, Ht1; by rewrite app_assoc|].
    apply Forall_app. split; [done|].
    eapply Forall_impl; [done|]. intros tx. apply carriesPolicyMemo_withDestination.
  - simpl. split_and!; [congruence..|]. exists txs1. split; [congruence|done].
Qed.



End Memo.

(** ** The ledger version and the caller's memory *)

Section Router.
Context `{Externals} {R : Type} `{Service R}.
Implicit Types (w : World R) (c : clientOpts).

(** A payment never writes to the caller's memory. *)
Lemma SubmitPayment_keeps_heap c payment opts w :
  heap (SubmitPayment c payment opts w).2 = heap w.
Proof.
  unfold SubmitPayment.
  destruct (bool_decide (kinVersion w > 4 ∨ kinVersion w < 2)); [done|].
  destruct (_ && _); [done|].
  destruct (bool_decide (kinVersion w = 4)).
  - pose proof (submitPaymentWithResolution_frame c payment
                  (apply_opts opts (defaultSolanaOpts c)) w) as (Hcv & _).
    destruct (submitPaymentWithResolution _ _ _ _) as [r w']. simpl in *.
    by injection Hcv.
  - destruct (legacyPaymentEnvelope c (kinVersion w) payment)
      as [e|[[signers envelope] il]] eqn:Hasm; [done|].
    destruct (legacyPaymentEnvelope_signers _ _ _ _ _ _ Hasm) as (s0 & rest & ->).
    destruct (signAndSubmitXDR c (s0 :: rest) envelope il w) as [[result err] w1] eqn:Hxdr.
    apply signAndSubmitXDR_spec in Hxdr as (Hcv1 & _). injection Hcv1 as _ _ Hh1.
    destruct (_ && _); [|done].
    pose proof (submitPaymentWithResolution_frame c payment
                  (apply_opts opts (defaultSolanaOpts c)) (set_kinVersions 4 w1))
      as (Hcv & _).
    destruct (submitPaymentWithResolution _ _ _ _) as [r w']. simpl in *.
    injection Hcv as _ _ Hh. congruence.
Qed.

(** A legacy payment that meets the failed-precondition status moves the
    client to version 4 and goes through the token-ledger path in the
    same call; the legacy loop was entered once. *)
Lemma SubmitPayment_migrates c payment opts w signers envelope il result err w1 :
  kinVersion w = 2 ∨ kinVersion w = 3 →
  PInvoice payment = None ∨ appIndex c ≠ 0%N →
  legacyPaymentEnvelope c (kinVersion w) payment = inr (signers, envelope, il) →
  signAndSubmitXDR c signers envelope il w = ((result, err), w1) →
  status_Code err = CodeFailedPrecondition →
  SubmitPayment c payment opts w =
    (surfacePayment
       (submitPaymentWithResolution c payment (apply_opts opts (defaultSolanaOpts c))
          (set_kinVersions 4 w1)).1,
     (submitPaymentWithResolution c payment (apply_opts opts (defaultSolanaOpts c))
        (set_kinVersions 4 w1)).2) ∧
  kinVersion (SubmitPayment c payment opts w).2 = 4 ∧
  submittedEnvelopes (log (SubmitPayment c payment opts w).2)
    = submittedEnvelopes (log w) ++ [envelope].
Proof.
  intros Hv Hinv Hasm Hxdr Hcode.
  assert (SubmitPayment c payment opts w =
    (surfacePayment
       (submitPaymentWithResolution c payment (apply_opts opts (defaultSolanaOpts c))
          (set_kinVersions 4 w1)).1,
     (submitPaymentWithResolution c payment (apply_opts opts (defaultSolanaOpts c))
        (set_kinVersions 4 w1)).2)) as Hrun.
  { unfold SubmitPayment.
    rewrite bool_decide_eq_false_2 by lia.
    assert (bool_decide (is_Some (PInvoice payment)) && bool_decide (appIndex c = 0%N)
            = false) as ->.
    { apply andb_false_iff. destruct Hinv as [->|?];
        [left; apply bool_decide_eq_false; by intros []|right; by apply bool_decide_eq_false]. }
    rewrite bool_decide_eq_false_2 by lia. rewrite Hasm, Hxdr.
    assert (bool_decide (is_Some err) = true) as ->.
    { apply bool_decide_eq_true. by destruct err. }
    rewrite bool_decide_eq_true_2 by done. simpl.
    by destruct (submitPaymentWithResolution _ _ _ _). }
  split; [done|]. rewrite Hrun. simpl.
  pose proof (submitPaymentWithResolution_frame c payment
                (apply_opts opts (defaultSolanaOpts c)) (set_kinVersions 4 w1))
    as (Hcv & Hx & _).
  destruct (legacyPaymentEnvelope_signers _ _ _ _ _ _ Hasm) as (s0 & rest & ->).
  apply signAndSubmitXDR_spec in Hxdr as (_ & _ & _ & Hx1 & _).
  split; [by injection Hcv|]. rewrite Hx. simpl. done.
Qed.

(** An earn batch never moves the client to another ledger version,
    whatever the service answers. *)
Lemma SubmitEarnBatch_keeps_version c batch opts w :
  kinVersion (SubmitEarnBatch c batch opts w).2 = kinVersion w.
Proof.
  unfold SubmitEarnBatch.
  destruct (bool_decide (kinVersion w > 4 ∨ kinVersion w < 2)); [done|].
  destruct (checkEarnBatch _ _ _); [done|].
  destruct (bool_decide (kinVersion w = 2 ∨ kinVersion w = 3)).
  - assert (kinVersion (submitEarnBatch c batch w).2 = kinVersion w) as Hk.
    { unfold submitEarnBatch.
      destruct (legacyEarnBatchEnvelope _ _ _ _) as [e|[[signers envelope] il]] eqn:Hasm;
        [done|].
      destruct (legacyEarnBatchEnvelope_signers _ _ _ _ _ _ _ Hasm) as (s0 & rest & ->).
      destruct (signAndSubmitXDR c (s0 :: rest) envelope il w)
        as [[result err] w1] eqn:Hxdr.
      apply signAndSubmitXDR_spec in Hxdr as (Hcv1 & _). injection Hcv1 as Hk _ _.
      destruct err; [done|]. by destruct (bool_decide _). }
    destruct (submitEarnBatch c batch w) as [[submitResult [e|]] w1]; done.
  - pose proof (rpc_GetServiceConfig_quiet w) as Hq.
    destruct (rpc_GetServiceConfig w) as [[e|config] w1]; simpl in Hq;
      apply quietView_inv in Hq as (Hcv & _); injection Hcv as Hk1 _ _; [done|].
    destruct (_ && _); [done|].
    assert (kinVersion (submitEarnBatchWithResolution c batch config
                          (apply_opts opts (defaultSolanaOpts c)) w1).2 = kinVersion w1)
      as Hk.
    { rewrite submitEarnBatchWithResolution_unfold.
      destruct (submitSolanaEarnBatch c batch config _ None _ w1)
        as [[result err] w2] eqn:H1.
      apply submitSolanaEarnBatch_spec in H1 as (Hcv2 & _). injection Hcv2 as Hk2 _ _.
      destruct err as [e|]; [done|]. destruct (err_is _ _); [|done].
      pose proof (resolvedFirst_frame
                    (accountResolution (apply_opts opts (defaultSolanaOpts c))) c
                    (Public (BSender batch)) w2) as (Hcv3 & _).
      destruct (resolvedFirst _ c _ w2) as [sa w3]. simpl in Hcv3.
      injection Hcv3 as Hk3 _ _.
      assert (∀ r4 w4,
        (if is_Preferred (destResolution (apply_opts opts (defaultSolanaOpts c)))
         then resolveEarnDestinations c batch 0 (length (earnsOf batch w3))
                (bool_decide (is_Some sa)) w3
         else ((None, bool_decide (is_Some sa)), w3)) = (r4, w4) →
        kinVersion w4 = kinVersion w3) as Hdest.
      { intros [derr re] w4. destruct (is_Preferred _); [|by intros [= _ _ <-]].
        intros Hd. apply resolveEarnDestinations_spec in Hd as (_ & ? & _). done. }
      destruct (if is_Preferred _ then _ else _) as [[derr resubmit] w4].
      pose proof (Hdest _ _ eq_refl) as Hk4. simpl in Hk4.
      destruct resubmit; [|simpl; congruence].
      destruct (submitSolanaEarnBatch c batch config _ sa _ w4)
        as [[result' err'] w5] eqn:H2.
      apply submitSolanaEarnBatch_spec in H2 as (Hcv5 & _). injection Hcv5 as Hk5 _ _.
      simpl. congruence. }
    destruct (submitEarnBatchWithResolution _ _ _ _ _) as [[submitResult [e|]] w2];
      simpl in *; congruence.
Qed.

End Router.

(** C1: an earn batch on a client of version 3, against a service whose
    legacy ledger has moved.  The call returns the failed-precondition
    error; the client stays on version 3 and nothing is handed to the
    token-ledger loop.  A payment against the same service moves the
    client to version 4 and succeeds on the token ledger. *)
Theorem SubmitEarnBatch_ignores_migration :
  (SubmitEarnBatch scriptedOpts batchAt0 []
     (worldWithEarns 3 [earnBob] migratedScript)).1
    = (zeroEarnBatchResult, Some migrated) ∧
  kinVersion (SubmitEarnBatch scriptedOpts batchAt0 []
                (worldWithEarns 3 [earnBob] migratedScript)).2 = 3 ∧
  submittedTxs (log (SubmitEarnBatch scriptedOpts batchAt0 []
                       (worldWithEarns 3 [earnBob] migratedScript)).2) = [] ∧
  (SubmitPayment scriptedOpts payAliceBob []
     (worldWithEarns 3 [earnBob] migratedScript)).1 = ([], None) ∧
  kinVersion (SubmitPayment scriptedOpts payAliceBob []
                (worldWithEarns 3 [earnBob] migratedScript)).2 = 4.
Proof. vm_compute. done. Qed.

(** C8: an earn batch whose one destination, bob, is absent and resolves
    to a token account.  Before the call the caller's array holds bob;
    after it, the array holds bob's token account: the substitution went
    through the slice into the caller's batch. *)
Theorem SubmitEarnBatch_writes_callers_earns :
  heap (worldWithEarns 4 [earnBob] absentDestinationScript) !! Earns batchAt0
    = Some [earnBob] ∧
  heap (SubmitEarnBatch scriptedOpts batchAt0 []
          (worldWithEarns 4 [earnBob] absentDestinationScript)).2 !! Earns batchAt0
    = Some [{| EDestination := bobToken; EQuarks := 1; EInvoice := None |}].
Proof. vm_compute. done. Qed.

(** * Further properties of the client *)

(** ** How often the token accounts are asked for *)

Lemma resolveQueries_app a b :
  resolveQueries (a ++ b) = resolveQueries a ++ resolveQueries b.
Proof. apply omap_app. Qed.

Section ResolveLoop.
Context `{Externals} {R : Type} `{Service R}.
Implicit Types (w : World R) (c : clientOpts).

Lemma resolveStrategies_ok n i e :
  forallb (λ s, strategy_ok s i e) [Limit n; RetriableErrors [errNoTokenAccounts]] =
  bool_decide (i < n)%nat && bool_decide (e = errNoTokenAccounts).
Proof.
  simpl. rewrite andb_true_r. f_equal. apply bool_decide_ext.
  rewrite list_elem_of_singleton. done.
Qed.

(** The loop of [resolveTokenAccounts], attempt by attempt: every attempt
    is one query; all but the last ended with [errNoTokenAccounts], each
    of those below the limit. *)
Lemma Loop_resolve account n fuel i w a j err w' a' :
  Loop fuel i (resolve_action account)
       [Limit n; RetriableErrors [errNoTokenAccounts]] (w, a)
    = Some ((j, err), (w', a')) →
  ∃ answers r,
    log w' = log w ++ (EvResolveTokenAccounts account <$> (answers ++ [r])) ∧
    Forall (λ r0, resolveError r0 = Some errNoTokenAccounts) answers ∧
    (length answers ≤ n - i)%nat ∧
    j = (i + length answers)%nat ∧
    err = resolveError r ∧ a' = answered r ∧
    (resolveError r = Some errNoTokenAccounts → (n ≤ j)%nat).
Proof.
  revert i w a. induction fuel as [|fuel IH]; intros i w a; [done|].
  cbn [Loop]. destruct (resolve_action_spec account w a) as (r & s & _ & ->).
  change (match r with
          | inl e => Some e
          | inr accts => if bool_decide (length accts = 0%nat)
                         then Some errNoTokenAccounts else None
          end) with (resolveError r).
  change (match r with inl _ => [] | inr accts => accts end) with (answered r).
  destruct (resolveError r) as [e|] eqn:Hr.
  - rewrite resolveStrategies_ok.
    destruct (bool_decide (i < n)%nat) eqn:Hlt; simpl.
    + destruct (bool_decide (e = errNoTokenAccounts)) eqn:He.
      * apply bool_decide_eq_true in Hlt, He. subst e. intros Hl.
        apply IH in Hl as (answers & r' & Hlog & Hall & Hlen & -> & -> & -> & Hend).
        exists (r :: answers), r'. rewrite step_remote_log in Hlog.
        split_and!; try done; try (simpl; lia).
        -- rewrite Hlog, <- app_assoc. done.
        -- by constructor.
      * intros [= <- <- <- <-]. exists [], r. simpl.
        apply bool_decide_eq_false in He.
        split_and!; try done; try lia. intros Hr'. congruence.
    + intros [= <- <- <- <-]. exists [], r. simpl.
      apply bool_decide_eq_false in Hlt.
      split_and!; try done; try lia.
  - intros [= <- <- <- <-]. exists [], r. simpl.
    split_and!; try done; try lia. intros Hr'. congruence.
Qed.

(** A fetch: between one and [max 1 maxRetries] queries. *)
Lemma fetchTokenAccounts_queries c account w :
  ∃ answers r,
    log (fetchTokenAccounts c account w).2
      = log w ++ (EvResolveTokenAccounts account <$> (answers ++ [r])) ∧
    Forall (λ r0, resolveError r0 = Some errNoTokenAccounts) answers ∧
    (length (answers ++ [r]) ≤ Nat.max 1 (maxRetries c))%nat ∧
    (fetchTokenAccounts c account w).1 = (answered r, None) ∧
    (resolveError r = Some errNoTokenAccounts →
     length (answers ++ [r]) = Nat.max 1 (maxRetries c)).
Proof.
  unfold fetchTokenAccounts.
  pose proof (Retry_Loop (resolve_action account)
                [Limit (maxRetries c); RetriableErrors [errNoTokenAccounts]]
                (Nat.max 1 (maxRetries c)) (w, []) eq_refl) as Hl.
  destruct (Retry _ _ _) as [[j e] [w1 a1]].
  apply Loop_resolve in Hl as (answers & r & Hlog & Hall & Hlen & -> & -> & -> & Hend).
  exists answers, r. rewrite length_app. simpl.
  assert (∀ b : bool,
    log (if b then (([] : list PublicKey, None : error), w1)
         else ((answered r, None),
               set_accountCache
                 (cache_Add (Base58 account)
                    {| created := Now (remote w1); accounts := answered r |}
                    (accountCache w1)) w1)).2 = log w1) as Hsame by (by intros []).
  rewrite Hsame. split_and!; try done; [lia| |].
  - destruct (bool_decide (length (answered r) = 0%nat)) eqn:Hz; [|done].
    apply bool_decide_eq_true, nil_length_inv in Hz. simpl. by rewrite Hz.
  - intros Hr. specialize (Hend Hr). lia.
Qed.

End ResolveLoop.

Section ResolveQueries.
Context `{Externals} {R : Type} `{Service R}.
Implicit Types (w : World R) (c : clientOpts).

Lemma fetched_answers init (r : Err + list PublicKey) :
  Forall (λ r0, resolveError r0 = Some errNoTokenAccounts) init →
  (∀ k r0, (init ++ [r]) !! k = Some r0 → (S k < length (init ++ [r]))%nat →
           resolveError r0 = Some errNoTokenAccounts) ∧
  last (init ++ [r]) = Some r.
Proof.
  intros Hall. split; [|by rewrite last_snoc].
  intros k r0 Hk Hlt. rewrite length_app in Hlt. simpl in Hlt.
  rewrite lookup_app_l in Hk by lia.
  rewrite Forall_lookup in Hall. by eapply Hall.
Qed.

(** X1: [resolveTokenAccounts] asks the service for the token accounts of
    the account and of nothing else, at most [max 1 maxRetries] times; it
    asks again only after an answer that counts as [errNoTokenAccounts]
    (an empty list), so an RPC error or a non-empty list ends the loop at
    once; what it returns is the last answer; and it asks nothing at all
    exactly when the cache holds an entry younger than five minutes. *)
Theorem resolveTokenAccounts_queries c account w :
  ∃ answers,
    log (resolveTokenAccounts c account w).2
      = log w ++ (EvResolveTokenAccounts account <$> answers) ∧
    (length answers ≤ Nat.max 1 (maxRetries c))%nat ∧
    (∀ k r, answers !! k = Some r → (S k < length answers)%nat →
            resolveError r = Some errNoTokenAccounts) ∧
    (∀ r, last answers = Some r →
          (resolveTokenAccounts c account w).1 = (answered r, None) ∧
          (resolveError r = Some errNoTokenAccounts →
           length answers = Nat.max 1 (maxRetries c))) ∧
    (answers = [] ↔
     ∃ entry, cache_find (Base58 account) (accountCache w) = Some entry ∧
              Now (remote w) - created entry < fiveMinutes).
Proof.
  rewrite resolveTokenAccounts_unfold.
  destruct (cache_find (Base58 account) (accountCache w)) as [entry|] eqn:Hfind.
  - destruct (bool_decide (Now (remote w) - created entry < fiveMinutes)) eqn:Hfresh.
    + apply bool_decide_eq_true in Hfresh. exists []. simpl.
      rewrite app_nil_r. split_and!; try done; [lia|]. split; [|done].
      intros _. by exists entry.
    + apply bool_decide_eq_false in Hfresh.
      set (w0 := set_accountCache _ w).
      destruct (fetchTokenAccounts_queries c account w0)
        as (init & r & Hlog & Hall & Hlen & Hres & Hend).
      destruct (fetched_answers init r Hall) as [Hinit Hlast].
      exists (init ++ [r]). split_and!; try done.
      * intros r0. rewrite Hlast. by intros [= <-].
      * split; [by destruct init|]. intros (entry' & [= <-] & Hlt). done.
  - destruct (fetchTokenAccounts_queries c account w)
      as (init & r & Hlog & Hall & Hlen & Hres & Hend).
    destruct (fetched_answers init r Hall) as [Hinit Hlast].
    exists (init ++ [r]). split_and!; try done.
    + intros r0. rewrite Hlast. by intros [= <-].
    + split; [|by intros (? & ? & _)]. by destruct init.
Qed.

End ResolveQueries.

Section ResolveTwice.
Context `{Externals} {R : Type} `{Service R}.
Implicit Types (w : World R) (c : clientOpts).

Lemma resolveTokenAccounts_hit c account w entry :
  cache_find (Base58 account) (accountCache w) = Some entry →
  Now (remote w) - created entry < fiveMinutes →
  resolveTokenAccounts c account w
    = ((accounts entry, None),
       set_accountCache (cache_Get (Base58 account) (accountCache w)).2 w).
Proof.
  intros Hfind Hfresh. rewrite resolveTokenAccounts_unfold, Hfind.
  by rewrite bool_decide_eq_true_2.
Qed.

(** X2: once [resolveTokenAccounts] has returned token accounts for an
    account, asking again for the same account before the clock moves is
    answered from the cache: the same accounts and a nil error, with no
    call to the service. *)
Theorem resolveTokenAccounts_twice c account w w2 :
  (0 < size (accountCache w))%nat →
  (resolveTokenAccounts c account w).1.1 ≠ [] →
  accountCache w2 = accountCache (resolveTokenAccounts c account w).2 →
  Now (remote w2) = Now (remote (resolveTokenAccounts c account w).2) →
  (resolveTokenAccounts c account w2).1 = (resolveTokenAccounts c account w).1 ∧
  log (resolveTokenAccounts c account w2).2 = log w2 ∧
  remote (resolveTokenAccounts c account w2).2 = remote w2.
Proof.
  intros Hsize. rewrite (resolveTokenAccounts_unfold c account w).
  destruct (cache_find_Get (Base58 account) (accountCache w)) as (_ & Hget & HgetSize).
  assert (∀ w0 : World R,
    (0 < size (accountCache w0))%nat →
    (fetchTokenAccounts c account w0).1.1 ≠ [] →
    accountCache w2 = accountCache (fetchTokenAccounts c account w0).2 →
    Now (remote w2) = Now (remote (fetchTokenAccounts c account w0).2) →
    (resolveTokenAccounts c account w2).1 = (fetchTokenAccounts c account w0).1 ∧
    log (resolveTokenAccounts c account w2).2 = log w2 ∧
    remote (resolveTokenAccounts c account w2).2 = remote w2) as Hfetch.
  { intros w0 Hsize0.
    destruct (fetchTokenAccounts c account w0) as [[accts err] w1] eqn:Hf.
    apply fetchTokenAccounts_spec in Hf as (-> & _ & _ & _ & evs & r & _ & _ & _ & Hcache).
    simpl. intros Hne Hc2 Hnow.
    rewrite bool_decide_eq_false_2 in Hcache
      by (intros Hz; by apply nil_length_inv in Hz).
    rewrite (resolveTokenAccounts_hit c account w2
               {| created := Now (remote w1); accounts := accts |}).
    - done.
    - rewrite Hc2, Hcache. by apply cache_find_Add.
    - simpl. rewrite Hnow. unfold fiveMinutes. lia. }
  destruct (cache_find (Base58 account) (accountCache w)) as [entry|] eqn:Hfind.
  - destruct (bool_decide (Now (remote w) - created entry < fiveMinutes)) eqn:Hfresh.
    + apply bool_decide_eq_true in Hfresh. simpl. intros _ Hc2 Hnow.
      rewrite (resolveTokenAccounts_hit c account w2 entry); [done| |].
      * rewrite Hc2. congruence.
      * by rewrite Hnow.
    + apply Hfetch. simpl. by rewrite HgetSize.
  - by apply Hfetch.
Qed.

End ResolveTwice.

(** X2: bob's token account is fetched by the first call and served from
    the cache by the second. *)
Lemma resolveTokenAccounts_twice_witness :
  (resolveTokenAccounts scriptedOpts bob
     (resolveTokenAccounts scriptedOpts bob (scriptedWorld 4 bobTokenScript)).2).1
    = ([bobToken], None) ∧
  log (resolveTokenAccounts scriptedOpts bob
         (resolveTokenAccounts scriptedOpts bob (scriptedWorld 4 bobTokenScript)).2).2
    = [EvResolveTokenAccounts bob (inr [bobToken])].
Proof.
  destruct (resolveTokenAccounts_twice (R := Script) scriptedOpts bob
              (scriptedWorld 4 bobTokenScript)
              (resolveTokenAccounts scriptedOpts bob (scriptedWorld 4 bobTokenScript)).2)
    as (Hsame & Hlog & _);
    [vm_compute; lia|vm_compute; discriminate|reflexivity|reflexivity|].
  rewrite Hsame, Hlog. split; vm_compute; reflexivity.
Defined.

(** ** Which ledger a call talks to *)

#[global] Instance logged_preorder {R : Type} (P : Event → Prop) :
  PreOrder (logged (R := R) P).
Proof.
  split.
  - intros w. exists []. by rewrite app_nil_r.
  - intros w1 w2 w3 (e1 & Hl1 & Hf1) (e2 & Hl2 & Hf2).
    exists (e1 ++ e2). rewrite Hl2, Hl1, app_assoc. split; [done|]. by apply Forall_app.
Qed.

Lemma logged_mono {R : Type} (P Q : Event → Prop) (w w' : World R) :
  (∀ e, P e → Q e) → logged P w w' → logged Q w w'.
Proof.
  intros HPQ (evs & Hl & Hf). exists evs. split; [done|]. by eapply Forall_impl.
Qed.

Lemma logged_same {R : Type} (P : Event → Prop) (w w' : World R) :
  log w' = log w → logged P w w'.
Proof. intros Hl. exists []. by rewrite app_nil_r. Qed.

Lemma retryTrace_Forall {L : Type} (attempt : L → list Event → error → L → Prop)
    (P : Event → Prop) n i l evs err l' :
  (∀ l0 evs0 err0 l1, attempt l0 evs0 err0 l1 → Forall P evs0) →
  retryTrace attempt n i l evs err l' → Forall P evs.
Proof.
  intros Hatt. induction 1 as [i l evs err l' Ha _|i l evs1 l1 evs err l' Ha _ _ IH].
  - by eapply Hatt.
  - apply Forall_app. split; [by eapply Hatt|done].
Qed.

Section Ledgers.
Context `{Externals} {R : Type} `{Service R}.
Implicit Types (w : World R) (c : clientOpts).

(** The retry loop of the token ledger makes no token-account query. *)
Lemma signAndSubmitTx_logged_strict c signers tx cm il dedupeId w :
  logged (λ e, onTokenLedger cm dedupeId e ∧ ¬ isQuery e) w
         (signAndSubmitTx c signers tx cm il dedupeId w).2.
Proof.
  destruct (signAndSubmitTx c signers tx cm il dedupeId w) as [[result err] w'] eqn:Hs.
  apply signAndSubmitTx_spec in Hs as (_ & _ & _ & _ & evs & tx' & Hlog & Htrace).
  exists (CallSignAndSubmitTx signers tx cm il dedupeId :: evs). split; [done|].
  constructor; [by split; [|intros []]|].
  eapply retryTrace_Forall; [|done].
  intros l0 evs0 err0 l1 Ha.
  destruct Ha; repeat constructor; by intros [].
Qed.

Lemma signAndSubmitTx_logged c signers tx cm il dedupeId w :
  logged (onTokenLedger cm dedupeId) w (signAndSubmitTx c signers tx cm il dedupeId w).2.
Proof. eapply logged_mono; [|apply signAndSubmitTx_logged_strict]. by intros e [? _]. Qed.

Lemma signAndSubmitXDR_logged c signers envelope il w :
  logged onLegacyLedger w (signAndSubmitXDR c signers envelope il w).2.
Proof.
  destruct signers as [|s0 rest].
  - exists [CallSignAndSubmitXDR [] envelope il]. split; [done|]. by repeat constructor.
  - destruct (signAndSubmitXDR c (s0 :: rest) envelope il w) as [[result err] w'] eqn:Hs.
    apply signAndSubmitXDR_spec in Hs as (_ & _ & _ & _ & info & evs & Hlog & Hinfo).
    eexists. split; [done|]. constructor; [done|]. constructor; [done|].
    destruct info as [e|senderInfo].
    + destruct Hinfo as (-> & _). constructor.
    + destruct Hinfo as (off & Htrace).
      eapply retryTrace_Forall; [|done].
      intros l0 evs0 err0 l1 Ha. destruct Ha; repeat constructor.
Qed.

Lemma logged_resolveQueries (P : Event → Prop) w w' :
  (∀ e, P e → ¬ isQuery e) → logged P w w' →
  resolveQueries (log w') = resolveQueries (log w).
Proof.
  intros HP (evs & -> & Hall). rewrite resolveQueries_app.
  assert (resolveQueries evs = []) as ->; [|by rewrite app_nil_r].
  induction Hall as [|e evs He _ IH]; [done|].
  apply HP in He. destruct e; try exact IH. by destruct He.
Qed.

Lemma resolveTokenAccounts_logged c account w :
  logged (λ e, ∃ r, e = EvResolveTokenAccounts account r) w
         (resolveTokenAccounts c account w).2.
Proof.
  rewrite resolveTokenAccounts_unfold.
  assert (∀ w0, log w0 = log w →
    logged (λ e, ∃ r, e = EvResolveTokenAccounts account r) w
           (fetchTokenAccounts c account w0).2) as Hfetch.
  { intros w0 Hw0.
    destruct (fetchTokenAccounts_queries c account w0) as (init & r & Hlog & _).
    rewrite Hw0 in Hlog. eexists. split; [done|].
    apply Forall_fmap, Forall_forall. intros r0 _. by exists r0. }
  destruct (cache_find _ _) as [entry|]; [|by apply Hfetch].
  destruct (bool_decide _); [by apply logged_same|by apply Hfetch].
Qed.

Lemma resolvedFirst_queries mode c key w :
  logged isQuery w (resolvedFirst mode c key w).2.
Proof.
  unfold resolvedFirst. destruct (is_Preferred mode); [|done].
  pose proof (resolveTokenAccounts_logged c key w) as Hl.
  destruct (resolveTokenAccounts c key w) as [[accts err] w']. simpl in *.
  eapply logged_mono; [|done]. by intros e [r ->].
Qed.

Lemma isQuery_onTokenLedger cm dedupeId e : isQuery e → onTokenLedger cm dedupeId e.
Proof. by destruct e. Qed.

Lemma resolvedFirst_logged mode c key cm dedupeId w :
  logged (onTokenLedger cm dedupeId) w (resolvedFirst mode c key w).2.
Proof.
  eapply logged_mono; [apply isQuery_onTokenLedger|apply resolvedFirst_queries].
Qed.

Lemma rpc_GetServiceConfig_logged cm dedupeId w :
  logged (onTokenLedger cm dedupeId) w (rpc_GetServiceConfig w).2.
Proof.
  unfold rpc_GetServiceConfig. destruct (GetServiceConfig (remote w)) as [r s].
  exists [EvGetServiceConfig r]. split; [done|]. by repeat constructor.
Qed.

Lemma submitSolanaPayment_logged c payment config cm ts sub w :
  logged (onTokenLedger cm (DedupeID payment)) w
         (submitSolanaPayment c payment config cm ts sub w).2.
Proof.
  unfold submitSolanaPayment.
  destruct (solanaPaymentTx c payment config ts sub) as [e|[[signers tx] il]]; [done|].
  apply signAndSubmitTx_logged.
Qed.

Lemma withDestination_DedupeID da payment :
  DedupeID (withDestination da payment) = DedupeID payment.
Proof. by destruct da. Qed.

Lemma submitPaymentWithResolution_logged c payment o w :
  logged (onTokenLedger (commitment o) (DedupeID payment)) w
         (submitPaymentWithResolution c payment o w).2.
Proof.
  rewrite submitPaymentWithResolution_unfold.
  pose proof (rpc_GetServiceConfig_logged (commitment o) (DedupeID payment) w) as H1.
  destruct (rpc_GetServiceConfig w) as [[e|config] w1]; [done|]. simpl in H1.
  destruct (_ && _); [done|].
  pose proof (submitSolanaPayment_logged c payment config (commitment o) None
                (subsidizer o) w1) as H2.
  destruct (submitSolanaPayment c payment config (commitment o) None (subsidizer o) w1)
    as [[result [e|]] w2]; simpl in H2; [by etrans|].
  destruct (err_is _ _); [|by etrans].
  pose proof (resolvedFirst_logged (accountResolution o) c (Public (Sender payment))
                (commitment o) (DedupeID payment) w2) as H3.
  destruct (resolvedFirst (accountResolution o) c (Public (Sender payment)) w2)
    as [sa w3]. simpl in H3.
  pose proof (resolvedFirst_logged (destResolution o) c (Destination payment)
                (commitment o) (DedupeID payment) w3) as H4.
  destruct (resolvedFirst (destResolution o) c (Destination payment) w3) as [da w4].
  simpl in H4.
  assert (logged (onTokenLedger (commitment o) (DedupeID payment)) w w4) as H5
    by (etrans; [done|]; etrans; [done|]; by etrans).
  destruct (_ || _); [|done].
  etrans; [done|]. rewrite <- (withDestination_DedupeID da payment).
  apply submitSolanaPayment_logged.
Qed.

End Ledgers.

Section PaymentLedgers.
Context `{Externals} {R : Type} `{Service R}.
Implicit Types (w : World R) (c : clientOpts).

(** X3: the calls [SubmitPayment] makes come in two runs: first calls of
    the legacy ledger (none when the client is on version 4), then calls
    of the token ledger, which are made only once the client is on
    version 4; the call never goes back to the legacy ledger.  Every
    transaction handed over or submitted on the token ledger goes under
    the commitment of the options (the default commitment when none is
    given) and carries the dedupe id of the payment. *)
Theorem SubmitPayment_ledgers c payment opts w :
  ∃ legacy token,
    log (SubmitPayment c payment opts w).2 = log w ++ legacy ++ token ∧
    Forall onLegacyLedger legacy ∧
    Forall (onTokenLedger (commitment (apply_opts opts (defaultSolanaOpts c)))
                          (DedupeID payment)) token ∧
    (kinVersion w = 4 → legacy = []) ∧
    (token ≠ [] → kinVersion (SubmitPayment c payment opts w).2 = 4).
Proof.
  unfold SubmitPayment.
  assert (∀ w0 : World R, ∃ legacy token : list Event,
    log w0 = log w0 ++ legacy ++ token ∧ Forall onLegacyLedger legacy ∧
    Forall (onTokenLedger (commitment (apply_opts opts (defaultSolanaOpts c)))
                          (DedupeID payment)) token ∧
    (kinVersion w = 4 → legacy = []) ∧ (token ≠ [] → kinVersion w0 = 4)) as Hnone.
  { intros w0. exists [], []. by rewrite app_nil_r. }
  destruct (bool_decide (kinVersion w > 4 ∨ kinVersion w < 2)); [apply Hnone|].
  destruct (_ && _); [apply Hnone|].
  destruct (bool_decide (kinVersion w = 4)) eqn:Hv.
  - apply bool_decide_eq_true in Hv.
    pose proof (submitPaymentWithResolution_frame c payment
                  (apply_opts opts (defaultSolanaOpts c)) w) as (Hcv & _).
    destruct (submitPaymentWithResolution_logged c payment
                (apply_opts opts (defaultSolanaOpts c)) w) as (token & Hlog & Htoken).
    destruct (submitPaymentWithResolution _ _ _ _) as [r w']. simpl in *.
    exists [], token. split_and!; try done.
    intros _. injection Hcv as -> _ _. done.
  - apply bool_decide_eq_false in Hv.
    destruct (legacyPaymentEnvelope c (kinVersion w) payment)
      as [e|[[signers envelope] il]] eqn:Hasm; [apply Hnone|].
    destruct (signAndSubmitXDR_logged c signers envelope il w) as (legacy & Hlog1 & Hlegacy).
    destruct (signAndSubmitXDR c signers envelope il w) as [[result err] w1].
    simpl in Hlog1.
    destruct (_ && _).
    + pose proof (submitPaymentWithResolution_frame c payment
                    (apply_opts opts (defaultSolanaOpts c)) (set_kinVersions 4 w1))
        as (Hcv & _).
      destruct (submitPaymentWithResolution_logged c payment
                  (apply_opts opts (defaultSolanaOpts c)) (set_kinVersions 4 w1))
        as (token & Hlog & Htoken).
      destruct (submitPaymentWithResolution _ _ _ _) as [r w']. simpl in *.
      exists legacy, token. rewrite Hlog, Hlog1, <- app_assoc.
      split_and!; try done. intros _. by injection Hcv as -> _ _.
    + simpl. exists legacy, []. rewrite app_nil_r. split_and!; done.
Qed.

End PaymentLedgers.

Section EarnBatchLedgers.
Context `{Externals} {R : Type} `{Service R}.
Implicit Types (w : World R) (c : clientOpts).

Lemma submitSolanaEarnBatch_logged c batch config cm ts sub w :
  logged (onTokenLedger cm (BDedupeID batch)) w
         (submitSolanaEarnBatch c batch config cm ts sub w).2.
Proof.
  unfold submitSolanaEarnBatch.
  destruct (solanaEarnBatchTx _ _ _ _ _ _) as [e|[[signers tx] il]]; [done|].
  apply signAndSubmitTx_logged.
Qed.

Lemma resolveEarnDestinations_queries c batch n i resubmit w :
  logged isQuery w (resolveEarnDestinations c batch i n resubmit w).2.
Proof.
  revert i resubmit w. induction n as [|n IH]; intros i resubmit w; [done|].
  cbn [resolveEarnDestinations].
  destruct (earnsOf batch w !! i) as [earn|]; [|done].
  pose proof (resolveTokenAccounts_logged c (EDestination earn) w) as Hl.
  destruct (resolveTokenAccounts c (EDestination earn) w) as [[accts err] w1].
  simpl in Hl.
  assert (logged isQuery w w1) as Hl1.
  { eapply logged_mono; [|done]. by intros ev [r ->]. }
  destruct err as [e|]; [done|].
  destruct (head accts) as [d|].
  - etrans; [done|]. etrans; [|apply IH].
    apply logged_same. by destruct (storeDestination_frame batch i d w1) as (_&_&_&_&->&_).
  - etrans; [done|]. apply IH.
Qed.

Lemma resolveEarnDestinations_logged c batch cm dedupeId n i resubmit w :
  logged (onTokenLedger cm dedupeId) w
         (resolveEarnDestinations c batch i n resubmit w).2.
Proof.
  eapply logged_mono; [apply isQuery_onTokenLedger|apply resolveEarnDestinations_queries].
Qed.

Lemma submitEarnBatchWithResolution_logged c batch config o w :
  logged (onTokenLedger (commitment o) (BDedupeID batch)) w
         (submitEarnBatchWithResolution c batch config o w).2.
Proof.
  rewrite submitEarnBatchWithResolution_unfold.
  pose proof (submitSolanaEarnBatch_logged c batch config (commitment o) None
                (subsidizer o) w) as H1.
  destruct (submitSolanaEarnBatch c batch config (commitment o) None (subsidizer o) w)
    as [[result [e|]] w1]; simpl in H1; [done|].
  destruct (err_is _ _); [|done].
  pose proof (resolvedFirst_logged (accountResolution o) c (Public (BSender batch))
                (commitment o) (BDedupeID batch) w1) as H2.
  destruct (resolvedFirst (accountResolution o) c (Public (BSender batch)) w1)
    as [sa w2]. simpl in H2.
  assert (logged (onTokenLedger (commitment o) (BDedupeID batch)) w2
            (if is_Preferred (destResolution o)
             then resolveEarnDestinations c batch 0 (length (earnsOf batch w2))
                    (bool_decide (is_Some sa)) w2
             else ((None, bool_decide (is_Some sa)), w2)).2) as H3.
  { destruct (is_Preferred _); [apply resolveEarnDestinations_logged|done]. }
  destruct (if is_Preferred (destResolution o) then _ else _) as [[derr resubmit] w3].
  simpl in H3.
  assert (logged (onTokenLedger (commitment o) (BDedupeID batch)) w w3) as H4
    by (etrans; [done|]; by etrans).
  destruct resubmit; [|done].
  etrans; [done|]. apply submitSolanaEarnBatch_logged.
Qed.

Lemma submitEarnBatch_logged c batch w :
  logged onLegacyLedger w (submitEarnBatch c batch w).2.
Proof.
  unfold submitEarnBatch.
  destruct (legacyEarnBatchEnvelope _ _ _ _) as [e|[[signers envelope] il]]; [done|].
  pose proof (signAndSubmitXDR_logged c signers envelope il w) as Hl.
  destruct (signAndSubmitXDR c signers envelope il w) as [[result [e|]] w1]; [done|].
  by destruct (bool_decide _).
Qed.

(** X4: [SubmitEarnBatch] talks to one ledger only, the one of the
    client's version when the call is made: on version 4 every call is a
    call of the token ledger, under the commitment of the options and
    with the dedupe id of the batch; on the other versions every call is
    a call of the legacy ledger. *)
Theorem SubmitEarnBatch_ledgers c batch opts w :
  (kinVersion w = 4 →
   logged (onTokenLedger (commitment (apply_opts opts (defaultSolanaOpts c)))
                         (BDedupeID batch)) w (SubmitEarnBatch c batch opts w).2) ∧
  (kinVersion w ≠ 4 → logged onLegacyLedger w (SubmitEarnBatch c batch opts w).2).
Proof.
  unfold SubmitEarnBatch.
  destruct (bool_decide (kinVersion w > 4 ∨ kinVersion w < 2)) eqn:Hrange; [done|].
  apply bool_decide_eq_false in Hrange.
  destruct (checkEarnBatch _ _ _); [done|].
  destruct (bool_decide (kinVersion w = 2 ∨ kinVersion w = 3)) eqn:Hv.
  - apply bool_decide_eq_true in Hv. split; [lia|]. intros _.
    pose proof (submitEarnBatch_logged c batch w) as Hl.
    by destruct (submitEarnBatch c batch w) as [[result [e|]] w1].
  - apply bool_decide_eq_false in Hv.
    assert (logged (onTokenLedger (commitment (apply_opts opts (defaultSolanaOpts c)))
                      (BDedupeID batch)) w
              (let '(rc, w1) := rpc_GetServiceConfig w in
               match rc with
               | inl e => ((zeroEarnBatchResult, Some e), w1)
               | inr config =>
                   if bool_decide (SubsidizerAccount config = None)
                      && bool_decide (subsidizer (apply_opts opts (defaultSolanaOpts c)) = None)
                   then ((zeroEarnBatchResult, Some ErrNoSubsidizer), w1)
                   else
                     let '((submitResult, err), w2) :=
                       submitEarnBatchWithResolution c batch config
                         (apply_opts opts (defaultSolanaOpts c)) w1 in
                     match err with
                     | Some e => ((zeroEarnBatchResult, Some e), w2)
                     | None => ((earnBatchResult submitResult, None), w2)
                     end
               end).2) as Htoken.
    { pose proof (rpc_GetServiceConfig_logged
                    (commitment (apply_opts opts (defaultSolanaOpts c)))
                    (BDedupeID batch) w) as H1.
      destruct (rpc_GetServiceConfig w) as [[e|config] w1]; [done|]. simpl in H1.
      destruct (_ && _); [done|].
      pose proof (submitEarnBatchWithResolution_logged c batch config
                    (apply_opts opts (defaultSolanaOpts c)) w1) as H2.
      destruct (submitEarnBatchWithResolution _ _ _ _ _) as [[result [e|]] w2];
        simpl in *; by etrans. }
    split; [done|]. intros Hne.
    eapply logged_mono; [|apply Htoken].
    (* versions other than 2, 3 and 4 were turned away *)
    intros e _. exfalso. revert Hrange Hv Hne. clear. intros. lia.
Qed.

End EarnBatchLedgers.

(** ** What is written to the caller's earns *)

#[global] Instance sameButDestinations_preorder {R : Type} (batch : EarnBatch) :
  PreOrder (sameButDestinations (R := R) batch).
Proof.
  split; [by intros w|].
  intros w1 w2 w3 [Ho1 Ha1] [Ho2 Ha2]. split; [|congruence].
  intros l Hl. rewrite Ho2, Ho1; done.
Qed.

Lemma sameButDestinations_heap {R : Type} (batch : EarnBatch) (w w' : World R) :
  heap w' = heap w → sameButDestinations batch w w'.
Proof. intros Hh. split; by rewrite Hh. Qed.

Section CallerEarns.
Context `{Externals} {R : Type} `{Service R}.
Implicit Types (w : World R) (c : clientOpts).

Lemma storeDestination_amounts batch i d w :
  sameButDestinations batch w (storeDestination batch i d w).
Proof.
  unfold storeDestination, sameButDestinations.
  destruct (heap w !! Earns batch) as [earns|] eqn:Hearns; [|by rewrite Hearns].
  destruct (earns !! i) as [e|] eqn:He; [|by rewrite Hearns]. simpl. split.
  - intros l Hl. by rewrite lookup_insert_ne.
  - rewrite lookup_insert_eq. simpl. f_equal. unfold amounts.
    rewrite list_fmap_insert. simpl. apply list_insert_id.
    rewrite list_lookup_fmap, He. done.
Qed.

Lemma resolveTokenAccounts_heap c account w :
  heap (resolveTokenAccounts c account w).2 = heap w.
Proof.
  destruct (resolveTokenAccounts c account w) as [[accts err] w'] eqn:Hr.
  apply resolveTokenAccounts_frame in Hr as (_ & Hcv & _). by injection Hcv.
Qed.

Lemma resolveEarnDestinations_amounts c batch n i resubmit w :
  sameButDestinations batch w (resolveEarnDestinations c batch i n resubmit w).2.
Proof.
  revert i resubmit w. induction n as [|n IH]; intros i resubmit w; [done|].
  cbn [resolveEarnDestinations].
  destruct (earnsOf batch w !! i) as [earn|]; [|done].
  pose proof (resolveTokenAccounts_heap c (EDestination earn) w) as Hh.
  destruct (resolveTokenAccounts c (EDestination earn) w) as [[accts [e|]] w1];
    simpl in Hh; [by apply sameButDestinations_heap|].
  destruct (head accts) as [d|].
  - etrans; [by apply sameButDestinations_heap|].
    etrans; [apply storeDestination_amounts|apply IH].
  - etrans; [by apply sameButDestinations_heap|apply IH].
Qed.

Lemma submitSolanaEarnBatch_heap c batch config cm ts sub w :
  heap (submitSolanaEarnBatch c batch config cm ts sub w).2 = heap w.
Proof.
  destruct (submitSolanaEarnBatch c batch config cm ts sub w) as [[result err] w'] eqn:Hs.
  apply submitSolanaEarnBatch_spec in Hs as (Hcv & _). by injection Hcv.
Qed.

Lemma submitEarnBatch_heap c batch w : heap (submitEarnBatch c batch w).2 = heap w.
Proof.
  unfold submitEarnBatch.
  destruct (legacyEarnBatchEnvelope _ _ _ _) as [e|[[signers envelope] il]] eqn:Hasm;
    [done|].
  destruct (legacyEarnBatchEnvelope_signers _ _ _ _ _ _ _ Hasm) as (s0 & rest & ->).
  destruct (signAndSubmitXDR c (s0 :: rest) envelope il w) as [[result err] w1] eqn:Hxdr.
  apply signAndSubmitXDR_spec in Hxdr as (Hcv1 & _). injection Hcv1 as _ _ Hh.
  destruct err; [done|]. by destruct (bool_decide _).
Qed.

Lemma submitEarnBatchWithResolution_amounts c batch config o w :
  sameButDestinations batch w (submitEarnBatchWithResolution c batch config o w).2 ∧
  (destResolution o = AccountResolutionExact →
   heap (submitEarnBatchWithResolution c batch config o w).2 = heap w).
Proof.
  rewrite submitEarnBatchWithResolution_unfold.
  pose proof (submitSolanaEarnBatch_heap c batch config (commitment o) None
                (subsidizer o) w) as H1.
  destruct (submitSolanaEarnBatch c batch config (commitment o) None (subsidizer o) w)
    as [[result [e|]] w1]; simpl in H1;
    [by split; [apply sameButDestinations_heap|]|].
  destruct (err_is _ _); [|by split; [apply sameButDestinations_heap|]].
  pose proof (resolvedFirst_frame (accountResolution o) c (Public (BSender batch)) w1)
    as (Hcv2 & _).
  destruct (resolvedFirst (accountResolution o) c (Public (BSender batch)) w1)
    as [sa w2]. simpl in Hcv2. injection Hcv2 as _ _ H2.
  assert (sameButDestinations batch w2
            (if is_Preferred (destResolution o)
             then resolveEarnDestinations c batch 0 (length (earnsOf batch w2))
                    (bool_decide (is_Some sa)) w2
             else ((None, bool_decide (is_Some sa)), w2)).2 ∧
          (destResolution o = AccountResolutionExact →
           heap (if is_Preferred (destResolution o)
                 then resolveEarnDestinations c batch 0 (length (earnsOf batch w2))
                        (bool_decide (is_Some sa)) w2
                 else ((None, bool_decide (is_Some sa)), w2)).2 = heap w2)) as [H3 H3'].
  { unfold is_Preferred. destruct (destResolution o); simpl.
    - done.
    - split; [apply resolveEarnDestinations_amounts|done]. }
  destruct (if is_Preferred (destResolution o) then _ else _) as [[derr resubmit] w3].
  simpl in H3, H3'.
  assert (sameButDestinations batch w w3) as H4.
  { etrans; [by apply sameButDestinations_heap|].
    etrans; [by apply sameButDestinations_heap|done]. }
  destruct resubmit.
  - pose proof (submitSolanaEarnBatch_heap c batch config (commitment o) sa
                  (subsidizer o) w3) as H5.
    split; [etrans; [done|by apply sameButDestinations_heap]|].
    intros Hexact. rewrite H5, (H3' Hexact). congruence.
  - split; [done|]. intros Hexact. simpl. rewrite (H3' Hexact). congruence.
Qed.

(** X5: all that [SubmitEarnBatch] ever writes to the caller's memory are
    destinations of earns of the batch: other memory is left as it is,
    and behind [batch.Earns] there are as many earns as before, with the
    same quarks and invoices, in the same order.  On the versions before
    4, and on version 4 with [WithDestResolution(AccountResolutionExact)],
    nothing at all is written. *)
Theorem SubmitEarnBatch_writes_destinations_only c batch opts w :
  sameButDestinations batch w (SubmitEarnBatch c batch opts w).2 ∧
  (kinVersion w ≠ 4 ∨
   destResolution (apply_opts opts (defaultSolanaOpts c)) = AccountResolutionExact →
   heap (SubmitEarnBatch c batch opts w).2 = heap w).
Proof.
  unfold SubmitEarnBatch.
  destruct (bool_decide (kinVersion w > 4 ∨ kinVersion w < 2)) eqn:Hrange; [done|].
  apply bool_decide_eq_false in Hrange.
  destruct (checkEarnBatch _ _ _); [done|].
  destruct (bool_decide (kinVersion w = 2 ∨ kinVersion w = 3)) eqn:Hv.
  - pose proof (submitEarnBatch_heap c batch w) as Hh.
    destruct (submitEarnBatch c batch w) as [[submitResult [e|]] w1]; simpl in *;
      (split; [by apply sameButDestinations_heap|done]).
  - apply bool_decide_eq_false in Hv.
    pose proof (rpc_GetServiceConfig_quiet w) as Hq.
    destruct (rpc_GetServiceConfig w) as [[e|config] w1]; simpl in Hq;
      apply quietView_inv in Hq as (Hcv & _); injection Hcv as _ _ Hh1;
      [by split; [apply sameButDestinations_heap|]|].
    destruct (_ && _); [by split; [apply sameButDestinations_heap|]|].
    destruct (submitEarnBatchWithResolution_amounts c batch config
                (apply_opts opts (defaultSolanaOpts c)) w1) as [Hsame Hexact].
    destruct (submitEarnBatchWithResolution _ _ _ _ _) as [[submitResult err] w2].
    simpl in Hsame, Hexact.
    assert (sameButDestinations batch w w2) as Hall
      by (etrans; [by apply sameButDestinations_heap|done]).
    assert (kinVersion w ≠ 4 ∨
            destResolution (apply_opts opts (defaultSolanaOpts c)) = AccountResolutionExact →
            heap w2 = heap w) as Hsafe.
    { intros [Hne|Hex]; [lia|]. rewrite (Hexact Hex). done. }
    by destruct err.
Qed.

End CallerEarns.

(** ** Submitting without account resolution *)

#[global] Instance unresolved_preorder {R : Type} : PreOrder (unresolved (R := R)).
Proof.
  split; [by intros w|]. intros w1 w2 w3 [Hq1 Hc1] [Hq2 Hc2]. split; congruence.
Qed.

Section Exact.
Context `{Externals} {R : Type} `{Service R}.
Implicit Types (w : World R) (c : clientOpts).

Lemma signAndSubmitTx_unresolved c signers tx cm il dedupeId w :
  unresolved w (signAndSubmitTx c signers tx cm il dedupeId w).2.
Proof.
  split.
  - eapply logged_resolveQueries; [|apply signAndSubmitTx_logged_strict]. by intros e [_ ?].
  - destruct (signAndSubmitTx c signers tx cm il dedupeId w) as [[result err] w'] eqn:Hs.
    by apply signAndSubmitTx_spec in Hs as (_ & ? & _).
Qed.

Lemma signAndSubmitXDR_unresolved c s0 rest envelope il w :
  unresolved w (signAndSubmitXDR c (s0 :: rest) envelope il w).2.
Proof.
  split.
  - eapply logged_resolveQueries; [|apply signAndSubmitXDR_logged].
    intros e He Hq. by destruct e.
  - destruct (signAndSubmitXDR c (s0 :: rest) envelope il w) as [[result err] w'] eqn:Hs.
    by apply signAndSubmitXDR_spec in Hs as (_ & ? & _).
Qed.

Lemma rpc_GetServiceConfig_unresolved w : unresolved w (rpc_GetServiceConfig w).2.
Proof.
  split.
  - unfold rpc_GetServiceConfig. destruct (GetServiceConfig (remote w)) as [r s]. simpl.
    by rewrite resolveQueries_app, app_nil_r.
  - pose proof (rpc_GetServiceConfig_quiet w) as Hq.
    by apply quietView_inv in Hq as (_ & ? & _).
Qed.

Lemma submitSolanaPayment_unresolved c payment config cm ts sub w :
  unresolved w (submitSolanaPayment c payment config cm ts sub w).2 ∧
  (length (submittedTxs (log (submitSolanaPayment c payment config cm ts sub w).2))
   ≤ length (submittedTxs (log w)) + 1)%nat.
Proof.
  split.
  - unfold submitSolanaPayment.
    destruct (solanaPaymentTx _ _ _ _ _) as [e|[[signers tx] il]]; [done|].
    apply signAndSubmitTx_unresolved.
  - destruct (submitSolanaPayment c payment config cm ts sub w) as [[result err] w'] eqn:Hs.
    apply submitSolanaPayment_spec in Hs as (_ & _ & _ & Htx). simpl.
    rewrite Htx, length_app. destruct (solanaPaymentTx _ _ _ _ _) as [e|[[? ?] ?]];
      simpl; lia.
Qed.

Lemma submitSolanaEarnBatch_unresolved c batch config cm ts sub w :
  unresolved w (submitSolanaEarnBatch c batch config cm ts sub w).2 ∧
  (length (submittedTxs (log (submitSolanaEarnBatch c batch config cm ts sub w).2))
   ≤ length (submittedTxs (log w)) + 1)%nat.
Proof.
  split.
  - unfold submitSolanaEarnBatch.
    destruct (solanaEarnBatchTx _ _ _ _ _ _) as [e|[[signers tx] il]]; [done|].
    apply signAndSubmitTx_unresolved.
  - destruct (submitSolanaEarnBatch c batch config cm ts sub w)
      as [[result err] w'] eqn:Hs.
    apply submitSolanaEarnBatch_spec in Hs as (_ & _ & _ & Htx). simpl.
    rewrite Htx, length_app. destruct (solanaEarnBatchTx _ _ _ _ _ _) as [e|[[? ?] ?]];
      simpl; lia.
Qed.

Lemma submitPaymentWithResolution_exact c payment o w :
  accountResolution o = AccountResolutionExact →
  destResolution o = AccountResolutionExact →
  unresolved w (submitPaymentWithResolution c payment o w).2 ∧
  (length (submittedTxs (log (submitPaymentWithResolution c payment o w).2))
   ≤ length (submittedTxs (log w)) + 1)%nat.
Proof.
  intros Ha Hd. rewrite submitPaymentWithResolution_unfold.
  pose proof (rpc_GetServiceConfig_unresolved w) as H1.
  pose proof (rpc_GetServiceConfig_quiet w) as Hq.
  apply quietView_inv in Hq as (_ & _ & Htx & _).
  destruct (rpc_GetServiceConfig w) as [[e|config] w1]; simpl in *;
    [split; [done|rewrite Htx; lia]|].
  destruct (_ && _); simpl; [split; [done|rewrite Htx; lia]|].
  destruct (submitSolanaPayment_unresolved c payment config (commitment o) None
              (subsidizer o) w1) as [H2 Hlen].
  destruct (submitSolanaPayment c payment config (commitment o) None (subsidizer o) w1)
    as [[result err] w2]. simpl in H2, Hlen.
  assert (unresolved w w2) as H3 by by etrans.
  assert (length (submittedTxs (log w2)) ≤ length (submittedTxs (log w)) + 1)%nat
    as Hlen' by (rewrite <- Htx; done).
  destruct err as [e|]; [done|].
  destruct (err_is _ _); [|done].
  unfold resolvedFirst. rewrite Ha, Hd. done.
Qed.

Lemma submitEarnBatchWithResolution_exact c batch config o w :
  accountResolution o = AccountResolutionExact →
  destResolution o = AccountResolutionExact →
  unresolved w (submitEarnBatchWithResolution c batch config o w).2 ∧
  (length (submittedTxs (log (submitEarnBatchWithResolution c batch config o w).2))
   ≤ length (submittedTxs (log w)) + 1)%nat.
Proof.
  intros Ha Hd. rewrite submitEarnBatchWithResolution_unfold.
  destruct (submitSolanaEarnBatch_unresolved c batch config (commitment o) None
              (subsidizer o) w) as [H2 Hlen].
  destruct (submitSolanaEarnBatch c batch config (commitment o) None (subsidizer o) w)
    as [[result err] w2]. simpl in H2, Hlen.
  destruct err as [e|]; [done|].
  destruct (err_is _ _); [|done].
  unfold resolvedFirst. rewrite Ha, Hd. done.
Qed.

(** X6: with the account resolution and the destination resolution both
    set to [AccountResolutionExact], [SubmitPayment] and [SubmitEarnBatch]
    never ask for token accounts, leave the account cache as it is, and
    hand at most one transaction to the token ledger: there is no second
    submission. *)
Theorem exact_resolution_submits_once c opts w :
  accountResolution (apply_opts opts (defaultSolanaOpts c)) = AccountResolutionExact →
  destResolution (apply_opts opts (defaultSolanaOpts c)) = AccountResolutionExact →
  (∀ payment,
     unresolved w (SubmitPayment c payment opts w).2 ∧
     (length (submittedTxs (log (SubmitPayment c payment opts w).2))
      ≤ length (submittedTxs (log w)) + 1)%nat) ∧
  (∀ batch,
     unresolved w (SubmitEarnBatch c batch opts w).2 ∧
     (length (submittedTxs (log (SubmitEarnBatch c batch opts w).2))
      ≤ length (submittedTxs (log w)) + 1)%nat).
Proof.
  intros Ha Hd. split.
  - intros payment. unfold SubmitPayment.
    destruct (bool_decide (kinVersion w > 4 ∨ kinVersion w < 2)); [split; [done|simpl; lia]|].
    destruct (_ && _); [split; [done|simpl; lia]|].
    destruct (bool_decide (kinVersion w = 4)).
    + pose proof (submitPaymentWithResolution_exact c payment _ w Ha Hd) as Hx.
      by destruct (submitPaymentWithResolution _ _ _ _) as [r w'].
    + destruct (legacyPaymentEnvelope c (kinVersion w) payment)
        as [e|[[signers envelope] il]] eqn:Hasm; [split; [done|simpl; lia]|].
      destruct (legacyPaymentEnvelope_signers _ _ _ _ _ _ Hasm) as (s0 & rest & ->).
      pose proof (signAndSubmitXDR_unresolved c s0 rest envelope il w) as H1.
      destruct (signAndSubmitXDR c (s0 :: rest) envelope il w)
        as [[result err] w1] eqn:Hxdr.
      apply signAndSubmitXDR_spec in Hxdr as (_ & _ & Htx & _). simpl in H1.
      destruct (_ && _); [|split; [done|simpl; rewrite Htx; lia]].
      pose proof (submitPaymentWithResolution_exact c payment _ (set_kinVersions 4 w1)
                    Ha Hd) as [Hx Hlen].
      destruct (submitPaymentWithResolution _ _ _ _) as [r w']. simpl in *.
      split; [by etrans|]. by rewrite <- Htx.
  - intros batch. unfold SubmitEarnBatch.
    destruct (bool_decide (kinVersion w > 4 ∨ kinVersion w < 2)); [split; [done|simpl; lia]|].
    destruct (checkEarnBatch _ _ _); [split; [done|simpl; lia]|].
    destruct (bool_decide (kinVersion w = 2 ∨ kinVersion w = 3)).
    + assert (unresolved w (submitEarnBatch c batch w).2 ∧
              submittedTxs (log (submitEarnBatch c batch w).2) = submittedTxs (log w))
        as [H1 Htx].
      { unfold submitEarnBatch.
        destruct (legacyEarnBatchEnvelope _ _ _ _) as [e|[[signers envelope] il]] eqn:Hasm;
          [done|].
        destruct (legacyEarnBatchEnvelope_signers _ _ _ _ _ _ _ Hasm) as (s0 & rest & ->).
        pose proof (signAndSubmitXDR_unresolved c s0 rest envelope il w) as H1.
        destruct (signAndSubmitXDR c (s0 :: rest) envelope il w)
          as [[result err] w1] eqn:Hxdr.
        apply signAndSubmitXDR_spec in Hxdr as (_ & _ & Htx & _).
        destruct err; [done|]. by destruct (bool_decide _). }
      destruct (submitEarnBatch c batch w) as [[submitResult [e|]] w1]; simpl in *;
        (split; [done|rewrite Htx; lia]).
    + pose proof (rpc_GetServiceConfig_unresolved w) as H1.
      pose proof (rpc_GetServiceConfig_quiet w) as Hq.
      apply quietView_inv in Hq as (_ & _ & Htx & _).
      destruct (rpc_GetServiceConfig w) as [[e|config] w1]; simpl in *;
        [split; [done|rewrite Htx; lia]|].
      destruct (_ && _); simpl; [split; [done|rewrite Htx; lia]|].
      pose proof (submitEarnBatchWithResolution_exact c batch config _ w1 Ha Hd)
        as [Hx Hlen].
      destruct (submitEarnBatchWithResolution _ _ _ _ _) as [[submitResult err] w2].
      simpl in *. rewrite Htx in Hlen.
      destruct err; simpl; (split; [by etrans|done]).
Qed.

End Exact.

(** X6: alice pays bob on a service that reports bob absent; with both
    resolutions switched off there is one transaction and no query. *)
Lemma exact_resolution_submits_once_witness :
  (length (submittedTxs
     (log (SubmitPayment scriptedOpts payAliceBob exactOptions
             (scriptedWorld 4 absentDestinationScript)).2)) ≤ 1)%nat ∧
  resolveQueries
    (log (SubmitPayment scriptedOpts payAliceBob exactOptions
            (scriptedWorld 4 absentDestinationScript)).2) = [].
Proof.
  destruct (exact_resolution_submits_once (R := Script) scriptedOpts exactOptions
              (scriptedWorld 4 absentDestinationScript) eq_refl eq_refl) as [Hpay _].
  destruct (Hpay payAliceBob) as [[Hq _] Hlen].
  split; [exact Hlen|exact Hq].
Defined.

(** ** A batch that passed the checks *)

Lemma filter_invoices_all (earns : list Earn) :
  Forall (λ e, hasInvoice e = true) earns →
  filter (λ o : option Invoice, is_Some o) (EInvoice <$> earns) = EInvoice <$> earns.
Proof.
  induction 1 as [|e earns He _ IH]; [done|].
  rewrite fmap_cons, filter_cons_True, IH; [done|].
  by apply bool_decide_eq_true in He.
Qed.

Lemma filter_invoices_none (earns : list Earn) :
  Forall (λ e, hasInvoice e = false) earns →
  filter (λ o : option Invoice, is_Some o) (EInvoice <$> earns) = [].
Proof.
  induction 1 as [|e earns He _ IH]; [done|].
  rewrite fmap_cons, filter_cons_False, IH; [done|].
  by apply bool_decide_eq_false in He.
Qed.

(** What the checks of [SubmitEarnBatch] establish. *)
Lemma checkEarnBatch_passed c batch earns :
  checkEarnBatch c batch earns = None →
  ∃ e0 rest,
    earns = e0 :: rest ∧ (length earns ≤ 15)%nat ∧
    Forall (λ e, hasInvoice e = hasInvoice e0) earns ∧
    (hasInvoice e0 = true → BMemo batch = "" ∧ appIndex c ≠ 0%N).
Proof.
  unfold checkEarnBatch.
  destruct (bool_decide (length earns = 0%nat)) eqn:H0; [done|].
  destruct (bool_decide (15 < length earns)%nat) eqn:H15; [done|].
  apply bool_decide_eq_false in H0, H15.
  destruct earns as [|e0 rest]; [done|]. cbn [head from_option].
  destruct (bool_decide (BMemo batch ≠ "")) eqn:Hmemo.
  - destruct (existsb hasInvoice (e0 :: rest)) eqn:Hex; [done|]. intros _.
    assert (Forall (λ e, hasInvoice e = false) (e0 :: rest)) as Hnone.
    { apply Forall_forall. intros a Ha. destruct (hasInvoice a) eqn:Hi; [|done].
      assert (existsb hasInvoice (e0 :: rest) = true) as Ht; [|congruence].
      apply existsb_exists. exists a. by rewrite <- list_elem_of_In. }
    exists e0, rest. pose proof (Forall_inv Hnone) as He0. simpl in He0.
    split_and!; [done|lia| |by rewrite He0].
    eapply Forall_impl; [done|]. intros a Ha. simpl in Ha. congruence.
  - apply bool_decide_eq_false in Hmemo.
    destruct (hasInvoice e0 && bool_decide (appIndex c = 0%N)) eqn:Hhead; [done|].
    destruct (adjacentMismatch (e0 :: rest)) eqn:Hadj; [done|]. intros _.
    apply adjacentMismatch_false in Hadj.
    exists e0, rest. split_and!; [done|lia|by constructor|].
    intros Hi. rewrite Hi in Hhead. simpl in Hhead.
    apply bool_decide_eq_false in Hhead. split; [|done].
    by destruct (decide (BMemo batch = "")).
Qed.

Section CheckedBatch.
Context `{Externals}.
Implicit Types (c : clientOpts).

Lemma transfers_earns (pre : list Instruction) payer src owner (earns : list Earn) :
  length (transfers (NewTransaction payer
            (pre ++ ((λ earn, TokenTransfer src (EDestination earn) owner
                                (to_uint64 (EQuarks earn))) <$> earns)))) =
  (length (transfers (NewTransaction payer pre)) + length earns)%nat.
Proof.
  unfold transfers. simpl. rewrite omap_app, length_app. f_equal.
  induction earns as [|e earns IH]; [done|]. simpl. f_equal. exact IH.
Qed.

Lemma legacyEarnBatchEnvelope_invoiced c batch earns e0 rest v :
  earns = e0 :: rest →
  Forall (λ e, hasInvoice e = true) earns →
  BMemo batch = "" →
  match legacyEarnBatchEnvelope c v batch earns with
  | inr (_, envelope, il) =>
      il = Some (EInvoice <$> earns) ∧ length (Operations envelope) = length earns
  | inl e => isWrapped e
  end.
Proof.
  intros Hearns Hall Hm. unfold legacyEarnBatchEnvelope.
  rewrite (bool_decide_eq_false_2 (BMemo batch ≠ "")) by (by intros ?).
  rewrite (filter_invoices_all earns Hall), length_fmap.
  rewrite (bool_decide_eq_true_2 (0 < length earns)%nat) by (rewrite Hearns; simpl; lia).
  rewrite (bool_decide_eq_false_2 (length earns ≠ length earns)) by (by intros ?).
  destruct (bool_decide (v = 2)).
  all: destruct (proto_Marshal _); [by eexists _, _|];
       destruct (NewMemo _ _ _ _); [by eexists _, _|]; simpl; by rewrite length_fmap.
Qed.

Lemma legacyEarnBatchEnvelope_plain c batch earns v :
  Forall (λ e, hasInvoice e = false) earns →
  match legacyEarnBatchEnvelope c v batch earns with
  | inr (_, envelope, il) => il = None ∧ length (Operations envelope) = length earns
  | inl e => isWrapped e
  end.
Proof.
  intros Hnone. unfold legacyEarnBatchEnvelope.
  rewrite (filter_invoices_none earns Hnone).
  destruct (bool_decide (v = 2)); destruct (bool_decide (BMemo batch ≠ "")); simpl;
    try (by rewrite length_fmap).
  all: destruct (NewMemo _ _ _ _); [by eexists _, _|]; simpl; by rewrite length_fmap.
Qed.

Lemma solanaEarnBatchTx_invoiced c batch earns e0 rest config ts sub :
  earns = e0 :: rest →
  hasInvoice e0 = true →
  BMemo batch = "" → appIndex c ≠ 0%N →
  match solanaEarnBatchTx c batch earns config ts sub with
  | inr (_, tx, il) =>
      il = Some (EInvoice <$> earns) ∧ length (transfers tx) = length earns
  | inl e => isWrapped e
  end.
Proof.
  intros Hearns Hi Hm Hidx. unfold solanaEarnBatchTx.
  rewrite (bool_decide_eq_false_2 (BMemo batch ≠ "")) by (by intros ?).
  rewrite (bool_decide_eq_true_2 (0 < appIndex c)%N) by lia.
  replace (head earns) with (Some e0) by (by rewrite Hearns). rewrite Hi.
  destruct sub as [sub|].
  all: destruct (proto_Marshal _); [by eexists _, _|];
       destruct (NewMemo _ _ _ _); [by eexists _, _|]; by rewrite transfers_earns.
Qed.

Lemma solanaEarnBatchTx_plain c batch earns e0 rest config ts sub :
  earns = e0 :: rest →
  hasInvoice e0 = false →
  match solanaEarnBatchTx c batch earns config ts sub with
  | inr (_, tx, il) => il = None ∧ length (transfers tx) = length earns
  | inl e => isWrapped e
  end.
Proof.
  intros Hearns Hi. unfold solanaEarnBatchTx.
  replace (head earns) with (Some e0) by (by rewrite Hearns). rewrite Hi.
  destruct sub as [sub|]; destruct (bool_decide (BMemo batch ≠ ""));
    try (by rewrite transfers_earns).
  all: destruct (bool_decide (0 < appIndex c)%N); [|by rewrite transfers_earns];
       destruct (NewMemo _ _ _ _); [by eexists _, _|]; by rewrite transfers_earns.
Qed.

(** X7: for a batch that passed the checks of [SubmitEarnBatch] (1 to 15
    earns, all with an invoice or none, invoices only without a text memo
    and with an app index), both ledgers assemble one transfer per earn
    and attach the same invoice list: the invoices of all earns in order
    when the earns have invoices, no list otherwise.  The assembly can
    then fail only in [proto.Marshal] or [kin.NewMemo]: the second
    all-or-none check of [submitEarnBatch] cannot fire, and
    [batch.Earns[0]] is in range. *)
Theorem checked_batch_assembly c batch earns :
  checkEarnBatch c batch earns = None →
  (batchInvoices earns ≠ None → Forall (λ e, is_Some (EInvoice e)) earns) ∧
  (batchInvoices earns = None → Forall (λ e, EInvoice e = None) earns) ∧
  (∀ v, match legacyEarnBatchEnvelope c v batch earns with
        | inr (_, envelope, il) =>
            il = batchInvoices earns ∧ length (Operations envelope) = length earns
        | inl e => isWrapped e
        end) ∧
  (∀ config ts sub,
     match solanaEarnBatchTx c batch earns config ts sub with
     | inr (_, tx, il) =>
         il = batchInvoices earns ∧ length (transfers tx) = length earns
     | inl e => isWrapped e
     end).
Proof.
  intros Hcheck.
  destruct (checkEarnBatch_passed c batch earns Hcheck)
    as (e0 & rest & Hearns & Hlen & Hsame & Hinv).
  assert (batchInvoices earns = if hasInvoice e0 then Some (EInvoice <$> earns) else None)
    as Hbi by (by rewrite Hearns).
  rewrite Hbi. destruct (hasInvoice e0) eqn:Hi.
  - destruct (Hinv eq_refl) as [Hm Hidx]. split_and!.
    + intros _. eapply Forall_impl; [done|]. intros a Ha. simpl in Ha.
      by apply bool_decide_eq_true in Ha.
    + done.
    + intros v. by eapply legacyEarnBatchEnvelope_invoiced.
    + intros config ts sub. by eapply solanaEarnBatchTx_invoiced.
  - split_and!.
    + done.
    + intros _. eapply Forall_impl; [done|]. intros a Ha. simpl in Ha.
      apply bool_decide_eq_false in Ha. by apply eq_None_not_Some.
    + intros v. by apply legacyEarnBatchEnvelope_plain.
    + intros config ts sub. by eapply solanaEarnBatchTx_plain.
Qed.

End CheckedBatch.

(** X7: two earns with an invoice each, on a client with an app index:
    the token-ledger transaction has two transfers and goes with the two
    invoices. *)
Lemma checked_batch_assembly_witness :
  match solanaEarnBatchTx scriptedOpts batchAt0 invoicedEarns scriptedConfig None None with
  | inr (_, tx, il) =>
      il = Some [Some testInvoice; Some testInvoice] ∧ length (transfers tx) = 2%nat
  | inl _ => False
  end.
Proof.
  destruct (checked_batch_assembly scriptedOpts batchAt0 invoicedEarns)
    as (_ & _ & _ & Hsolana); [vm_compute; reflexivity|].
  specialize (Hsolana scriptedConfig None None).
  destruct (solanaEarnBatchTx scriptedOpts batchAt0 invoicedEarns scriptedConfig None None)
    as [e|[[signers tx] il]] eqn:Hasm; [vm_compute in Hasm; discriminate|].
  exact Hsolana.
Defined.

(** ** The memo of an earn batch *)

Section BatchMemoFacts.
Context `{Externals}.
Implicit Types (c : clientOpts).

(** X8: the memo of an earn batch.  With a text memo the transaction
    carries that text and no invoice list.  Without one, the legacy
    ledgers always get a structured memo (version 1, type earn, the app
    index, also when it is 0), the token ledger gets it only with a
    positive app index and no memo instruction otherwise.  The hash in
    the structured memo is the SHA-224 of the serialized invoice list that
    is submitted along, 28 zero bytes when none is; the instructions of
    the token-ledger transaction are the memo, if any, and one transfer
    per earn in the order of the batch. *)
Theorem earn_batch_memo_policy c batch earns :
  (∀ v signers envelope il,
     legacyEarnBatchEnvelope c v batch earns = inr (signers, envelope, il) →
     earnBatchMemo true c batch il (envelopeMemo envelope)) ∧
  (∀ config ts sub signers tx il,
     solanaEarnBatchTx c batch earns config ts sub = inr (signers, tx, il) →
     ∃ m, earnBatchMemo false c batch il m ∧
          Instructions tx =
            memoInstructions m ++
            ((λ earn, TokenTransfer (default (Public (BSender batch)) ts)
                        (EDestination earn) (Public (BSender batch))
                        (to_uint64 (EQuarks earn))) <$> earns)).
Proof.
  split.
  - intros v signers envelope il. unfold legacyEarnBatchEnvelope.
    destruct (bool_decide (v = 2)); simpl.
    all: destruct (bool_decide (BMemo batch ≠ "")) eqn:Hmemo; simpl.
    all: try (intros [= _ <- <-]; apply bool_decide_eq_true in Hmemo; by split).
    all: apply bool_decide_eq_false in Hmemo; apply dec_stable in Hmemo.
    all: destruct (bool_decide (0 < length _)%nat); simpl.
    all: try destruct (bool_decide (length _ ≠ length earns)); simpl; try done.
    all: try (destruct (proto_Marshal _) as [e|b] eqn:Hb; simpl; [done|]).
    all: destruct (NewMemo _ _ _ _) as [e|m] eqn:Hnew; [done|].
    all: intros [= _ <- <-]; simpl; split_and!; [done|by left|].
    all: eexists; split; [|done]; simpl; try done; by eexists.
  - intros config ts sub signers tx il. unfold solanaEarnBatchTx.
    destruct sub as [sk|]; simpl.
    all: destruct (bool_decide (BMemo batch ≠ "")) eqn:Hmemo; simpl.
    all: try (intros [= _ <- <-]; apply bool_decide_eq_true in Hmemo;
              by eexists (TextMemo _)).
    all: apply bool_decide_eq_false in Hmemo; apply dec_stable in Hmemo.
    all: destruct (bool_decide (0 < appIndex c)%N) eqn:Hidx; simpl.
    all: try (intros [= _ <- <-]; apply bool_decide_eq_false in Hidx;
              exists NoMemo; split; [split_and!; [done..|lia|done]|done]).
    all: apply bool_decide_eq_true in Hidx.
    all: destruct (head earns) as [e0|]; simpl; [|done].
    all: destruct (hasInvoice e0); simpl.
    all: try (destruct (proto_Marshal _) as [e|b] eqn:Hb; simpl; [done|]).
    all: destruct (NewMemo _ _ _ _) as [e|m] eqn:Hnew; [done|].
    all: intros [= _ <- <-]; exists (StructuredMemo m); split; [|done].
    all: split_and!; [done|by right|].
    all: eexists; split; [|done]; simpl; try done; by eexists.
Qed.

End BatchMemoFacts.

(** ** What a nil error means *)

Lemma responses_app a b : responses (a ++ b) = responses a ++ responses b.
Proof. apply omap_app. Qed.

Lemma attemptError_None resp : attemptError resp = None → ∃ result, resp = (result, None).
Proof.
  destruct resp as [result [e|]]; [done|]. intros _. by exists result.
Qed.

Lemma answeredBy_after {R : Type} (P : Event → Prop) (w0 w w' : World R) result :
  logged P w0 w → answeredBy w w' result → answeredBy w0 w' result.
Proof.
  intros (evs0 & Hl0 & _) (evs & Hl & He). exists (evs0 ++ evs).
  split; [by rewrite Hl, Hl0, <- app_assoc|].
  by rewrite responses_app, last_app, He.
Qed.

Lemma answeredBy_before {R : Type} (P : Event → Prop) (w0 w w' : World R) result :
  (∀ e, P e → responses [e] = []) →
  answeredBy w0 w result → logged P w w' → answeredBy w0 w' result.
Proof.
  intros HP (evs0 & Hl0 & He) (evs & Hl & Hall). exists (evs0 ++ evs).
  split; [by rewrite Hl, Hl0, <- app_assoc|].
  assert (responses evs = []) as Hnone.
  { clear Hl. induction Hall as [|e evs HPe _ IH]; [done|].
    change (responses (e :: evs)) with (responses ([e] ++ evs)).
    by rewrite responses_app, (HP e HPe), IH. }
  by rewrite responses_app, Hnone, app_nil_r.
Qed.

Section Success.
Context `{Externals} {R : Type} `{Service R}.
Implicit Types (w : World R) (c : clientOpts).

Lemma txTrace_success signers cm il d n i l evs err l' :
  retryTrace (txAttempt signers cm il d) n i l evs err l' → err = None →
  last (responses evs) = Some (l'.2, None).
Proof.
  induction 1 as [i l evs err l' Ha _|i l evs1 l1 evs err l' Ha _ _ IH]; intros Herr.
  - inversion Ha as [| |tx result bh sigs resp Hsign]; subst; try discriminate.
    match goal with
    | Hx : attemptError _ = None |- _ => apply attemptError_None in Hx as [res ->]
    end. done.
  - by rewrite responses_app, last_app, (IH Herr).
Qed.

Lemma xdrTrace_success c signers envelope il sequence n i l evs err l' :
  retryTrace (xdrAttempt c signers envelope il sequence) n i l evs err l' → err = None →
  last (responses evs) = Some (l'.2, None).
Proof.
  induction 1 as [i l evs err l' Ha _|i l evs1 l1 evs err l' Ha _ _ IH]; intros Herr.
  - inversion Ha as [|offset result b resp Hsign]; subst; try discriminate.
    match goal with
    | Hx : attemptError _ = None |- _ => apply attemptError_None in Hx as [res ->]
    end. done.
  - by rewrite responses_app, last_app, (IH Herr).
Qed.

Lemma signAndSubmitTx_success c signers tx cm il dedupeId w result w' :
  signAndSubmitTx c signers tx cm il dedupeId w = ((result, None), w') →
  answeredBy w w' result.
Proof.
  intros Hs. apply signAndSubmitTx_spec in Hs as (_ & _ & _ & _ & evs & tx' & Hlog & Htr).
  apply txTrace_success in Htr; [|done].
  exists (CallSignAndSubmitTx signers tx cm il dedupeId :: evs). by split.
Qed.

Lemma signAndSubmitXDR_success c signers envelope il w result w' :
  signAndSubmitXDR c signers envelope il w = ((result, None), w') →
  answeredBy w w' result.
Proof.
  destruct signers as [|s0 rest]; [done|].
  intros Hs. apply signAndSubmitXDR_spec in Hs
    as (_ & _ & _ & _ & info & evs & Hlog & Hinfo).
  destruct info as [e|senderInfo]; [by destruct Hinfo as (_ & _ & ?)|].
  destruct Hinfo as (off & Htr).
  apply xdrTrace_success in Htr; [|done].
  exists (CallSignAndSubmitXDR (s0 :: rest) envelope il
            :: EvGetStellarAccountInfo (Public s0) (inr senderInfo) :: evs).
  by split.
Qed.

Lemma submitSolanaPayment_success c payment config cm ts sub w result w' :
  submitSolanaPayment c payment config cm ts sub w = ((result, None), w') →
  answeredBy w w' result.
Proof.
  unfold submitSolanaPayment.
  destruct (solanaPaymentTx _ _ _ _ _) as [e|[[signers tx] il]]; [done|].
  apply signAndSubmitTx_success.
Qed.

Lemma isQuery_no_response e : isQuery e → responses [e] = [].
Proof. by destruct e. Qed.

Lemma submitPaymentWithResolution_success c payment o w result w' :
  submitPaymentWithResolution c payment o w = ((result, None), w') →
  answeredBy w w' result.
Proof.
  rewrite submitPaymentWithResolution_unfold.
  pose proof (rpc_GetServiceConfig_logged (commitment o) (DedupeID payment) w) as H1.
  destruct (rpc_GetServiceConfig w) as [[e|config] w1]; [done|]. simpl in H1.
  destruct (_ && _); [done|].
  pose proof (submitSolanaPayment_logged c payment config (commitment o) None
                (subsidizer o) w1) as H2.
  destruct (submitSolanaPayment c payment config (commitment o) None (subsidizer o) w1)
    as [[result1 [e|]] w2] eqn:Hfirst; [done|]. simpl in H2.
  apply submitSolanaPayment_success in Hfirst.
  destruct (err_is (TxError (Errors result1)) ErrAccountDoesNotExist).
  - pose proof (resolvedFirst_queries (accountResolution o) c (Public (Sender payment)) w2)
      as H3.
    destruct (resolvedFirst (accountResolution o) c (Public (Sender payment)) w2)
      as [sa w3]. simpl in H3.
    pose proof (resolvedFirst_queries (destResolution o) c (Destination payment) w3) as H4.
    destruct (resolvedFirst (destResolution o) c (Destination payment) w3) as [da w4].
    simpl in H4.
    assert (logged isQuery w2 w4) as H5 by by etrans.
    destruct (_ || _).
    + intros Hsecond. apply submitSolanaPayment_success in Hsecond.
      eapply answeredBy_after; [|done].
      etrans; [done|]. etrans; [done|].
      eapply logged_mono; [|done]. by intros [].
    + intros [= <- <-]. eapply answeredBy_after; [done|].
      eapply answeredBy_before; [apply isQuery_no_response|done..].
  - intros [= <- <-]. by eapply answeredBy_after.
Qed.

Lemma surfacePayment_nil result err txid :
  surfacePayment (result, err) = (txid, None) →
  err = None ∧ ID result = txid ∧ reportedOk result.
Proof.
  unfold surfacePayment, reportedOk. destruct err as [e|]; [done|].
  destruct (PaymentErrors (Errors result)) as [|pe [|? ?]] eqn:Hpe; [| |done].
  - destruct (TxError (Errors result)); [done|].
    destruct (InvoiceErrors result) as [|ie [|? ?]]; [| |done].
    + intros [= <-]. split_and!; auto.
    + intros [= <- Hie]. split_and!; [done..|]. right. split_and!; eauto.
  - intros [= <- ->]. split_and!; auto.
Qed.

(** X9: when [SubmitPayment] returns a nil error, a transaction was
    submitted during the call and the service answered the last submit
    request with a nil error; the id returned is the id in that answer;
    and that answer holds either one payment error that is nil, or no
    payment error, no transaction error and no invoice error that maps to
    an error. *)
Theorem SubmitPayment_success c payment opts w txid w' :
  SubmitPayment c payment opts w = ((txid, None), w') →
  ∃ result, answeredBy w w' result ∧ ID result = txid ∧ reportedOk result.
Proof.
  unfold SubmitPayment.
  destruct (bool_decide (kinVersion w > 4 ∨ kinVersion w < 2)); [done|].
  destruct (_ && _); [done|].
  destruct (bool_decide (kinVersion w = 4)).
  - destruct (submitPaymentWithResolution _ _ _ _) as [[result err] w1] eqn:Hs.
    intros [= Hsur <-]. apply surfacePayment_nil in Hsur as (-> & Hid & Hok).
    exists result. split_and!; [|done..]. by eapply submitPaymentWithResolution_success.
  - destruct (legacyPaymentEnvelope c (kinVersion w) payment)
      as [e|[[signers envelope] il]]; [done|].
    pose proof (signAndSubmitXDR_logged c signers envelope il w) as Hlegacy.
    destruct (signAndSubmitXDR c signers envelope il w) as [[result err] w1] eqn:Hxdr.
    simpl in Hlegacy. destruct (_ && _).
    + destruct (submitPaymentWithResolution _ _ _ _) as [[result2 err2] w2] eqn:Hs.
      intros [= Hsur <-]. apply surfacePayment_nil in Hsur as (-> & Hid & Hok).
      exists result2. split_and!; [|done..].
      apply submitPaymentWithResolution_success in Hs.
      eapply answeredBy_after; [exact Hlegacy|]. exact Hs.
    + intros [= Hsur <-]. apply surfacePayment_nil in Hsur as (-> & Hid & Hok).
      exists result. split_and!; [|done..]. by eapply signAndSubmitXDR_success.
Qed.

Lemma submitSolanaEarnBatch_success c batch config cm ts sub w result w' :
  submitSolanaEarnBatch c batch config cm ts sub w = ((result, None), w') →
  answeredBy w w' result.
Proof.
  unfold submitSolanaEarnBatch.
  destruct (solanaEarnBatchTx _ _ _ _ _ _) as [e|[[signers tx] il]]; [done|].
  apply signAndSubmitTx_success.
Qed.

Lemma submitEarnBatchWithResolution_success c batch config o w result w' :
  submitEarnBatchWithResolution c batch config o w = ((result, None), w') →
  answeredBy w w' result.
Proof.
  rewrite submitEarnBatchWithResolution_unfold.
  pose proof (submitSolanaEarnBatch_logged c batch config (commitment o) None
                (subsidizer o) w) as H1.
  destruct (submitSolanaEarnBatch c batch config (commitment o) None (subsidizer o) w)
    as [[result1 [e|]] w1] eqn:Hfirst; [done|]. simpl in H1.
  apply submitSolanaEarnBatch_success in Hfirst.
  destruct (err_is _ _); [|by intros [= <- <-]].
  pose proof (resolvedFirst_queries (accountResolution o) c (Public (BSender batch)) w1)
    as H2.
  destruct (resolvedFirst (accountResolution o) c (Public (BSender batch)) w1)
    as [sa w2]. simpl in H2.
  assert (logged isQuery w2
            (if is_Preferred (destResolution o)
             then resolveEarnDestinations c batch 0 (length (earnsOf batch w2))
                    (bool_decide (is_Some sa)) w2
             else ((None, bool_decide (is_Some sa)), w2)).2) as H3.
  { destruct (is_Preferred _); [apply resolveEarnDestinations_queries|done]. }
  destruct (if is_Preferred (destResolution o) then _ else _) as [[derr resubmit] w3].
  simpl in H3.
  assert (logged isQuery w1 w3) as H4 by by etrans.
  destruct resubmit.
  - intros Hsecond. apply submitSolanaEarnBatch_success in Hsecond.
    eapply answeredBy_after; [|done].
    etrans; [done|]. eapply logged_mono; [|done]. by intros [].
  - intros [= <- <-].
    eapply answeredBy_before; [apply isQuery_no_response|done..].
Qed.

Lemma submitEarnBatch_success c batch w result w' :
  submitEarnBatch c batch w = ((result, None), w') →
  answeredBy w w' result ∧ InvoiceErrors result = [].
Proof.
  unfold submitEarnBatch.
  destruct (legacyEarnBatchEnvelope _ _ _ _) as [e|[[signers envelope] il]]; [done|].
  destruct (signAndSubmitXDR c signers envelope il w) as [[result1 [e|]] w1] eqn:Hxdr;
    [done|].
  apply signAndSubmitXDR_success in Hxdr.
  destruct (bool_decide (0 < length (InvoiceErrors result1))%nat) eqn:Hlen; [done|].
  intros [= <- <-]. split; [done|].
  apply bool_decide_eq_false in Hlen. destruct (InvoiceErrors result1); [done|].
  simpl in Hlen. lia.
Qed.

Lemma earnBatchResult_spec submitResult :
  TxID (earnBatchResult submitResult) = ID submitResult ∧
  (RTxError (earnBatchResult submitResult) = None ↔
   TxError (Errors submitResult) = None ∧ InvoiceErrors submitResult = []) ∧
  (RTxError (earnBatchResult submitResult) = None →
   EarnErrors (earnBatchResult submitResult) = []) ∧
  (InvoiceErrors submitResult = [] →
   RTxError (earnBatchResult submitResult) = TxError (Errors submitResult)).
Proof.
  unfold earnBatchResult. destruct (TxError (Errors submitResult)) as [te|].
  - split_and!; try done; try (by intros [? _]); try (by split; [|intros [? _]]).
  - destruct (InvoiceErrors submitResult) as [|ie rest]; simpl.
    + split_and!; done.
    + split_and!; try done; try (by intros [_ ?]); try (by split; [|intros [_ ?]]).
Qed.

(** X10: what [SubmitEarnBatch] returns.  With an error the result is the
    zero value.  With a nil error a transaction was submitted and the
    service answered the last submit request with a nil error; the result
    has the id of that answer; its [TxError] is nil exactly when the
    answer has no transaction error and no invoice errors, and then it
    lists no earn errors; on the versions before 4 the [TxError] is the
    transaction error of the answer, invoice errors being reported as an
    error of the call. *)
Theorem SubmitEarnBatch_outcome c batch opts w result err w' :
  SubmitEarnBatch c batch opts w = ((result, err), w') →
  (err ≠ None → result = zeroEarnBatchResult) ∧
  (err = None →
   ∃ submitResult,
     answeredBy w w' submitResult ∧
     TxID result = ID submitResult ∧
     (RTxError result = None ↔
      TxError (Errors submitResult) = None ∧ InvoiceErrors submitResult = []) ∧
     (RTxError result = None → EarnErrors result = []) ∧
     (kinVersion w ≠ 4 → RTxError result = TxError (Errors submitResult))).
Proof.
  unfold SubmitEarnBatch.
  destruct (bool_decide (kinVersion w > 4 ∨ kinVersion w < 2)) eqn:Hrange;
    [by intros [= <- <- <-]|].
  apply bool_decide_eq_false in Hrange.
  destruct (checkEarnBatch _ _ _); [by intros [= <- <- <-]|].
  destruct (bool_decide (kinVersion w = 2 ∨ kinVersion w = 3)) eqn:Hv.
  - destruct (submitEarnBatch c batch w) as [[submitResult [e|]] w1] eqn:Hs;
      [by intros [= <- <- <-]|].
    intros [= <- <- <-]. split; [done|]. intros _.
    apply submitEarnBatch_success in Hs as [Hans Hinv].
    destruct (earnBatchResult_spec submitResult) as (Hid & Hnil & Hnone & Hsame).
    exists submitResult. split_and!; auto.
  - apply bool_decide_eq_false in Hv.
    pose proof (rpc_GetServiceConfig_logged 0%N [] w) as H1.
    destruct (rpc_GetServiceConfig w) as [[e|config] w1]; [by intros [= <- <- <-]|].
    simpl in H1. destruct (_ && _); [by intros [= <- <- <-]|].
    destruct (submitEarnBatchWithResolution _ _ _ _ _) as [[submitResult [e|]] w2] eqn:Hs;
      [by intros [= <- <- <-]|].
    intros [= <- <- <-]. split; [done|]. intros _.
    apply submitEarnBatchWithResolution_success in Hs.
    destruct (earnBatchResult_spec submitResult) as (Hid & Hnil & Hnone & Hsame).
    exists submitResult. split_and!; auto.
    + by eapply answeredBy_after.
    + intros Hne. lia.
Qed.

End Success.

(** X9: alice pays bob on version 4 and the service accepts: the id
    returned is the id of the answer. *)
Lemma SubmitPayment_success_witness :
  ∃ result,
    answeredBy (scriptedWorld 4 acceptingScript)
      (SubmitPayment scriptedOpts payAliceBob [] (scriptedWorld 4 acceptingScript)).2
      result ∧
    ID result = [x01].
Proof.
  assert (SubmitPayment scriptedOpts payAliceBob [] (scriptedWorld 4 acceptingScript)
          = (([x01], None),
             (SubmitPayment scriptedOpts payAliceBob []
                (scriptedWorld 4 acceptingScript)).2)) as Hrun
    by (vm_compute; reflexivity).
  destruct (SubmitPayment_success (R := Script) _ _ _ _ _ _ Hrun)
    as (result & Hans & Hid & _).
  by exists result.
Defined.

(** X10: one earn for bob on version 3, accepted by the service: the
    batch result has the id of the answer and no error. *)
Lemma SubmitEarnBatch_outcome_witness :
  ∃ submitResult,
    answeredBy (worldWithEarns 3 [earnBob] acceptingScript)
      (SubmitEarnBatch scriptedOpts batchAt0 []
         (worldWithEarns 3 [earnBob] acceptingScript)).2 submitResult ∧
    ID submitResult = [x01].
Proof.
  assert (SubmitEarnBatch scriptedOpts batchAt0 []
            (worldWithEarns 3 [earnBob] acceptingScript)
          = (({| TxID := [x01]; RTxError := None; EarnErrors := [] |}, None),
             (SubmitEarnBatch scriptedOpts batchAt0 []
                (worldWithEarns 3 [earnBob] acceptingScript)).2)) as Hrun
    by (vm_compute; reflexivity).
  destruct (SubmitEarnBatch_outcome (R := Script) _ _ _ _ _ _ _ Hrun) as [_ Hok].
  destruct (Hok eq_refl) as (submitResult & Hans & Hid & _).
  exists submitResult. split; [done|]. by rewrite <- Hid.
Defined.

(** ** The ledger version *)

#[global] Instance sameVersions_preorder {R : Type} : PreOrder (sameVersions (R := R)).
Proof.
  split; [by intros w|]. intros w1 w2 w3 [Hk1 Hi1] [Hk2 Hi2]. split; congruence.
Qed.

#[global] Instance onBase_preorder {R : Type} (Rel : relation (World R))
    `{!PreOrder Rel} : PreOrder (onBase Rel).
Proof.
  split; [intros aw; apply (reflexivity (R := Rel))|].
  intros a b c. apply (transitivity (R := Rel)).
Qed.

Lemma sameVersions_view {R : Type} (w w' : World R) :
  clientView w' = clientView w → sameVersions w w'.
Proof. intros Hcv. injection Hcv as Hk Hi _. by split. Qed.

Section Versions.
Context `{Externals} {R : Type} `{Service R} `{AccountService R}.
Implicit Types (w : World R) (aw : AccountWorld R) (c : clientOpts).

Lemma resolveTokenAccounts_versions c account w :
  sameVersions w (resolveTokenAccounts c account w).2.
Proof.
  destruct (resolveTokenAccounts c account w) as [[accts err] w'] eqn:Hr.
  apply resolveTokenAccounts_frame in Hr as (_ & Hcv & _). by apply sameVersions_view.
Qed.

Lemma signAndSubmitXDR_versions c signers envelope il w :
  sameVersions w (signAndSubmitXDR c signers envelope il w).2.
Proof.
  destruct signers as [|s0 rest]; [done|].
  destruct (signAndSubmitXDR c (s0 :: rest) envelope il w) as [[result err] w'] eqn:Hs.
  apply signAndSubmitXDR_spec in Hs as (Hcv & _). by apply sameVersions_view.
Qed.

Lemma submitPaymentWithResolution_versions c payment o w :
  sameVersions w (submitPaymentWithResolution c payment o w).2.
Proof.
  apply sameVersions_view. apply submitPaymentWithResolution_frame.
Qed.

Lemma SubmitPayment_versions c payment opts w :
  movedForward w (SubmitPayment c payment opts w).2.
Proof.
  unfold SubmitPayment.
  destruct (bool_decide (kinVersion w > 4 ∨ kinVersion w < 2)) eqn:Hrange; [by left|].
  apply bool_decide_eq_false in Hrange.
  destruct (_ && _); [by left|].
  destruct (bool_decide (kinVersion w = 4)) eqn:Hv.
  - pose proof (submitPaymentWithResolution_versions c payment
                  (apply_opts opts (defaultSolanaOpts c)) w) as Hs.
    destruct (submitPaymentWithResolution _ _ _ _) as [r w']. by left.
  - apply bool_decide_eq_false in Hv.
    destruct (legacyPaymentEnvelope c (kinVersion w) payment)
      as [e|[[signers envelope] il]]; [by left|].
    pose proof (signAndSubmitXDR_versions c signers envelope il w) as Hs1.
    destruct (signAndSubmitXDR c signers envelope il w) as [[result err] w1].
    simpl in Hs1. destruct (_ && _); [|by left].
    pose proof (submitPaymentWithResolution_versions c payment
                  (apply_opts opts (defaultSolanaOpts c)) (set_kinVersions 4 w1))
      as [Hk Hi].
    destruct (submitPaymentWithResolution _ _ _ _) as [r w']. simpl in *.
    right. split_and!; [lia|done..].
Qed.

Lemma SubmitEarnBatch_versions c batch opts w :
  sameVersions w (SubmitEarnBatch c batch opts w).2.
Proof.
  unfold SubmitEarnBatch.
  destruct (bool_decide (kinVersion w > 4 ∨ kinVersion w < 2)); [done|].
  destruct (checkEarnBatch _ _ _); [done|].
  destruct (bool_decide (kinVersion w = 2 ∨ kinVersion w = 3)).
  - assert (sameVersions w (submitEarnBatch c batch w).2) as Hs.
    { unfold submitEarnBatch.
      destruct (legacyEarnBatchEnvelope _ _ _ _) as [e|[[signers envelope] il]]; [done|].
      pose proof (signAndSubmitXDR_versions c signers envelope il w) as Hs1.
      destruct (signAndSubmitXDR c signers envelope il w) as [[result [e|]] w1]; [done|].
      by destruct (bool_decide _). }
    by destruct (submitEarnBatch c batch w) as [[submitResult [e|]] w1].
  - pose proof (rpc_GetServiceConfig_quiet w) as Hq.
    apply quietView_inv in Hq as (Hcv & _). apply sameVersions_view in Hcv.
    destruct (rpc_GetServiceConfig w) as [[e|config] w1]; [done|]. simpl in Hcv.
    destruct (_ && _); [done|].
    assert (sameVersions w1 (submitEarnBatchWithResolution c batch config
                               (apply_opts opts (defaultSolanaOpts c)) w1).2) as Hs.
    { rewrite submitEarnBatchWithResolution_unfold.
      set (o := apply_opts opts (defaultSolanaOpts c)).
      assert (∀ ts w0, sameVersions w0
                (submitSolanaEarnBatch c batch config (commitment o) ts (subsidizer o) w0).2)
        as Hsub.
      { intros ts w0.
        destruct (submitSolanaEarnBatch c batch config (commitment o) ts (subsidizer o) w0)
          as [[result err] w'] eqn:Hs.
        apply submitSolanaEarnBatch_spec in Hs as (Hcv' & _). by apply sameVersions_view. }
      pose proof (Hsub None w1) as Hs1.
      destruct (submitSolanaEarnBatch c batch config (commitment o) None (subsidizer o) w1)
        as [[result [e|]] w2]; [done|]. simpl in Hs1.
      destruct (err_is _ _); [|done].
      pose proof (resolvedFirst_frame (accountResolution o) c (Public (BSender batch)) w2)
        as (Hcv2 & _). apply sameVersions_view in Hcv2.
      destruct (resolvedFirst (accountResolution o) c (Public (BSender batch)) w2)
        as [sa w3]. simpl in Hcv2.
      assert (sameVersions w3
                (if is_Preferred (destResolution o)
                 then resolveEarnDestinations c batch 0 (length (earnsOf batch w3))
                        (bool_decide (is_Some sa)) w3
                 else ((None, bool_decide (is_Some sa)), w3)).2) as Hs3.
      { destruct (is_Preferred _); [|done].
        destruct (resolveEarnDestinations c batch 0 (length (earnsOf batch w3))
                    (bool_decide (is_Some sa)) w3) as [[derr re] w4] eqn:Hd.
        apply resolveEarnDestinations_spec in Hd as (_ & ? & ? & _). by split. }
      destruct (if is_Preferred (destResolution o) then _ else _)
        as [[derr resubmit] w4]. simpl in Hs3.
      assert (sameVersions w1 w4) as Hs4 by (etrans; [done|]; by etrans).
      destruct resubmit; [|done]. etrans; [done|]. apply Hsub. }
    destruct (submitEarnBatchWithResolution _ _ _ _ _) as [[submitResult [e|]] w2];
      simpl in *; by etrans.
Qed.

Lemma account_step_base s call aw :
  sameVersions (base aw) (base (account_step s call aw)) ∧
  log (base (account_step s call aw)) = log (base aw) ∧
  accountCache (base (account_step s call aw)) = accountCache (base aw) ∧
  heap (base (account_step s call aw)) = heap (base aw) ∧
  calls (account_step s call aw) = calls aw ++ [call].
Proof. done. Qed.

Lemma rpc_CreateSolanaAccount_versions key cm sub aw :
  sameVersions (base aw) (base (rpc_CreateSolanaAccount key cm sub aw).2).
Proof.
  unfold rpc_CreateSolanaAccount. by destruct (CreateSolanaAccount _ _ _ _).
Qed.

Lemma createSolanaAccount_versions c key opts aw :
  sameVersions (base aw) (base (createSolanaAccount c key opts aw).2).
Proof.
  unfold createSolanaAccount.
  pose proof (Retry_rel (rpc_CreateSolanaAccount key
                (commitment (commitmentOpts c opts)) (subsidizer (commitmentOpts c opts)))
              (onBase sameVersions) (nonceStrategies c)
              _ aw (nonceStrategies_bound c)) as Hrel.
  destruct (Retry _ _ _) as [[j err] aw']. apply Hrel.
  intros aw0. apply rpc_CreateSolanaAccount_versions.
Qed.

Lemma CreateAccount_versions c key opts aw :
  movedForward (base aw) (base (CreateAccount c key opts aw).2).
Proof.
  unfold CreateAccount.
  destruct (bool_decide (kinVersion (base aw) = 2 ∨ kinVersion (base aw) = 3)) eqn:Hv.
  - apply bool_decide_eq_true in Hv. unfold rpc_CreateStellarAccount.
    destruct (CreateStellarAccount _ _ _) as [[e|] s]; [|by left].
    destruct (bool_decide _); [|by left].
    destruct (createSolanaAccount_versions c key opts
                (migrate (account_step s (CallCreateStellarAccount key (Some e)) aw)))
      as [Hk Hi].
    right. split_and!; done.
  - destruct (bool_decide (kinVersion (base aw) = 4)); [|by left].
    left. apply createSolanaAccount_versions.
Qed.

Lemma lift_base {A : Type} (m : M A) aw :
  base (lift m aw).2 = (m (base aw)).2 ∧ calls (lift m aw).2 = calls aw ∧
  (lift m aw).1 = (m (base aw)).1.
Proof. unfold lift. by destruct (m (base aw)). Qed.

Lemma getSolanaBalance_versions c account opts aw :
  sameVersions (base aw) (base (getSolanaBalance c account opts aw).2).
Proof.
  unfold getSolanaBalance, rpc_GetSolanaAccountInfo.
  destruct (GetSolanaAccountInfo _ _ _) as [[e|info] s]; [|done].
  destruct (_ && _); [|done].
  set (aw1 := account_step s _ aw).
  destruct (lift_base (resolveTokenAccounts c account) aw1) as (Hb & _ & _).
  pose proof (resolveTokenAccounts_versions c account (base aw1)) as Hr.
  rewrite <- Hb in Hr.
  destruct (lift (resolveTokenAccounts c account) aw1) as [[accts [te|]] aw2];
    simpl in *; [done|].
  destruct accts as [|t0 rest]; [done|].
  destruct (GetSolanaAccountInfo _ _ _) as [[e2|info] s2]; done.
Qed.

Lemma GetBalance_versions c account opts aw :
  movedForward (base aw) (base (GetBalance c account opts aw).2).
Proof.
  unfold GetBalance.
  destruct (bool_decide (kinVersion (base aw) = 2 ∨ kinVersion (base aw) = 3)) eqn:Hv.
  - apply bool_decide_eq_true in Hv. unfold lift, rpc_GetStellarAccountInfo.
    destruct (GetStellarAccountInfo _ _ _) as [[e|info] s]; [|by left].
    destruct (bool_decide _); [|by left].
    set (aw1 := mkAccountWorld _ _).
    destruct (getSolanaBalance_versions c account opts (migrate aw1)) as [Hk Hi].
    right. split_and!; done.
  - destruct (bool_decide (kinVersion (base aw) = 4)); [|by left].
    left. apply getSolanaBalance_versions.
Qed.

(** X11: the ledger version only moves forward.  [SubmitPayment],
    [CreateAccount] and [GetBalance] either leave the version of the
    client and the version of its internal client as they were, or move
    both, together, from 2 or 3 to 4; [SubmitEarnBatch],
    [ResolveTokenAccounts] and [GetTransaction] never change them.  So a
    client whose two versions agree keeps them in agreement, and a client
    on version 4 stays there. *)
Theorem versions_move_forward c opts :
  (∀ payment w, movedForward w (SubmitPayment c payment opts w).2) ∧
  (∀ batch w, sameVersions w (SubmitEarnBatch c batch opts w).2) ∧
  (∀ key aw, movedForward (base aw) (base (CreateAccount c key opts aw).2)) ∧
  (∀ account aw, movedForward (base aw) (base (GetBalance c account opts aw).2)) ∧
  (∀ account w, sameVersions w (client_ResolveTokenAccounts c account w).2) ∧
  (∀ txID aw, sameVersions (base aw) (base (client_GetTransaction c txID opts aw).2)).
Proof.
  split_and!.
  - intros payment w. apply SubmitPayment_versions.
  - intros batch w. apply SubmitEarnBatch_versions.
  - intros key aw. apply CreateAccount_versions.
  - intros account aw. apply GetBalance_versions.
  - intros account w. unfold client_ResolveTokenAccounts.
    destruct (bool_decide _); [done|]. apply resolveTokenAccounts_versions.
  - intros txID aw. unfold client_GetTransaction, rpc_GetStellarTransaction,
      rpc_GetTransaction.
    destruct (bool_decide _); [by destruct (GetStellarTransaction _ _ _)|].
    destruct (bool_decide _); [by destruct (GetTransaction _ _ _)|done].
Qed.

End Versions.

(** ** The account calls *)

Section AccountFacts.
Context `{Externals} {R : Type} `{Service R} `{AccountService R}.
Implicit Types (w : World R) (aw : AccountWorld R) (c : clientOpts).

Lemma getSolanaBalance_calls c account opts aw res aw' :
  getSolanaBalance c account opts aw = (res, aw') →
  tokenBalance c account opts aw aw' res.
Proof.
  unfold getSolanaBalance, tokenBalance. fold (balanceOpts c opts).
  unfold rpc_GetSolanaAccountInfo.
  destruct (GetSolanaAccountInfo account _ (remote (base aw))) as [r1 s].
  destruct r1 as [e|info]; [|intros [= <- <-]; by exists (inr info)].
  destruct (err_is (Some e) ErrAccountDoesNotExist) eqn:Hadne; simpl;
    unfold err_is in Hadne.
  2: { intros [= <- <-]. exists (inl e). cbv zeta. simpl.
       rewrite bool_decide_eq_false_2; [done|].
       apply bool_decide_eq_false in Hadne. congruence. }
  apply bool_decide_eq_true in Hadne.
  assert (e = ErrAccountDoesNotExist) as -> by congruence. clear Hadne.
  destruct (is_Preferred _) eqn:Hpref.
  2: { intros [= <- <-]. exists (inl ErrAccountDoesNotExist). cbv zeta.
       rewrite andb_false_r. done. }
  set (aw1 := account_step s _ aw).
  destruct (lift_base (resolveTokenAccounts c account) aw1) as (Hb & Hc & Hr).
  destruct (resolveTokenAccounts c account (base aw1)) as [[accts rerr] w2] eqn:Hres.
  pose proof Hres as Hnil. apply resolveTokenAccounts_frame in Hnil as (-> & _).
  destruct (lift (resolveTokenAccounts c account) aw1) as [[accts' rerr'] aw2].
  simpl in Hb, Hc, Hr. injection Hr as -> ->.
  intros Hrun. exists (inl ErrAccountDoesNotExist). cbv zeta.
  simpl.
  exists (base aw1), accts, w2. rewrite Hres.
  destruct accts as [|t0 rest].
  - injection Hrun as <- <-. rewrite Hb, Hc. by split_and!.
  - destruct (GetSolanaAccountInfo t0 _ (remote (base aw2))) as [r2 s2].
    split_and!; [done..| | |].
    + destruct r2; injection Hrun as <- <-; simpl; by rewrite Hb.
    + destruct r2; injection Hrun as <- <-; simpl; by rewrite Hb.
    + exists r2. destruct r2; injection Hrun as <- <-; simpl; rewrite Hc; simpl;
        by rewrite <- app_assoc.
Qed.

Lemma tokenBalance_zero c account opts aw aw' quarks err :
  tokenBalance c account opts aw aw' (quarks, err) → err ≠ None → quarks = 0.
Proof.
  intros (r1 & Hrun). cbv zeta in Hrun. destruct (_ && _).
  - destruct Hrun as (w1 & accts & w2 & _ & _ & _ & _ & _ & Hres).
    destruct accts as [|t0 rest]; [by destruct Hres as [_ [= -> _]]|].
    destruct Hres as (r2 & _ & Hres). destruct r2; by injection Hres as -> ->.
  - destruct Hrun as (_ & Hres & _). destruct r1; by injection Hres as -> ->.
Qed.

(** X12: [GetBalance].  An error always comes with a balance of 0.  On
    version 4 the call is the token-ledger part: one account-info query
    for the account under the commitment of the options; only when the
    answer is [ErrAccountDoesNotExist] and the resolution is Preferred
    (the default) are the token accounts resolved, and then either there
    is none and the call returns [ErrAccountDoesNotExist], or a second
    query goes to the first one and decides the outcome.  On version 2 or
    3 the legacy ledger is asked once: an account info gives the balance,
    an error with the status FailedPrecondition moves the client to
    version 4 and the token-ledger part follows in the same call, any
    other error is returned.  On any other version nothing is called. *)
Theorem GetBalance_calls c account opts aw quarks err aw' :
  GetBalance c account opts aw = ((quarks, err), aw') →
  (err ≠ None → quarks = 0) ∧
  (kinVersion (base aw) = 4 → tokenBalance c account opts aw aw' (quarks, err)) ∧
  (kinVersion (base aw) = 2 ∨ kinVersion (base aw) = 3 →
   ∃ r aw1,
     log (base aw1) = log (base aw) ++ [EvGetStellarAccountInfo account r] ∧
     accountCache (base aw1) = accountCache (base aw) ∧ calls aw1 = calls aw ∧
     match r with
     | inr accountInfo => aw' = aw1 ∧ (quarks, err) = (Balance accountInfo, None)
     | inl e =>
         if bool_decide (status_Code (Some e) = CodeFailedPrecondition)
         then kinVersion (base aw') = 4 ∧
              tokenBalance c account opts (migrate aw1) aw' (quarks, err)
         else aw' = aw1 ∧ (quarks, err) = (0, Some e)
     end) ∧
  (¬ (2 ≤ kinVersion (base aw) ≤ 4) → aw' = aw ∧ err ≠ None).
Proof.
  unfold GetBalance.
  destruct (bool_decide (kinVersion (base aw) = 2 ∨ kinVersion (base aw) = 3)) eqn:Hv.
  - apply bool_decide_eq_true in Hv. unfold lift, rpc_GetStellarAccountInfo.
    destruct (GetStellarAccountInfo _ _ _) as [r s].
    set (aw1 := mkAccountWorld _ _).
    destruct r as [e|info].
    + destruct (bool_decide (status_Code (Some e) = CodeFailedPrecondition)) eqn:Hm.
      * intros Hrun. pose proof (getSolanaBalance_versions c account opts (migrate aw1))
          as [Hk _]. rewrite Hrun in Hk. simpl in Hk.
        apply getSolanaBalance_calls in Hrun.
        split_and!; [by eapply tokenBalance_zero|lia| |lia].
        intros _. exists (inl e), aw1. rewrite Hm. by split_and!.
      * intros [= <- <- <-]. split_and!; [done|lia| |lia].
        intros _. exists (inl e), aw1. rewrite Hm. by split_and!.
    + intros [= <- <- <-]. split_and!; [done|lia| |lia].
      intros _. exists (inr info), aw1. by split_and!.
  - apply bool_decide_eq_false in Hv.
    destruct (bool_decide (kinVersion (base aw) = 4)) eqn:Hv4.
    + apply bool_decide_eq_true in Hv4. intros Hrun.
      apply getSolanaBalance_calls in Hrun.
      split_and!; [by eapply tokenBalance_zero|done|lia|lia].
    + apply bool_decide_eq_false in Hv4. intros [= <- <- <-].
      split_and!; [done|done|lia|done].
Qed.

Lemma Loop_create key cm sub c fuel i aw j err aw' :
  Loop fuel i (rpc_CreateSolanaAccount key cm sub) (nonceStrategies c) aw
    = Some ((j, err), aw') →
  ∃ init,
    calls aw' = calls aw ++ (CallCreateSolanaAccount key cm sub <$> (init ++ [err])) ∧
    Forall (λ r, r = Some ErrBadNonce) init ∧
    (length init ≤ maxSequenceRetries c - i)%nat ∧
    (err = Some ErrBadNonce → (maxSequenceRetries c ≤ i + length init)%nat) ∧
    log (base aw') = log (base aw) ∧ accountCache (base aw') = accountCache (base aw).
Proof.
  revert i aw. induction fuel as [|fuel IH]; intros i aw; [done|].
  cbn [Loop]. unfold rpc_CreateSolanaAccount at 1.
  destruct (CreateSolanaAccount key cm sub (remote (base aw))) as [[e|] s].
  - rewrite nonceStrategies_ok.
    destruct (bool_decide (i < maxSequenceRetries c)%nat) eqn:Hlt; simpl.
    + destruct (bool_decide (e = ErrBadNonce)) eqn:He.
      * apply bool_decide_eq_true in Hlt, He. subst e. intros Hl.
        apply IH in Hl as (init & Hcalls & Hall & Hlen & Hend & Hlog & Hcache).
        exists (Some ErrBadNonce :: init). simpl in *.
        split_and!; try done; try lia.
        -- rewrite Hcalls, <- app_assoc. done.
        -- by constructor.
        -- intros Herr. specialize (Hend Herr). lia.
      * intros [= <- <- <-]. exists []. apply bool_decide_eq_false in He.
        split_and!; try done; try (simpl; lia). intros [= ?]. done.
    + intros [= <- <- <-]. exists []. apply bool_decide_eq_false in Hlt.
      split_and!; try done; simpl; lia.
  - intros [= <- <- <-]. exists []. split_and!; try done. simpl. lia.
Qed.

Lemma createSolanaAccount_calls c key opts aw err aw' :
  createSolanaAccount c key opts aw = (err, aw') →
  ∃ answers,
    calls aw' =
      calls aw ++
      (CallCreateSolanaAccount key (commitment (commitmentOpts c opts))
         (subsidizer (commitmentOpts c opts)) <$> answers) ∧
    createAttempts c answers err ∧
    log (base aw') = log (base aw) ∧ accountCache (base aw') = accountCache (base aw).
Proof.
  unfold createSolanaAccount.
  pose proof (Retry_Loop (rpc_CreateSolanaAccount key
                (commitment (commitmentOpts c opts)) (subsidizer (commitmentOpts c opts)))
              (nonceStrategies c) _ aw (nonceStrategies_bound c)) as Hl.
  destruct (Retry _ _ _) as [[j e] aw1]. intros [= <- <-].
  apply Loop_create in Hl as (init & Hcalls & Hall & Hlen & Hend & Hlog & Hcache).
  exists (init ++ [e]). split_and!; try done.
  exists init. rewrite length_app. simpl. split_and!; try done; try lia.
  intros Herr. specialize (Hend Herr). lia.
Qed.

(** X13: [CreateAccount].  On version 4 the account is created on the
    token ledger, in at most [max 1 maxSequenceRetries] attempts under the
    commitment and the subsidizer of the options; a further attempt is
    made only after the answer [ErrBadNonce], and the error returned is
    the answer to the last attempt.  On version 2 or 3 the legacy ledger
    is asked once: an error with the status FailedPrecondition moves the
    client to version 4 and the token-ledger attempts follow in the same
    call; any other answer is returned as it is.  On any other version
    nothing is called.  The call never touches the log of submissions or
    the account cache. *)
Theorem CreateAccount_calls c key opts aw err aw' :
  CreateAccount c key opts aw = (err, aw') →
  log (base aw') = log (base aw) ∧ accountCache (base aw') = accountCache (base aw) ∧
  (kinVersion (base aw) = 4 →
   ∃ answers,
     calls aw' =
       calls aw ++
       (CallCreateSolanaAccount key (commitment (commitmentOpts c opts))
          (subsidizer (commitmentOpts c opts)) <$> answers) ∧
     createAttempts c answers err) ∧
  (kinVersion (base aw) = 2 ∨ kinVersion (base aw) = 3 →
   ∃ r,
     if bool_decide (status_Code r = CodeFailedPrecondition)
     then
       kinVersion (base aw') = 4 ∧
       ∃ answers,
         calls aw' =
           calls aw ++
           CallCreateStellarAccount key r ::
           (CallCreateSolanaAccount key (commitment (commitmentOpts c opts))
              (subsidizer (commitmentOpts c opts)) <$> answers) ∧
         createAttempts c answers err
     else
       calls aw' = calls aw ++ [CallCreateStellarAccount key r] ∧ err = r ∧
       kinVersion (base aw') = kinVersion (base aw)) ∧
  (¬ (2 ≤ kinVersion (base aw) ≤ 4) → aw' = aw ∧ err ≠ None).
Proof.
  unfold CreateAccount.
  destruct (bool_decide (kinVersion (base aw) = 2 ∨ kinVersion (base aw) = 3)) eqn:Hv.
  - apply bool_decide_eq_true in Hv. unfold rpc_CreateStellarAccount.
    destruct (CreateStellarAccount _ _ _) as [r s].
    set (aw1 := account_step s _ aw).
    destruct r as [e|].
    + destruct (bool_decide (status_Code (Some e) = CodeFailedPrecondition)) eqn:Hm.
      * intros Hrun.
        pose proof (createSolanaAccount_versions c key opts (migrate aw1)) as [Hk _].
        rewrite Hrun in Hk. simpl in Hk.
        apply createSolanaAccount_calls in Hrun
          as (answers & Hcalls & Hatt & Hlog & Hcache).
        split_and!; [done|done|lia| |lia].
        intros _. exists (Some e). rewrite Hm. split; [done|].
        exists answers. split; [|done]. rewrite Hcalls. simpl.
        by rewrite <- app_assoc.
      * intros [= <- <-]. split_and!; [done|done|lia| |lia].
        intros _. exists (Some e). rewrite Hm. by split_and!.
    + intros [= <- <-]. split_and!; [done|done|lia| |lia].
      intros _. exists None. by split_and!.
  - apply bool_decide_eq_false in Hv.
    destruct (bool_decide (kinVersion (base aw) = 4)) eqn:Hv4.
    + apply bool_decide_eq_true in Hv4. intros Hrun.
      apply createSolanaAccount_calls in Hrun
        as (answers & Hcalls & Hatt & Hlog & Hcache).
      split_and!; [done|done| |lia|lia]. intros _. by exists answers.
    + apply bool_decide_eq_false in Hv4. intros [= <- <-].
      split_and!; [done|done|done|lia|done].
Qed.

End AccountFacts.

(** X12: bob is absent on version 4 and his token account holds 42
    quarks: two queries, and 42 is the balance. *)
Lemma GetBalance_calls_witness :
  tokenBalance scriptedOpts bob [] (accountWorld 4 bobBalanceScript)
    (GetBalance scriptedOpts bob [] (accountWorld 4 bobBalanceScript)).2 (42, None).
Proof.
  assert (GetBalance scriptedOpts bob [] (accountWorld 4 bobBalanceScript)
          = ((42, None), (GetBalance scriptedOpts bob [] (accountWorld 4 bobBalanceScript)).2))
    as Hrun by (vm_compute; reflexivity).
  destruct (GetBalance_calls (R := Script) _ _ _ _ _ _ _ Hrun) as (_ & Htoken & _).
  apply Htoken. reflexivity.
Defined.

(** X13: on a service that answers every attempt with [ErrBadNonce],
    creating an account on version 4 takes the three attempts of the
    limit. *)
Lemma CreateAccount_calls_witness :
  length (calls (CreateAccount scriptedOpts alice [] (accountWorld 4 badNonceScript)).2)
    = 3%nat.
Proof.
  assert (CreateAccount scriptedOpts alice [] (accountWorld 4 badNonceScript)
          = (Some ErrBadNonce,
             (CreateAccount scriptedOpts alice [] (accountWorld 4 badNonceScript)).2))
    as Hrun by (vm_compute; reflexivity).
  destruct (CreateAccount_calls (R := Script) _ _ _ _ _ _ Hrun) as (_ & _ & Htoken & _).
  destruct Htoken as (answers & -> & init & _ & _ & _ & Hfull); [reflexivity|].
  simpl. rewrite length_fmap. by apply Hfull.
Defined.

(** ** Making a client *)

Section SetupFacts.
Context `{SetupExternals}.

(** X14: [New].  It fails for four reasons only: an environment other
    than test and prod; on version 2, an issuer address that does not
    parse; both a connection and an endpoint among the options; no
    connection given and a dial that fails.  Creating the cache never
    fails.  The client it returns holds an empty cache of capacity 500,
    the network of the environment (the Kin 2 network exactly on version
    2), the issuer of the environment on version 2 and the configured one
    otherwise, and an internal client on the same ledger version as the
    client itself, with the retry limit of the options, on the connection
    given or else dialed at the endpoint of the options or of the
    environment. *)
Theorem New_outcome env options :
  match Setup.New env options with
  | inl e => setupFailure env (Setup.configured options) e
  | inr cl =>
      let o := Setup.configured options in
      (env = EnvironmentTest ∨ env = EnvironmentProd) ∧
      Setup.internalVersion (Setup.internal cl) = Setup.kinVersion (Setup.opts cl) ∧
      Setup.kinVersion (Setup.opts cl) = Setup.kinVersion o ∧
      Setup.accountCache cl = cache_New 500 ∧
      Setup.network cl = networkOf env (Setup.kinVersion o) ∧
      (if bool_decide (Setup.kinVersion o = 2)
       then PublicKeyFromString (issuerOf env) = inr (Setup.kinIssuer (Setup.opts cl))
       else Setup.kinIssuer (Setup.opts cl) = Setup.kinIssuer o) ∧
      Setup.cc (Setup.opts cl) = Some (Setup.conn (Setup.internal cl)) ∧
      match Setup.cc o with
      | Some given => Setup.conn (Setup.internal cl) = given ∧ Setup.endpoint o = ""
      | None => grpc_Dial (dialedEndpoint env o) = inr (Setup.conn (Setup.internal cl))
      end ∧
      Setup.retryLimit (Setup.retrier (Setup.internal cl)) = Setup.maxRetries o ∧
      submissionOpts cl =
        {| maxRetries := Setup.maxRetries o;
           maxSequenceRetries := Setup.maxSequenceRetries o;
           whitelistKey := Setup.whitelistKey o;
           appIndex := Setup.appIndex o;
           kinIssuer := Setup.kinIssuer (Setup.opts cl);
           defaultCommitment := Setup.defaultCommitment o;
           network := networkOf env (Setup.kinVersion o) |}
  end.
Proof.
  unfold Setup.New, setupFailure, dialedEndpoint, networkOf, issuerOf.
  set (o := Setup.configured options). unfold Setup.environment.
  destruct (bool_decide (env = EnvironmentTest)) eqn:Htest;
    [|destruct (bool_decide (env = EnvironmentProd)) eqn:Hprod].
  3: { apply bool_decide_eq_false in Htest, Hprod. by left. }
  all: destruct (bool_decide (Setup.kinVersion o = 2)) eqn:Hv2.
  all: try (destruct (PublicKeyFromString _) as [cause|k] eqn:Hk;
            [right; left; apply bool_decide_eq_true in Hv2; split_and!; eauto|]).
  all: simpl; destruct (Setup.cc o) as [given|] eqn:Hcc; simpl.
  all: destruct (bool_decide (Setup.endpoint o ≠ "")) eqn:Hep; simpl.
  all: try (right; right; left; apply bool_decide_eq_true in Hep; by split_and!).
  all: try (destruct (grpc_Dial _) as [cause|c] eqn:Hdial;
            [right; right; right; exists cause; by split_and!|]).
  all: simpl; rewrite ?Hv2, ?Hcc; simpl.
  all: try (apply bool_decide_eq_false in Hep; apply dec_stable in Hep).
  all: try apply bool_decide_eq_true in Htest; try apply bool_decide_eq_true in Hprod.
  all: split_and!; auto.
Qed.

End SetupFacts.

(** ** The webhooks *)

Section EventsFacts.
Context `{WebhookExternals} `{EventsExternals}.

(** X15: the events handler calls its callback at most once, and exactly
    for a POST request whose body could be read and decoded and, when a
    secret is set, whose signature is the HMAC of the body; the callback
    gets the decoded events.  A request that is not delivered is answered
    with one [http.Error] of status 405, 400 or 401; after the callback,
    the handler writes nothing when it returned nil and a 500 when it
    returned an error. *)
Theorem EventsHandler_delivery secret (f : list WebhookEvent → error) r :
  let run := EventsHandler secret f r in
  (∀ events,
     delivered run = [events] ↔
       Method r = "POST" ∧
       (∃ body, Body r = inr body ∧ json_Events body = inr events) ∧
       (secret = "" ∨ signatureMatches secret r)) ∧
  (delivered run = [] ∨ ∃ events, delivered run = [events]) ∧
  (∀ events, delivered run = [events] →
     written run = match f events with
                   | Some _ => [HttpError "" StatusInternalServerError]
                   | None => []
                   end) ∧
  (delivered run = [] →
     ∃ message status, written run = [HttpError message status] ∧
       (status = StatusMethodNotAllowed ∨ status = StatusBadRequest ∨
        status = StatusUnauthorized)).
Proof.
  intros run. subst run. unfold EventsHandler.
  destruct (bool_decide (Method r ≠ "POST")) eqn:Hm.
  { apply bool_decide_eq_true in Hm. simpl. split_and!; eauto 8.
    - intros events. split; [done|]. intros [? _]. done. 
    - intros ? [=]. }
  apply bool_decide_eq_false in Hm. apply dec_stable in Hm.
  destruct (Body r) as [e|body] eqn:Hbody.
  { simpl. split_and!; eauto 8.
    - intros events. split; [done|]. intros (_ & (b & [=] & _) & _).
    - intros ? [=]. }
  pose proof (verifySignature_matches secret r body Hbody) as Hverify.
  assert (Hsec : (0 < String.length secret)%nat ↔ secret ≠ "").
  { destruct secret; simpl; split; try done; try lia. }
  destruct (bool_decide (0 < String.length secret)%nat) eqn:Hlen.
  - apply bool_decide_eq_true in Hlen. apply Hsec in Hlen.
    destruct (verifySignature _ _ _) as [e|] eqn:Hv.
    { simpl. split_and!; eauto 8.
      - intros events. split; [done|]. intros (_ & _ & [?|Hs]); [done|].
        apply Hverify in Hs. congruence.
      - intros ? [=]. }
    destruct (json_Events body) as [e|events0] eqn:Hj.
    { simpl. split_and!; eauto 8.
      - intros events. split; [done|]. intros (_ & (b & Hb & Hjb) & _). congruence.
      - intros ? [=]. }
    assert (Hd : ∀ events, [events0] = [events] ↔
       Method r = "POST" ∧
       (∃ body0, @inr Err bytes body = inr body0 ∧ json_Events body0 = inr events) ∧
       (secret = "" ∨ signatureMatches secret r)).
    { intros events. split.
      - intros [= <-]. split_and!; eauto. right. by apply Hverify.
      - intros (_ & (b & [= <-] & Hjb) & _). congruence. }
    destruct (f events0) eqn:Hf; simpl; split_and!; eauto; try done.
    + intros ? [= <-]. by rewrite Hf.
    + intros ? [= <-]. by rewrite Hf.
  - apply bool_decide_eq_false in Hlen.
    assert (secret = "") as -> by (destruct secret; simpl in *; [done|lia]).
    destruct (json_Events body) as [e|events0] eqn:Hj.
    { simpl. split_and!; eauto 8.
      - intros events. split; [done|]. intros (_ & (b & Hb & Hjb) & _). congruence.
      - intros ? [=]. }
    assert (Hd : ∀ events, [events0] = [events] ↔
       Method r = "POST" ∧
       (∃ body0, @inr Err bytes body = inr body0 ∧ json_Events body0 = inr events) ∧
       ("" = "" ∨ signatureMatches "" r)).
    { intros events. split.
      - intros [= <-]. split_and!; eauto.
      - intros (_ & (b & [= <-] & Hjb) & _). congruence. }
    destruct (f events0) eqn:Hf; simpl; split_and!; eauto; try done.
    + intros ? [= <-]. by rewrite Hf.
    + intros ? [= <-]. by rewrite Hf.
Qed.
End EventsFacts.

Section SignFacts.
Context `{Externals} `{WebhookExternals} `{SignExternals}.

Lemma Sign_fields priv r :
  resp_network (Sign priv r).2 = resp_network r ∧
  rejected (Sign priv r).2 = rejected r ∧
  errors (Sign priv r).2 = errors r ∧
  (envelope r = None → Sign priv r = (None, r)).
Proof.
  unfold Sign. destruct (envelope r) as [e|]; [|done].
  destruct (SignEnvelope _ _ _); done.
Qed.

Lemma runCallback_calls cb : ∀ r,
  let r' := (runCallback cb r).2 in
  resp_network r' = resp_network r ∧
  errors r' = errors r ++ marksOf (callsOf cb r) ∧
  rejected r' = rejected r || existsb rejecting (callsOf cb r) ∧
  (envelope r = None → envelope r' = None) ∧
  (existsb signing (callsOf cb r) = false → envelope r' = envelope r).
Proof.
  induction cb as [err|priv next IH|next IH|next IH|idx next IH|idx next IH|idx next IH];
    intros r; simpl.
  - rewrite app_nil_r, orb_false_r. done.
  - pose proof (Sign_fields priv r) as (Hn & Hr & He & Henv).
    destruct (Sign priv r) as [err r1] eqn:HS. simpl in *.
    destruct (IH err r1) as (IHn & IHe & IHr & IHenv & _).
    split_and!; try congruence; try done.
    intros Hnone. specialize (Henv Hnone). injection Henv as -> ->. auto.
  - destruct (IH (Reject r)) as (IHn & IHe & IHr & IHenv & IHs).
    split_and!; try done. rewrite IHr. simpl. by rewrite orb_true_r.
  - destruct (IH (IsRejected r) r) as (IHn & IHe & IHr & IHenv & IHs). done.
  - destruct (IH (MarkAlreadyPaid idx r)) as (IHn & IHe & IHr & IHenv & IHs).
    split_and!; try done.
    + rewrite IHe. simpl. by rewrite <- app_assoc.
    + rewrite IHr. simpl. by rewrite orb_true_r.
  - destruct (IH (MarkWrongDestination idx r)) as (IHn & IHe & IHr & IHenv & IHs).
    split_and!; try done.
    + rewrite IHe. simpl. by rewrite <- app_assoc.
    + rewrite IHr. simpl. by rewrite orb_true_r.
  - destruct (IH (MarkSKUNotFound idx r)) as (IHn & IHe & IHr & IHenv & IHs).
    split_and!; try done.
    + rewrite IHe. simpl. by rewrite <- app_assoc.
    + rewrite IHr. simpl. by rewrite orb_true_r.
Qed.

Lemma runCallback_answers cb : ∀ r before answer after,
  callsOf cb r = before ++ IsRejectedCall answer :: after →
  answer = rejected r || existsb rejecting before.
Proof.
  induction cb as [err|priv next IH|next IH|next IH|idx next IH|idx next IH|idx next IH];
    intros r before answer after; simpl.
  - by destruct before.
  - pose proof (Sign_fields priv r) as (Hn & Hr & He & Henv).
    destruct (Sign priv r) as [err r1] eqn:HS. simpl in *.
    destruct before as [|c before]; simpl; [done|].
    intros [= <- Hc]. apply (IH err) in Hc. simpl. congruence.
  - destruct before as [|c before]; simpl; [done|].
    intros [= <- Hc]. apply IH in Hc. simpl in *. by rewrite orb_true_r.
  - destruct before as [|c before]; simpl.
    + intros [= <- _]. unfold IsRejected. by rewrite orb_false_r.
    + intros [= <- Hc]. apply IH in Hc. done.
  - destruct before as [|c before]; simpl; [done|].
    intros [= <- Hc]. apply IH in Hc. simpl in *. by rewrite orb_true_r.
  - destruct before as [|c before]; simpl; [done|].
    intros [= <- Hc]. apply IH in Hc. simpl in *. by rewrite orb_true_r.
  - destruct before as [|c before]; simpl; [done|].
    intros [= <- Hc]. apply IH in Hc. simpl in *. by rewrite orb_true_r.
Qed.

(** X16: whatever methods a callback calls on a response, in whatever
    order: the network is unchanged; the invoice errors are those it had,
    followed by one per [Mark] call in the order of the calls, with the
    index taken modulo 2^32; the response ends up rejected exactly when
    it was rejected before or [Reject] or a [Mark] method was called, and
    every [IsRejected] call is answered by that rule for the calls made
    before it; a response without an envelope (a Kin 4 request) never
    gets one, whatever is signed; and without a call of [Sign] the
    envelope is the one it had. *)
Theorem callback_response cb r :
  let r' := (runCallback cb r).2 in
  let calls := callsOf cb r in
  resp_network r' = resp_network r ∧
  errors r' = errors r ++ marksOf calls ∧
  IsRejected r' = rejected r || existsb rejecting calls ∧
  (∀ before answer after,
     calls = before ++ IsRejectedCall answer :: after →
     answer = rejected r || existsb rejecting before) ∧
  (envelope r = None → envelope r' = None) ∧
  (existsb signing calls = false → envelope r' = envelope r).
Proof.
  intros r' calls. subst r' calls.
  destruct (runCallback_calls cb r) as (Hn & He & Hr & Henv & Hs).
  split_and!; try done. apply runCallback_answers.
Qed.


Lemma SignTransactionHandler_steps secret r :
  match SignTransactionHandler secret r with
  | Respond status _ =>
      status = StatusMethodNotAllowed ∨ status = StatusBadRequest ∨
      status = StatusUnauthorized
  | Proceed v => ∃ body, Body r = inr body
  end.
Proof.
  unfold SignTransactionHandler.
  destruct (bool_decide (Method r ≠ "POST")); [auto|].
  destruct (Body r) as [e|body]; [auto|].
  destruct (if bool_decide (0 < String.length secret)%nat then _ else _); [auto|].
  destruct (json_KinVersion body) as [e|v0]; [auto|].
  destruct (bool_decide (_ ∨ _)); eauto.
Qed.

Lemma answerSignTransaction_delivered f req resp :
  delivered (answerSignTransaction f req resp) = [req].
Proof.
  unfold answerSignTransaction.
  destruct (runCallback (f req) resp) as [[e|] resp']; [done|].
  destruct (IsRejected resp'); [done|].
  destruct (envelope resp') as [e|]; [|done].
  destruct (MarshalBinary e); done.
Qed.

Lemma handleSignTransaction_run env secret f r :
  let run := handleSignTransaction env secret f r in
  (delivered run = [] ∧
   ∃ message status, written run = [HttpError message status] ∧
     (status = StatusMethodNotAllowed ∨ status = StatusBadRequest ∨
      status = StatusUnauthorized)) ∨
  (∃ body v req,
     Body r = inr body ∧ SignTransactionHandler secret r = Proceed v ∧
     requestOf env r body v req ∧
     run = answerSignTransaction f req (freshResponse env req)).
Proof.
  intros run. subst run. unfold handleSignTransaction.
  pose proof (SignTransactionHandler_steps secret r) as Hsteps.
  destruct (SignTransactionHandler secret r) as [status message|v] eqn:Hstep.
  { left. simpl. eauto. }
  destruct Hsteps as [body Hbody]. rewrite Hbody.
  unfold dispatchSignTransaction.
  set (decoded := if bool_decide (0 < length (json_InvoiceList body))%nat then _ else _).
  destruct decoded as [e|invoiceList] eqn:Hdec.
  { left. simpl. eauto 8. }
  assert (Hil : if bool_decide (0 < length (json_InvoiceList body))%nat
     then ∃ il, proto_Unmarshal (json_InvoiceList body) = inr il ∧ invoiceList = Some il
     else invoiceList = None).
  { subst decoded. destruct (bool_decide (0 < length _)%nat).
    - destruct (proto_Unmarshal _) as [e|il]; [done|]. injection Hdec as <-. eauto.
    - by injection Hdec as <-. }
  destruct (bool_decide (v = 4)) eqn:Hv.
  - destruct (solana_Unmarshal _) as [e|tx] eqn:Htx; [left; simpl; eauto 8|].
    destruct (parsePaymentsFromTransaction tx invoiceList) as [e|payments] eqn:Hp;
      [left; simpl; eauto 8|].
    right.
    exists body, v,
      {| UserID := header_Get AppUserIDHeader (Header r);
         UserPasskey := header_Get AppUserPasskeyHeader (Header r);
         Payments := payments; ReqEnvelope := None;
         req_network := handlerNetwork env; SolanaTransaction := Some tx |}.
    split_and!; [done|done| |reflexivity].
    unfold requestOf. simpl. split_and!; try done.
    exists invoiceList. split; [done|]. rewrite Hv. eauto.
  - destruct (xdr_UnmarshalBinary _) as [e|en] eqn:Htx; [left; simpl; eauto 8|].
    destruct (parsePaymentsFromEnvelope en _ invoiceList v) as [e|payments] eqn:Hp;
      [left; simpl; eauto 8|].
    right.
    exists body, v,
      {| UserID := header_Get AppUserIDHeader (Header r);
         UserPasskey := header_Get AppUserPasskeyHeader (Header r);
         Payments := payments; ReqEnvelope := Some en;
         req_network := handlerNetwork env; SolanaTransaction := None |}.
    split_and!; [done|done| |reflexivity].
    unfold requestOf. simpl. split_and!; try done.
    exists invoiceList. split; [done|]. rewrite Hv. eauto.
Qed.

Lemma handlerNetwork_kin3 env :
  handlerNetwork env ≠ kin2Testnet ∧ handlerNetwork env ≠ kin2TMainnet.
Proof.
  unfold handlerNetwork.
  destruct (bool_decide (env = EnvironmentTest)); [done|].
  destruct (bool_decide (env = EnvironmentProd)); done.
Qed.

(** X17: the sign-transaction handler either refuses the request with
    one [http.Error] of status 405, 400 or 401 and never calls the
    callback, or calls it once, with a request built from the headers and
    the decoded body.  On version 4 that request carries the Solana
    transaction only: [TxID] is its signature and [TxHash] fails.  On
    versions 2 and 3 it carries the envelope only, and [TxID] and [TxHash]
    are its hash under the network of the environment alone: the Kin 2
    networks are never used. *)
Theorem sign_request_delivery env secret f r :
  let run := handleSignTransaction env secret f r in
  (delivered run = [] ∧
   ∃ message status, written run = [HttpError message status] ∧
     (status = StatusMethodNotAllowed ∨ status = StatusBadRequest ∨
      status = StatusUnauthorized)) ∨
  (∃ body v req,
     delivered run = [req] ∧
     Body r = inr body ∧ SignTransactionHandler secret r = Proceed v ∧
     requestOf env r body v req ∧
     (v = 4 →
        TxHash req = ([], Some (ErrNew "this transaction has no hash")) ∧
        ∃ tx, SolanaTransaction req = Some tx ∧ ReqEnvelope req = None ∧
              SignTxID req = (solana_Signature tx, None)) ∧
     (v ≠ 4 →
        ∃ e, ReqEnvelope req = Some e ∧ SolanaTransaction req = None ∧
             TxHash req = HashTransaction e (handlerNetwork env) ∧
             SignTxID req = HashTransaction e (handlerNetwork env)) ∧
     req_network req ≠ kin2Testnet ∧ req_network req ≠ kin2TMainnet).
Proof.
  intros run.
  destruct (handleSignTransaction_run env secret f r)
    as [Hrefused|(body & v & req & Hbody & Hstep & Hreq & Hrun)]; [by left|].
  right. exists body, v, req. fold run in Hrun.
  pose proof Hreq as (_ & _ & Hnet & il & _ & Htx).
  split_and!; try done.
  - rewrite Hrun. apply answerSignTransaction_delivered.
  - intros ->. simpl in Htx. destruct Htx as (tx & _ & Hs & He & _).
    unfold TxHash, SignTxID. rewrite Hs, He. eauto.
  - intros Hv. rewrite bool_decide_eq_false_2 in Htx by done.
    destruct Htx as (e & _ & He & Hs & _).
    unfold TxHash, SignTxID. rewrite Hs, He, Hnet. eauto.
  - rewrite Hnet. apply handlerNetwork_kin3.
  - rewrite Hnet. apply handlerNetwork_kin3.
Qed.

(** X18: the answer to a delivered request.  A callback error gives a
    bare 500.  Otherwise the content type is set first, and: if the
    callback called [Reject] or a [Mark] method, a 403 whose body lists
    one invoice error per [Mark] call in order; if not, a success body
    with the marshalled envelope of the response, or a 500 when it cannot
    be marshalled.  For a Solana request the success body never has an
    envelope; with no [Sign] call, the envelope is the one of the
    request. *)
Theorem sign_answer env secret f r req :
  delivered (handleSignTransaction env secret f r) = [req] →
  let calls := callsOf (f req) (freshResponse env req) in
  let err := (runCallback (f req) (freshResponse env req)).1 in
  let resp := (runCallback (f req) (freshResponse env req)).2 in
  let ops := written (handleSignTransaction env secret f r) in
  (err ≠ None → ops = [WriteHeader StatusInternalServerError]) ∧
  (err = None → existsb rejecting calls = true →
     ∃ rest, ops = contentType :: WriteHeader StatusForbidden :: rest ∧
             encodes (ForbiddenResponse "rejected" (marksOf calls)) rest) ∧
  (err = None → existsb rejecting calls = false →
     match envelope resp with
     | None => ∃ rest, ops = contentType :: rest ∧ encodes (SuccessResponse None) rest
     | Some e =>
         match MarshalBinary e with
         | inr b =>
             ∃ rest, ops = contentType :: rest ∧ encodes (SuccessResponse (Some b)) rest
         | inl _ =>
             ops = [contentType;
                    HttpError "failed to marshal envelope" StatusInternalServerError]
         end
     end) ∧
  (SolanaTransaction req ≠ None → envelope resp = None) ∧
  (existsb signing calls = false → envelope resp = ReqEnvelope req).
Proof.
  intros Hdel calls err resp ops.
  destruct (handleSignTransaction_run env secret f r)
    as [[Hnone _]|(body & v & req' & Hbody & Hstep & Hreq & Hrun)]; [congruence|].
  assert (req' = req) as ->.
  { rewrite Hrun, answerSignTransaction_delivered in Hdel. congruence. }
  subst ops. rewrite Hrun. clear Hrun Hdel.
  destruct (runCallback_calls (f req) (freshResponse env req))
    as (_ & Herrs & Hrej & Henv & Hsig).
  fold resp calls in Herrs, Hrej, Henv, Hsig. simpl in Herrs, Hrej.
  unfold answerSignTransaction.
  assert (Hpair : runCallback (f req) (freshResponse env req) = (err, resp))
    by (subst err resp; by destruct (runCallback _ _)).
  rewrite Hpair. unfold IsRejected. rewrite Hrej.
  unfold encodes, contentType.
  split_and!.
  - intros Herr. destruct err; done.
  - intros -> ->. rewrite Herrs.
    destruct (encode_error _); eauto.
  - intros -> ->.
    destruct (envelope resp) as [e|].
    + destruct (MarshalBinary e) as [?|b]; [done|].
      destruct (encode_error _); eauto.
    + destruct (encode_error _); eauto.
  - intros Hs. apply Henv. simpl.
    destruct Hreq as (_ & _ & _ & il & _ & Htx).
    destruct (bool_decide (v = 4)).
    + by destruct Htx as (tx & _ & _ & He & _).
    + destruct Htx as (e & _ & _ & Hno & _). congruence.
  - intros Hs. by rewrite Hsig.
Qed.

End SignFacts.

(** X18: a Kin 4 request whose callback marks payment 0 as paid and then
    signs is answered with a 403 that lists this one error. *)
Lemma sign_answer_witness :
  ∃ rest,
    written (handleSignTransaction EnvironmentTest "" markingCallback version4Request)
      = contentType :: WriteHeader StatusForbidden :: rest ∧
    encodes (ForbiddenResponse "rejected" [(0, ReasonAlreadyPaid)]) rest.
Proof.
  pose (req := {| UserID := "user"; UserPasskey := ""; Payments := [];
                  ReqEnvelope := None; req_network := testnet;
                  SolanaTransaction := Some plainTx |}).
  assert (delivered (handleSignTransaction EnvironmentTest "" markingCallback
                       version4Request) = [req]) as Hdel by (vm_compute; reflexivity).
  destruct (sign_answer _ _ _ _ _ Hdel) as (_ & Hrejected & _).
  exact (Hrejected eq_refl eq_refl).
Defined.

(** ** The resolution fallback *)

(** *** The resolution leaves the caller's memory alone *)

Section HeapFrame.
Context `{Externals} {R : Type} `{Service R}.
Implicit Types (w : World R) (c : clientOpts) (h : gmap loc (list Earn)).

(** The resolution of token accounts neither reads nor writes the
    caller's memory: it runs the same way whatever the heap holds. *)
Lemma Loop_set_heap h account ss fuel : ∀ i w accts,
  Loop fuel i (resolve_action account) ss (set_heap h w, accts) =
    (λ r : (nat * error) * (World R * list PublicKey),
       (r.1, (set_heap h r.2.1, r.2.2)))
      <$> Loop fuel i (resolve_action account) ss (w, accts).
Proof.
  induction fuel as [|fuel IH]; intros i w accts; [done|].
  cbn [Loop]. unfold resolve_action at 1 3, rpc_ResolveTokenAccounts. simpl.
  destruct (ResolveTokenAccounts account (remote w)) as [[e|accts'] s].
  - destruct (forallb _ ss); [|done]. apply (IH (S i) (step_remote s _ w)).
  - destruct (bool_decide (length accts' = 0%nat)); [|done].
    destruct (forallb _ ss); [|done]. apply (IH (S i) (step_remote s _ w)).
Qed.

Lemma fetchTokenAccounts_set_heap h c account w :
  fetchTokenAccounts c account (set_heap h w) =
    ((fetchTokenAccounts c account w).1,
     set_heap h (fetchTokenAccounts c account w).2).
Proof.
  unfold fetchTokenAccounts, Retry.
  destruct (attempts_bound _) as [n|]; [|done].
  rewrite Loop_set_heap.
  destruct (Loop n 1 _ _ (w, [])) as [[[j e] [w1 a1]]|]; simpl; [|done].
  destruct (bool_decide (length a1 = 0%nat)); done.
Qed.

Lemma resolveTokenAccounts_set_heap h c account w :
  resolveTokenAccounts c account (set_heap h w) =
    ((resolveTokenAccounts c account w).1,
     set_heap h (resolveTokenAccounts c account w).2).
Proof.
  unfold resolveTokenAccounts. simpl.
  destruct (cache_Get (Base58 account) (accountCache w)) as [[entry|] cache1].
  - unfold time_Since. simpl.
    destruct (bool_decide _); [done|].
    apply (fetchTokenAccounts_set_heap h c account
             (set_accountCache (cache_Remove (Base58 account) cache1)
                (set_accountCache cache1 w))).
  - apply (fetchTokenAccounts_set_heap h c account (set_accountCache cache1 w)).
Qed.

Lemma resolvedFirst_set_heap h mode c key w :
  resolvedFirst mode c key (set_heap h w) =
    ((resolvedFirst mode c key w).1, set_heap h (resolvedFirst mode c key w).2).
Proof.
  unfold resolvedFirst. destruct (is_Preferred mode); [|done].
  rewrite resolveTokenAccounts_set_heap.
  by destruct (resolveTokenAccounts c key w) as [[accts err] w'].
Qed.

Lemma resolvedDestinations_set_heap h mode c earns : ∀ w,
  resolvedDestinations mode c earns (set_heap h w) =
    ((resolvedDestinations mode c earns w).1,
     set_heap h (resolvedDestinations mode c earns w).2).
Proof.
  induction earns as [|earn rest IH]; intros w; [done|].
  cbn [resolvedDestinations]. rewrite resolvedFirst_set_heap.
  destruct (resolvedFirst mode c (EDestination earn) w) as [d w1]. simpl.
  rewrite IH. by destruct (resolvedDestinations mode c rest w1).
Qed.

Lemma resolvedFirst_heap mode c key w :
  heap (resolvedFirst mode c key w).2 = heap w.
Proof.
  pose proof (resolvedFirst_frame mode c key w) as (Hcv & _). by injection Hcv.
Qed.

Lemma resolvedDestinations_spec mode c earns : ∀ w,
  length (resolvedDestinations mode c earns w).1 = length earns ∧
  heap (resolvedDestinations mode c earns w).2 = heap w ∧
  submittedTxs (log (resolvedDestinations mode c earns w).2) = submittedTxs (log w) ∧
  (is_Preferred mode = false →
     resolvedDestinations mode c earns w = (replicate (length earns) None, w)).
Proof.
  induction earns as [|earn rest IH]; intros w; [done|].
  cbn [resolvedDestinations].
  pose proof (resolvedFirst_frame mode c (EDestination earn) w) as (Hcv & Htx & _).
  assert (is_Preferred mode = false →
          resolvedFirst mode c (EDestination earn) w = (None, w)) as Hoff.
  { unfold resolvedFirst. by intros ->. }
  destruct (resolvedFirst mode c (EDestination earn) w) as [d w1]. simpl in *.
  destruct (IH w1) as (Hlen & Hheap & Htxs & Hmode).
  destruct (resolvedDestinations mode c rest w1) as [ds w2]. simpl in *.
  injection Hcv as _ _ Hh. split_and!; try congruence.
  intros Hm. specialize (Hoff Hm). specialize (Hmode Hm). congruence.
Qed.


Lemma set_heap_same w : set_heap (heap w) w = w.
Proof. by destruct w. Qed.

Lemma resolveEarnDestinations_chain c batch : ∀ rest pre b w,
  heap w !! Earns batch = Some (pre ++ rest) →
  resolveEarnDestinations c batch (length pre) (length rest) b w =
    ((None, b || anyResolved (resolvedDestinations AccountResolutionPreferred c rest w).1),
     set_heap
       (<[Earns batch :=
            pre ++ withDestinations
                     (resolvedDestinations AccountResolutionPreferred c rest w).1 rest]>
          (heap w))
       (resolvedDestinations AccountResolutionPreferred c rest w).2).
Proof.
  induction rest as [|earn rest IH]; intros pre b w Hcell.
  - simpl. rewrite orb_false_r, insert_id by done. by rewrite set_heap_same.
  - cbn [length resolveEarnDestinations resolvedDestinations].
    unfold earnsOf at 1. rewrite Hcell. simpl.
    rewrite list_lookup_middle by done.
    unfold resolvedFirst. simpl.
    destruct (resolveTokenAccounts c (EDestination earn) w) as [[accts rerr] w1] eqn:Hres.
    pose proof (resolveTokenAccounts_heap c (EDestination earn) w) as Hheap.
    rewrite Hres in Hheap. simpl in Hheap.
    apply resolveTokenAccounts_frame in Hres as (-> & _).
    destruct (head accts) as [d|].
    + set (earn' := set_EDestination d earn).
      assert (storeDestination batch (length pre) d w1 =
              set_heap (<[Earns batch := (pre ++ [earn']) ++ rest]> (heap w)) w1) as ->.
      { unfold storeDestination. rewrite Hheap, Hcell.
        rewrite list_lookup_middle by done.
        rewrite insert_app_r_alt by lia. rewrite Nat.sub_diag. simpl.
        by rewrite <- app_assoc. }
      replace (S (length pre)) with (length (pre ++ [earn']))
        by (rewrite length_app; simpl; lia).
      rewrite IH by (simpl; apply lookup_insert_eq).
      rewrite resolvedDestinations_set_heap.
      destruct (resolvedDestinations AccountResolutionPreferred c rest w1) as [ds w2].
      simpl. rewrite insert_insert_eq, <- app_assoc. simpl.
      by rewrite orb_true_r.
    + replace (S (length pre)) with (length (pre ++ [earn]))
        by (rewrite length_app; simpl; lia).
      rewrite IH by (rewrite Hheap, Hcell; by rewrite <- app_assoc).
      destruct (resolvedDestinations AccountResolutionPreferred c rest w1) as [ds w2].
      simpl. by rewrite Hheap, <- app_assoc.
Qed.

Lemma resolveEarnDestinations_resolved c batch b w :
  resolveEarnDestinations c batch 0 (length (earnsOf batch w)) b w =
    ((None,
      b || anyResolved
             (resolvedDestinations AccountResolutionPreferred c (earnsOf batch w) w).1),
     storeDestinations batch
       (resolvedDestinations AccountResolutionPreferred c (earnsOf batch w) w).1
       (resolvedDestinations AccountResolutionPreferred c (earnsOf batch w) w).2).
Proof.
  unfold storeDestinations, earnsOf.
  destruct (resolvedDestinations_spec AccountResolutionPreferred c
              (default [] (heap w !! Earns batch)) w) as (_ & Hheap & _).
  rewrite Hheap.
  destruct (heap w !! Earns batch) as [earns|] eqn:Hcell; simpl.
  - pose proof (resolveEarnDestinations_chain c batch earns [] b w Hcell) as Hchain.
    simpl in Hchain. by rewrite Hchain.
  - by rewrite orb_false_r.
Qed.


Lemma withDestinations_unresolved ds (earns : list Earn) :
  anyResolved ds = false → length ds = length earns → withDestinations ds earns = earns.
Proof.
  revert earns. induction ds as [|d ds IH]; intros [|e earns]; try done.
  simpl. destruct d as [d|]; [done|]. simpl. intros Hany [= Hlen].
  unfold withDestinations in *. simpl. f_equal. by apply IH.
Qed.

Lemma storeDestinations_unresolved batch ds w :
  anyResolved ds = false → length ds = length (earnsOf batch w) →
  storeDestinations batch ds w = w.
Proof.
  unfold storeDestinations, earnsOf. intros Hany Hlen.
  destruct (heap w !! Earns batch) as [earns|] eqn:Hcell; [|done]. simpl in Hlen.
  rewrite withDestinations_unresolved, insert_id by done. apply set_heap_same.
Qed.

Lemma storeDestinations_earns batch ds w :
  length ds = length (earnsOf batch w) →
  earnsOf batch (storeDestinations batch ds w) = withDestinations ds (earnsOf batch w).
Proof.
  unfold storeDestinations, earnsOf.
  destruct (heap w !! Earns batch) as [earns|] eqn:Hcell; simpl.
  - intros _. by rewrite lookup_insert_eq.
  - rewrite Hcell. by destruct ds.
Qed.

Lemma withDestinations_invoices ds (earns : list Earn) :
  length ds = length earns →
  EInvoice <$> withDestinations ds earns = EInvoice <$> earns ∧
  hasInvoice <$> head (withDestinations ds earns) = hasInvoice <$> head earns.
Proof.
  revert earns. induction ds as [|d ds IH]; intros [|e earns]; try done.
  intros [= Hlen]. destruct (IH earns Hlen) as [IHi _].
  unfold withDestinations in *. csimpl. rewrite IHi. by destruct d.
Qed.

Lemma solanaEarnBatchTx_transfers c batch earns config ts sub signers tx il :
  solanaEarnBatchTx c batch earns config ts sub = inr (signers, tx, il) →
  transfers tx =
    (λ earn, (default (Public (BSender batch)) ts, EDestination earn)) <$> earns.
Proof.
  assert (∀ pre payer src owner,
    transfers (NewTransaction payer
      (pre ++ ((λ earn : Earn, TokenTransfer src (EDestination earn) owner
                          (to_uint64 (EQuarks earn))) <$> earns))) =
    transfers (NewTransaction payer pre) ++
      ((λ earn : Earn, (src, EDestination earn)) <$> earns)) as Htr.
  { intros pre payer src owner. unfold transfers. simpl. rewrite omap_app. f_equal.
    induction earns as [|e earns IH]; [done|]. simpl. by f_equal. }
  intros Hasm.
  assert (match solanaEarnBatchTx c batch earns config ts sub with
          | inr (_, tx, _) =>
              transfers tx =
                (λ earn, (default (Public (BSender batch)) ts, EDestination earn)) <$> earns
          | inl _ => True
          end) as Hall; [|by rewrite Hasm in Hall].
  unfold solanaEarnBatchTx.
  destruct sub as [sk|]; destruct (bool_decide (BMemo batch ≠ ""));
    try (by rewrite Htr).
  all: destruct (bool_decide (0 < appIndex c)%N); [|by rewrite (Htr [])].
  all: destruct (head earns) as [e0|]; [|done].
  all: destruct (hasInvoice e0).
  all: try destruct (proto_Marshal _) as [e|b]; try done.
  all: destruct (NewMemo _ _ _ _) as [e|m]; [done|].
  all: by rewrite Htr.
Qed.

Lemma solanaEarnBatchTx_resubmit c batch earns config ts sub ds ts' x :
  length ds = length earns →
  solanaEarnBatchTx c batch earns config ts sub = inr x →
  ∃ y, solanaEarnBatchTx c batch (withDestinations ds earns) config ts' sub = inr y.
Proof.
  intros Hlen. destruct (withDestinations_invoices ds earns Hlen) as [Hil Hhead].
  unfold solanaEarnBatchTx. rewrite Hil. destruct sub as [sk|]; simpl.
  all: destruct (bool_decide (BMemo batch ≠ "")); simpl; [by eexists|].
  all: destruct (bool_decide (0 < appIndex c)%N); simpl; [|by eexists].
  all: destruct (head earns) as [e0|], (head (withDestinations ds earns)) as [e0'|];
    try done.
  all: injection Hhead as ->.
  all: destruct (hasInvoice e0).
  all: try destruct (proto_Marshal _) as [e|b]; try done.
  all: destruct (NewMemo _ _ _ _) as [e|m]; [done|by eexists].
Qed.

Lemma submitSolanaEarnBatch_assembled c batch config cm ts sub w result w' :
  submitSolanaEarnBatch c batch config cm ts sub w = ((result, None), w') →
  ∃ x, solanaEarnBatchTx c batch (earnsOf batch w) config ts sub = inr x.
Proof.
  unfold submitSolanaEarnBatch.
  destruct (solanaEarnBatchTx _ _ _ _ _ _) as [e|x]; [done|]. by exists x.
Qed.

(** [submitEarnBatchWithResolution] in terms of the resolution steps:
    submit; on an absent account resolve the sender and every
    destination, and submit the batch with the resolved accounts once
    more when there is one. *)
Lemma submitEarnBatchWithResolution_resolved c batch config o w :
  submitEarnBatchWithResolution c batch config o w =
    let '((result, err), w1) :=
      submitSolanaEarnBatch c batch config (commitment o) None (subsidizer o) w in
    match err with
    | Some e => ((result, Some e), w1)
    | None =>
        if err_is (TxError (Errors result)) ErrAccountDoesNotExist
        then
          let '(sa, w2) :=
            resolvedFirst (accountResolution o) c (Public (BSender batch)) w1 in
          let '(ds, w3) :=
            resolvedDestinations (destResolution o) c (earnsOf batch w2) w2 in
          if bool_decide (is_Some sa) || anyResolved ds
          then submitSolanaEarnBatch c batch config (commitment o) sa (subsidizer o)
                 (storeDestinations batch ds w3)
          else ((result, None), w3)
        else ((result, None), w1)
    end.
Proof.
  rewrite submitEarnBatchWithResolution_unfold.
  destruct (submitSolanaEarnBatch c batch config (commitment o) None (subsidizer o) w)
    as [[result [e|]] w1]; [done|].
  destruct (err_is _ _); [|done].
  destruct (resolvedFirst (accountResolution o) c (Public (BSender batch)) w1)
    as [sa w2].
  destruct (resolvedDestinations_spec (destResolution o) c (earnsOf batch w2) w2)
    as (Hlen & Hheap & _ & Hoff).
  destruct (is_Preferred (destResolution o)) eqn:Hmode.
  - apply bool_decide_eq_true in Hmode. rewrite Hmode in *.
    rewrite resolveEarnDestinations_resolved.
    destruct (resolvedDestinations AccountResolutionPreferred c (earnsOf batch w2) w2)
      as [ds w3]. simpl in *.
    destruct (bool_decide (is_Some sa) || anyResolved ds) eqn:Hre; [done|].
    apply orb_false_iff in Hre as [_ Hany].
    rewrite storeDestinations_unresolved; [done..|].
    unfold earnsOf in *. by rewrite Hheap.
  - rewrite (Hoff eq_refl).
    assert (anyResolved (replicate (length (earnsOf batch w2)) None) = false) as Hany.
    { unfold anyResolved. generalize (length (earnsOf batch w2)).
      intros n. induction n as [|n IHn]; [done|]. simpl. exact IHn. }
    rewrite Hany, orb_false_r.
    rewrite storeDestinations_unresolved; [done..|]. by rewrite length_replicate.
Qed.

End HeapFrame.

Section Fallback.
Context `{Externals} {R : Type} `{Service R}.
Implicit Types (w : World R) (c : clientOpts).

(** C2.  On the token ledger, a payment or an earn batch is handed to the
    submission loop at most twice in one call.  When the first
    submission comes back with the transaction error
    [ErrAccountDoesNotExist], the sender and the destination (for a
    batch: the destination of every earn, one after the other) are
    resolved, each only in the mode Preferred.  If a token account
    resolves, the call is the outcome of exactly one more submission, in
    which the first resolved account stands for the sender and for each
    destination that has one, the others being as they were; nothing is
    submitted after it.  If none resolves, the call returns the first
    result, with its [ErrAccountDoesNotExist], unchanged, and the earns
    of the batch are as they were. *)
Theorem resolution_fallback_once c o :
  (∀ payment w,
     (length (submittedTxs (log (submitPaymentWithResolution c payment o w).2))
      ≤ length (submittedTxs (log w)) + 2)%nat) ∧
  (∀ payment w config w1 result1 w2 sa w3 da w4,
     rpc_GetServiceConfig w = (inr config, w1) →
     SubsidizerAccount config ≠ None ∨ subsidizer o ≠ None →
     submitSolanaPayment c payment config (commitment o) None (subsidizer o) w1
       = ((result1, None), w2) →
     TxError (Errors result1) = Some ErrAccountDoesNotExist →
     resolvedFirst (accountResolution o) c (Public (Sender payment)) w2 = (sa, w3) →
     resolvedFirst (destResolution o) c (Destination payment) w3 = (da, w4) →
     (is_Some sa ∨ is_Some da →
        submitPaymentWithResolution c payment o w
          = submitSolanaPayment c (withDestination da payment) config (commitment o)
              sa (subsidizer o) w4 ∧
        ∃ tx1 tx2,
          submittedTxs (log (submitPaymentWithResolution c payment o w).2)
            = submittedTxs (log w) ++ [tx1; tx2] ∧
          transfers tx1 = [(Public (Sender payment), Destination payment)] ∧
          transfers tx2 = [(default (Public (Sender payment)) sa,
                            default (Destination payment) da)]) ∧
     (sa = None → da = None →
        submitPaymentWithResolution c payment o w = ((result1, None), w4) ∧
        ∃ tx1, submittedTxs (log w4) = submittedTxs (log w) ++ [tx1])) ∧
  (∀ batch config w,
     (length (submittedTxs (log (submitEarnBatchWithResolution c batch config o w).2))
      ≤ length (submittedTxs (log w)) + 2)%nat) ∧
  (∀ batch config w result1 w1 sa w2 resubmit w3,
     submitSolanaEarnBatch c batch config (commitment o) None (subsidizer o) w
       = ((result1, None), w1) →
     TxError (Errors result1) = Some ErrAccountDoesNotExist →
     resolvedFirst (accountResolution o) c (Public (BSender batch)) w1 = (sa, w2) →
     (if is_Preferred (destResolution o)
      then resolveEarnDestinations c batch 0 (length (earnsOf batch w2))
             (bool_decide (is_Some sa)) w2
      else ((None, bool_decide (is_Some sa)), w2)) = ((None, resubmit), w3) →
     submitEarnBatchWithResolution c batch config o w
       = (if resubmit
          then submitSolanaEarnBatch c batch config (commitment o) sa (subsidizer o) w3
          else ((result1, None), w3))) ∧
  (∀ batch config w result1 w1 sa w2 ds w3,
     submitSolanaEarnBatch c batch config (commitment o) None (subsidizer o) w
       = ((result1, None), w1) →
     TxError (Errors result1) = Some ErrAccountDoesNotExist →
     resolvedFirst (accountResolution o) c (Public (BSender batch)) w1 = (sa, w2) →
     resolvedDestinations (destResolution o) c (earnsOf batch w) w2 = (ds, w3) →
     (is_Some sa ∨ anyResolved ds = true →
        submitEarnBatchWithResolution c batch config o w
          = submitSolanaEarnBatch c batch config (commitment o) sa (subsidizer o)
              (storeDestinations batch ds w3) ∧
        earnsOf batch (submitEarnBatchWithResolution c batch config o w).2
          = withDestinations ds (earnsOf batch w) ∧
        ∃ tx1 tx2,
          submittedTxs (log (submitEarnBatchWithResolution c batch config o w).2)
            = submittedTxs (log w) ++ [tx1; tx2] ∧
          transfers tx1
            = (λ earn, (Public (BSender batch), EDestination earn)) <$> earnsOf batch w ∧
          transfers tx2
            = (λ earn, (default (Public (BSender batch)) sa, EDestination earn))
                <$> withDestinations ds (earnsOf batch w)) ∧
     (sa = None → anyResolved ds = false →
        submitEarnBatchWithResolution c batch config o w = ((result1, None), w3) ∧
        heap w3 = heap w ∧
        ∃ tx1, submittedTxs (log w3) = submittedTxs (log w) ++ [tx1])).
Proof.
  split_and!.
  - (* payments: at most two *)
    intros payment w. rewrite submitPaymentWithResolution_unfold.
    pose proof (rpc_GetServiceConfig_quiet w) as Hq.
    destruct (rpc_GetServiceConfig w) as [[e|config] w1]; simpl in Hq;
      apply quietView_inv in Hq as (_ & _ & Ht1 & _); [simpl; rewrite Ht1; lia|].
    destruct (_ && _); [simpl; rewrite Ht1; lia|].
    destruct (submitSolanaPayment c payment config _ None _ w1) as [[result err] w2] eqn:H1.
    apply submitSolanaPayment_spec in H1 as (_ & _ & _ & Ht2).
    assert (length (submittedTxs (log w2)) ≤ length (submittedTxs (log w)) + 1)%nat as Hl2.
    { rewrite Ht2, length_app, Ht1.
      destruct (solanaPaymentTx _ _ _ _ _) as [?|[[? ?] ?]]; simpl; lia. }
    destruct err as [e|]; [simpl; lia|].
    destruct (err_is _ _); [|simpl; lia].
    pose proof (resolvedFirst_frame (accountResolution o) c (Public (Sender payment)) w2)
      as (_ & Ht3 & _).
    destruct (resolvedFirst (accountResolution o) c _ w2) as [sa w3]. simpl in Ht3.
    pose proof (resolvedFirst_frame (destResolution o) c (Destination payment) w3)
      as (_ & Ht4 & _).
    destruct (resolvedFirst (destResolution o) c _ w3) as [da w4]. simpl in Ht4.
    destruct (_ || _); [|simpl; rewrite Ht4, Ht3; lia].
    destruct (submitSolanaPayment c _ config _ sa _ w4) as [[result' err'] w5] eqn:H2.
    apply submitSolanaPayment_spec in H2 as (_ & _ & _ & Ht5).
    simpl. rewrite Ht5, length_app, Ht4, Ht3.
    destruct (solanaPaymentTx c (withDestination da payment) config sa (subsidizer o))
      as [?|[[? ?] ?]]; simpl; lia.
  - (* payments: the two cases *)
    intros payment w config w1 result1 w2 sa w3 da w4 Hcfg Hsub H1 Hadne Hsa Hda.
    assert (submitPaymentWithResolution c payment o w =
            if bool_decide (is_Some sa) || bool_decide (is_Some da)
            then submitSolanaPayment c (withDestination da payment) config
                   (commitment o) sa (subsidizer o) w4
            else ((result1, None), w4)) as Hrun.
    { rewrite submitPaymentWithResolution_unfold, Hcfg.
      assert (bool_decide (SubsidizerAccount config = None)
              && bool_decide (subsidizer o = None) = false) as ->.
      { apply andb_false_iff. destruct Hsub; [left|right]; by apply bool_decide_eq_false. }
      rewrite H1. unfold err_is. rewrite Hadne, bool_decide_eq_true_2 by done.
      by rewrite Hsa, Hda. }
    pose proof (rpc_GetServiceConfig_quiet w) as Hq. rewrite Hcfg in Hq. simpl in Hq.
    apply quietView_inv in Hq as (_ & _ & Ht1 & _).
    destruct (submitSolanaPayment_assembled _ _ _ _ _ _ _ _ _ H1) as ([[s1 tx1] il1] & Htx1).
    pose proof (solanaPaymentTx_transfers _ _ _ _ _ _ _ _ Htx1) as Htr1.
    pose proof (submitSolanaPayment_spec _ _ _ _ _ _ _ _ _ _ H1) as (_ & _ & _ & Ht2).
    rewrite Htx1, Ht1 in Ht2.
    pose proof (resolvedFirst_frame (accountResolution o) c (Public (Sender payment)) w2)
      as (_ & Ht3 & _). rewrite Hsa in Ht3. simpl in Ht3.
    pose proof (resolvedFirst_frame (destResolution o) c (Destination payment) w3)
      as (_ & Ht4 & _). rewrite Hda in Ht4. simpl in Ht4.
    split.
    + intros Hsome.
      assert (bool_decide (is_Some sa) || bool_decide (is_Some da) = true) as Hb.
      { apply orb_true_iff. destruct Hsome; [left|right]; by apply bool_decide_eq_true. }
      rewrite Hb in Hrun. split; [done|].
      destruct (solanaPaymentTx_resubmit c payment config None (subsidizer o) da sa _ Htx1)
        as ([[s2 tx2] il2] & Htx2).
      exists tx1, tx2. rewrite Hrun.
      destruct (submitSolanaPayment c _ config _ sa _ w4) as [[result' err'] w5] eqn:H2.
      apply submitSolanaPayment_spec in H2 as (_ & _ & _ & Ht5). rewrite Htx2 in Ht5.
      split_and!.
      * simpl. rewrite Ht5, Ht4, Ht3, Ht2, <- app_assoc. done.
      * done.
      * rewrite (solanaPaymentTx_transfers _ _ _ _ _ _ _ _ Htx2). by destruct da.
    + intros -> ->. split; [done|]. exists tx1. by rewrite Ht4, Ht3, Ht2.
  - (* earn batches: at most two *)
    intros batch config w. rewrite submitEarnBatchWithResolution_unfold.
    destruct (submitSolanaEarnBatch c batch config _ None _ w) as [[result err] w1] eqn:H1.
    apply submitSolanaEarnBatch_spec in H1 as (_ & _ & _ & Ht1).
    assert (length (submittedTxs (log w1)) ≤ length (submittedTxs (log w)) + 1)%nat as Hl1.
    { rewrite Ht1, length_app.
      destruct (solanaEarnBatchTx _ _ _ _ _ _) as [?|[[? ?] ?]]; simpl; lia. }
    destruct err as [e|]; [simpl; lia|].
    destruct (err_is _ _); [|simpl; lia].
    pose proof (resolvedFirst_frame (accountResolution o) c (Public (BSender batch)) w1)
      as (_ & Ht2 & _).
    destruct (resolvedFirst (accountResolution o) c _ w1) as [sa w2]. simpl in Ht2.
    assert (∀ r3 w3,
      (if is_Preferred (destResolution o)
       then resolveEarnDestinations c batch 0 (length (earnsOf batch w2))
              (bool_decide (is_Some sa)) w2
       else ((None, bool_decide (is_Some sa)), w2)) = (r3, w3) →
      submittedTxs (log w3) = submittedTxs (log w2)) as Hdest.
    { intros [derr re] w3. destruct (is_Preferred _); [|by intros [= _ _ <-]].
      intros Hd. apply resolveEarnDestinations_spec in Hd as (_ & _ & _ & ? & _). done. }
    destruct (if is_Preferred (destResolution o) then _ else _)
      as [[derr resubmit] w3].
    pose proof (Hdest _ _ eq_refl) as Hd. simpl in Hd.
    destruct resubmit; [|simpl; rewrite Hd, Ht2; lia].
    destruct (submitSolanaEarnBatch c batch config _ sa _ w3) as [[result' err'] w4] eqn:H2.
    apply submitSolanaEarnBatch_spec in H2 as (_ & _ & _ & Ht4).
    simpl. rewrite Ht4, length_app, Hd, Ht2.
    destruct (solanaEarnBatchTx c batch (earnsOf batch w3) config sa (subsidizer o))
      as [?|[[? ?] ?]]; simpl; lia.
  - (* earn batches: the two cases *)
    intros batch config w result1 w1 sa w2 resubmit w3 H1 Hadne Hsa Hdest.
    rewrite submitEarnBatchWithResolution_unfold, H1. unfold err_is.
    rewrite Hadne, bool_decide_eq_true_2 by done. by rewrite Hsa, Hdest.
  - (* earn batches: who is substituted *)
    intros batch config w result1 w1 sa w2 ds w3 H1 Hadne Hsa Hds.
    pose proof (submitSolanaEarnBatch_heap c batch config (commitment o) None
                  (subsidizer o) w) as Hh1. rewrite H1 in Hh1. simpl in Hh1.
    pose proof (resolvedFirst_heap (accountResolution o) c (Public (BSender batch)) w1)
      as Hh2. rewrite Hsa in Hh2. simpl in Hh2.
    assert (earnsOf batch w2 = earnsOf batch w) as He2
      by (unfold earnsOf; by rewrite Hh2, Hh1).
    destruct (resolvedDestinations_spec (destResolution o) c (earnsOf batch w) w2)
      as (Hlen & Hh3 & Ht3 & _). rewrite Hds in Hlen, Hh3, Ht3. simpl in Hlen, Hh3, Ht3.
    assert (earnsOf batch w3 = earnsOf batch w) as He3
      by (unfold earnsOf; by rewrite Hh3, Hh2, Hh1).
    assert (submitEarnBatchWithResolution c batch config o w =
            if bool_decide (is_Some sa) || anyResolved ds
            then submitSolanaEarnBatch c batch config (commitment o) sa (subsidizer o)
                   (storeDestinations batch ds w3)
            else ((result1, None), w3)) as Hrun.
    { rewrite submitEarnBatchWithResolution_resolved, H1. unfold err_is.
      rewrite Hadne, bool_decide_eq_true_2 by done. by rewrite Hsa, He2, Hds. }
    destruct (submitSolanaEarnBatch_assembled _ _ _ _ _ _ _ _ _ H1)
      as ([[s1 tx1] il1] & Htx1).
    pose proof (solanaEarnBatchTx_transfers _ _ _ _ _ _ _ _ _ Htx1) as Htr1.
    pose proof (submitSolanaEarnBatch_spec _ _ _ _ _ _ _ _ _ _ H1) as (_ & _ & _ & Ht1).
    rewrite Htx1 in Ht1.
    pose proof (resolvedFirst_frame (accountResolution o) c (Public (BSender batch)) w1)
      as (_ & Ht2 & _). rewrite Hsa in Ht2. simpl in Ht2.
    split.
    + intros Hsome.
      assert (bool_decide (is_Some sa) || anyResolved ds = true) as Hb.
      { apply orb_true_iff. destruct Hsome; [left|right]; [|done].
        by apply bool_decide_eq_true. }
      rewrite Hb in Hrun. rewrite Hrun. split; [done|].
      set (w4 := storeDestinations batch ds w3).
      assert (earnsOf batch w4 = withDestinations ds (earnsOf batch w)) as He4.
      { subst w4. rewrite storeDestinations_earns by (by rewrite He3). by rewrite He3. }
      assert (log w4 = log w3) as Hl4.
      { subst w4. unfold storeDestinations. by destruct (heap w3 !! Earns batch). }
      destruct (solanaEarnBatchTx_resubmit c batch (earnsOf batch w) config None
                  (subsidizer o) ds sa _ Hlen Htx1) as ([[s2 tx2] il2] & Htx2).
      pose proof (submitSolanaEarnBatch_heap c batch config (commitment o) sa
                    (subsidizer o) w4) as Hh5.
      destruct (submitSolanaEarnBatch c batch config (commitment o) sa (subsidizer o) w4)
        as [[result' err'] w5] eqn:H2. simpl in Hh5.
      apply submitSolanaEarnBatch_spec in H2 as (_ & _ & _ & Ht5).
      rewrite He4, Htx2 in Ht5. simpl. split.
      * unfold earnsOf. rewrite Hh5. exact He4.
      * exists tx1, tx2. split_and!.
        -- rewrite Ht5, Hl4, Ht3, Ht2, Ht1, <- app_assoc. done.
        -- done.
        -- exact (solanaEarnBatchTx_transfers _ _ _ _ _ _ _ _ _ Htx2).
    + intros -> Hnone. rewrite Hnone in Hrun. simpl in Hrun.
      split_and!; [done|by rewrite Hh3, Hh2, Hh1|].
      exists tx1. by rewrite Ht3, Ht2, Ht1.
Qed.

End Fallback.

(** C2: the payment from alice to bob on the service where bob is absent
    and has one token account: the call is the one resubmission, and the
    second transaction pays bob's token account.  And the batch for bob
    and carol, where bob has two token accounts and carol none: the
    second transaction pays bob's first token account and carol as
    before. *)
Lemma resolution_fallback_once_witness :
  (∃ tx1 tx2,
     submittedTxs
       (log (submitPaymentWithResolution scriptedOpts payAliceBob
               (defaultSolanaOpts scriptedOpts)
               (scriptedWorld 4 absentDestinationScript)).2) = [tx1; tx2] ∧
     transfers tx1 = [(alice, bob)] ∧ transfers tx2 = [(alice, bobToken)]) ∧
  (∃ tx1 tx2,
     submittedTxs
       (log (submitEarnBatchWithResolution scriptedOpts batchAt0 scriptedConfig
               (defaultSolanaOpts scriptedOpts)
               (worldWithEarns 4 [earnBob; earnCarol] bobOfTwoScript)).2) = [tx1; tx2] ∧
     transfers tx1 = [(alice, bob); (alice, carol)] ∧
     transfers tx2 = [(alice, bobToken); (alice, carol)]).
Proof.
  destruct (resolution_fallback_once (R := Script) scriptedOpts
              (defaultSolanaOpts scriptedOpts)) as (_ & Hpay & _ & _ & Hearn).
  split.
  2:{ set (w := worldWithEarns 4 [earnBob; earnCarol] bobOfTwoScript).
      destruct (submitSolanaEarnBatch scriptedOpts batchAt0 scriptedConfig 1%N None None w)
        as [[result1 err1] w1] eqn:H1.
      destruct (resolvedFirst AccountResolutionPreferred scriptedOpts alice w1)
        as [sa w2] eqn:Hsa.
      destruct (resolvedDestinations AccountResolutionPreferred scriptedOpts
                  [earnBob; earnCarol] w2) as [ds w3] eqn:Hds.
      vm_compute in H1. injection H1 as <- <- <-.
      vm_compute in Hsa. injection Hsa as <- <-.
      vm_compute in Hds. injection Hds as <- <-.
      edestruct (Hearn batchAt0 scriptedConfig w) as [Hre _];
        [vm_compute; reflexivity|reflexivity|vm_compute; reflexivity
        |vm_compute; reflexivity|].
      destruct Hre as (_ & _ & tx1 & tx2 & Htxs & Ht1 & Ht2); [by right|].
      exists tx1, tx2. by split_and!. }
  set (w := scriptedWorld 4 absentDestinationScript).
  destruct (rpc_GetServiceConfig w) as [rc w1] eqn:Hcfg.
  destruct (submitSolanaPayment scriptedOpts payAliceBob scriptedConfig 1%N None None w1)
    as [[result1 err1] w2] eqn:H1.
  destruct (resolvedFirst AccountResolutionPreferred scriptedOpts alice w2)
    as [sa w3] eqn:Hsa.
  destruct (resolvedFirst AccountResolutionPreferred scriptedOpts bob w3)
    as [da w4] eqn:Hda.
  vm_compute in Hcfg. injection Hcfg as <- <-.
  vm_compute in H1. injection H1 as <- <- <-.
  vm_compute in Hsa. injection Hsa as <- <-.
  vm_compute in Hda. injection Hda as <- <-.
  edestruct (Hpay payAliceBob w) as [Hre _];
    [reflexivity|by left|vm_compute; reflexivity|reflexivity
    |vm_compute; reflexivity|vm_compute; reflexivity|].
  destruct Hre as (_ & tx1 & tx2 & Htxs & Ht1 & Ht2); [by right|].
  exists tx1, tx2. by split_and!.
Defined.


(** ** SubmitPayment: which error the caller gets *)

Section Precedence.
Context `{Externals} {R : Type} `{Service R}.
Implicit Types (w : World R) (c : clientOpts).

(** Lines 557-579 report the first category that is not empty. *)
Lemma surfacePayment_precedence result err :
  surfacePayment (result, err) =
    (ID result,
     match firstNonEmpty result err with
     | Some cat => categoryError cat result err
     | None => None
     end).
Proof.
  destruct result as [i [te oe pe] ie]. destruct err as [e|];
    unfold firstNonEmpty; simpl; [done|].
  destruct pe as [|p [|p' pe]]; simpl; [|done..].
  destruct te as [t|]; simpl; [done|].
  destruct ie as [|x [|x' ie]]; done.
Qed.

(** C3.  What a call of [SubmitPayment] returns.  Either the call is
    rejected before anything is submitted (version out of range, invoice
    without app index, or a legacy envelope that cannot be assembled) and
    returns that error with the world as it was; or it returns the
    outcome of its own submission, mapped: the submission is the one of
    the token ledger on version 4, the one of the legacy ledger
    otherwise, followed by the token-ledger one after a migration; of
    its result and error the caller gets the id of the result and the
    error of the first category that is not empty, in the order transport
    error, per-payment error, transaction error, invoice error, nothing
    of the later categories, and no error when all four are empty.  When
    the submission itself reports no error, its result is the answer of
    the service to the last submit request of the call. *)
Theorem SubmitPayment_error_precedence c payment opts w :
  let o := apply_opts opts (defaultSolanaOpts c) in
  (∃ e,
     SubmitPayment c payment opts w = (([], Some e), w) ∧
     ((kinVersion w > 4 ∨ kinVersion w < 2) ∨
      (is_Some (PInvoice payment) ∧ appIndex c = 0%N) ∨
      (kinVersion w ≠ 4 ∧ legacyPaymentEnvelope c (kinVersion w) payment = inl e))) ∨
  (∃ result err w',
     SubmitPayment c payment opts w =
       ((ID result,
         match firstNonEmpty result err with
         | Some cat => categoryError cat result err
         | None => None
         end), w') ∧
     (err = None → answeredBy w w' result) ∧
     ((kinVersion w = 4 ∧
       submitPaymentWithResolution c payment o w = ((result, err), w')) ∨
      (kinVersion w ≠ 4 ∧
       ∃ signers envelope il result1 err1 w1,
         legacyPaymentEnvelope c (kinVersion w) payment = inr (signers, envelope, il) ∧
         signAndSubmitXDR c signers envelope il w = ((result1, err1), w1) ∧
         if bool_decide (is_Some err1)
            && bool_decide (status_Code err1 = CodeFailedPrecondition)
         then submitPaymentWithResolution c payment o (set_kinVersions 4 w1)
              = ((result, err), w')
         else (result, err, w') = (result1, err1, w1)))).
Proof.
  intros o. unfold SubmitPayment. fold o.
  destruct (bool_decide (kinVersion w > 4 ∨ kinVersion w < 2)) eqn:Hv.
  { apply bool_decide_eq_true in Hv. left. eexists. split; [done|]. by left. }
  destruct (bool_decide (is_Some (PInvoice payment)) && bool_decide (appIndex c = 0%N))
    eqn:Hinv.
  { apply andb_true_iff in Hinv as [Hi Ha].
    apply bool_decide_eq_true in Hi. apply bool_decide_eq_true in Ha.
    left. eexists. split; [done|]. right. by left. }
  destruct (bool_decide (kinVersion w = 4)) eqn:H4.
  - apply bool_decide_eq_true in H4.
    destruct (submitPaymentWithResolution c payment o w) as [[result err] w'] eqn:Hs.
    right. exists result, err, w'. split_and!.
    + by rewrite surfacePayment_precedence.
    + intros ->. by eapply submitPaymentWithResolution_success.
    + by left.
  - apply bool_decide_eq_false in H4.
    destruct (legacyPaymentEnvelope c (kinVersion w) payment)
      as [e|[[signers envelope] il]] eqn:Henv.
    { left. exists e. split; [done|]. right. by right. }
    pose proof (signAndSubmitXDR_logged c signers envelope il w) as Hlegacy.
    destruct (signAndSubmitXDR c signers envelope il w) as [[result1 err1] w1] eqn:Hxdr.
    simpl in Hlegacy.
    destruct (bool_decide (is_Some err1)
              && bool_decide (status_Code err1 = CodeFailedPrecondition)) eqn:Hmig.
    + destruct (submitPaymentWithResolution c payment o (set_kinVersions 4 w1))
        as [[result err] w'] eqn:Hs.
      right. exists result, err, w'. split_and!.
      * by rewrite surfacePayment_precedence.
      * intros ->. apply submitPaymentWithResolution_success in Hs.
        eapply answeredBy_after; [exact Hlegacy|]. exact Hs.
      * right. split; [done|]. exists signers, envelope, il, result1, err1, w1.
        split_and!; [done..|]. by rewrite Hmig.
    + right. exists result1, err1, w1. split_and!.
      * by rewrite surfacePayment_precedence.
      * intros ->. by eapply signAndSubmitXDR_success.
      * right. split; [done|]. exists signers, envelope, il, result1, err1, w1.
        split_and!; [done..|]. by rewrite Hmig.
Qed.

End Precedence.
